(** * VuiCode: stack composition and test execution engine

    A shallow embedding of the configuration composer
    (tools/generate_content.py) and of the process orchestrator
    (tools/run_all_tests.py), with the properties of the engine's
    specification stated and proved over it.

    Python values loaded from YAML or JSON are embedded as the type [value];
    a Python dict is an association list in insertion order whose keys are
    pairwise distinct ([wf_value]).  Exceptions are the [Err] results of the
    [result] monad. *)

From Stdlib Require Import ZArith List String Ascii Bool Lia.
From Stdlib Require DecimalString.
From stdpp Require Import base list option strings.

Set Warnings "-register-all".

(** Let [simpl] compute string concatenation on constructors. *)
#[local] Arguments String.append !_ _ / : simpl nomatch.

(** ** Python values *)

Inductive value : Type :=
| VNull
| VBool (b : bool)
| VInt (n : Z)
| VStr (s : string)
| VList (xs : list value)
| VDict (kvs : list (string * value)).

(** Induction over values that reaches the elements of lists and the
    values stored in dicts. *)
Section value_induction.
Variable P : value -> Prop.
Hypothesis HNull : P VNull.
Hypothesis HBool : forall b, P (VBool b).
Hypothesis HInt : forall n, P (VInt n).
Hypothesis HStr : forall s, P (VStr s).
Hypothesis HList : forall xs, Forall P xs -> P (VList xs).
Hypothesis HDict : forall kvs, Forall (fun kv => P (snd kv)) kvs -> P (VDict kvs).

Fixpoint value_ind_nested (v : value) : P v :=
  match v with
  | VNull => HNull
  | VBool b => HBool b
  | VInt n => HInt n
  | VStr s => HStr s
  | VList xs =>
      HList xs ((fix go (l : list value) : Forall P l :=
                   match l with
                   | [] => List.Forall_nil P
                   | x :: l' => List.Forall_cons P x l' (value_ind_nested x) (go l')
                   end) xs)
  | VDict kvs =>
      HDict kvs ((fix go (l : list (string * value)) : Forall (fun kv => P (snd kv)) l :=
                    match l with
                    | [] => List.Forall_nil _
                    | kv :: l' => List.Forall_cons _ kv l' (value_ind_nested (snd kv)) (go l')
                    end) kvs)
  end.
End value_induction.

(** Exceptions raised by the embedded code. *)
Inductive exn : Type :=
| ValueError (msg : string)
| TypeError
| AttributeError
| KeyError
| FileNotFoundError
| OSError
| RuntimeError (msg : string).

Inductive result (A : Type) : Type :=
| Ok (a : A)
| Err (e : exn).
Arguments Ok {A} a.
Arguments Err {A} e.

Definition rbind {A B} (m : result A) (f : A -> result B) : result B :=
  match m with
  | Ok a => f a
  | Err e => Err e
  end.

Declare Scope result_scope.
Delimit Scope result_scope with result.
Notation "'let?' x ':=' m 'in' k" := (rbind m (fun x => k))
  (at level 10, x pattern, m at level 100, k at level 200) : result_scope.
Local Open Scope result_scope.

Definition is_ok {A} (r : result A) : bool :=
  match r with Ok _ => true | Err _ => false end.

Definition raises {A} (r : result A) : Prop := exists e, r = Err e.

(** [[f(x) for x in xs]] where [f] may raise: the first exception wins. *)
Fixpoint rmap {A B} (f : A -> result B) (xs : list A) : result (list B) :=
  match xs with
  | [] => Ok []
  | x :: xs' =>
      let? y := f x in
      let? ys := rmap f xs' in
      Ok (y :: ys)
  end.

(** ** Dicts *)

Definition dict := list (string * value).

(** [d.get(k)] *)
Fixpoint dict_get (d : dict) (k : string) : option value :=
  match d with
  | [] => None
  | (k', v) :: d' => if String.eqb k k' then Some v else dict_get d' k
  end.

(** [k in d] *)
Definition dict_has (d : dict) (k : string) : bool :=
  match dict_get d k with Some _ => true | None => false end.

(** [d[k] = v]: an existing key keeps its position, a new key goes last. *)
Fixpoint dict_set (k : string) (v : value) (d : dict) : dict :=
  match d with
  | [] => [(k, v)]
  | (k', v') :: d' =>
      if String.eqb k k' then (k, v) :: d' else (k', v') :: dict_set k v d'
  end.

Definition keys (d : dict) : list string := map fst d.

Fixpoint distinct (ks : list string) : bool :=
  match ks with
  | [] => true
  | k :: ks' => negb (existsb (String.eqb k) ks') && distinct ks'
  end.

(** The representation invariant of a Python dict: no key occurs twice,
    at any depth. *)
Fixpoint wf_value (v : value) : bool :=
  match v with
  | VList xs => forallb wf_value xs
  | VDict kvs => distinct (map fst kvs) && forallb (fun kv => wf_value (snd kv)) kvs
  | _ => true
  end.

(** Python truthiness, [bool(v)]. *)
Definition truthy (v : value) : bool :=
  match v with
  | VNull => false
  | VBool b => b
  | VInt n => negb (n =? 0)%Z
  | VStr s => negb (String.eqb s "")
  | VList xs => match xs with [] => false | _ => true end
  | VDict kvs => match kvs with [] => false | _ => true end
  end.

(** ** deep_merge (generate_content.py, 349-355) *)

Definition get_or_none (d : dict) (k : string) : value :=
  match dict_get d k with Some v => v | None => VNull end.

Fixpoint deep_merge (a b : value) {struct b} : value :=
  match a, b with
  | VDict da, VDict db =>
      VDict (fold_left
               (fun out kv => dict_set (fst kv) (deep_merge (get_or_none out (fst kv)) (snd kv)) out)
               db da)
  | _, _ => b
  end.

Definition merge_step (out : dict) (kv : string * value) : dict :=
  dict_set (fst kv) (deep_merge (get_or_none out (fst kv)) (snd kv)) out.

Lemma deep_merge_dicts da db :
  deep_merge (VDict da) (VDict db) = VDict (fold_left merge_step db da).
Proof. reflexivity. Qed.

(** ** Python built-ins used by the composer *)

(** [for x in v]: a list yields its items, a dict its keys, a string its
    characters; anything else is not iterable. *)
Fixpoint chars (s : string) : list value :=
  match s with
  | EmptyString => []
  | String c r => VStr (String c EmptyString) :: chars r
  end.

Definition py_iter (v : value) : result (list value) :=
  match v with
  | VList xs => Ok xs
  | VDict d => Ok (map (fun kv => VStr (fst kv)) d)
  | VStr s => Ok (chars s)
  | _ => Err TypeError
  end.

(** [x == "lit"] for a string literal: only the same string is equal. *)
Definition eq_str (lit : string) (x : value) : bool :=
  match x with VStr s => String.eqb s lit | _ => false end.

(** [k in t] on strings. *)
Fixpoint is_substring (k t : string) : bool :=
  String.prefix k t ||
  match t with
  | EmptyString => false
  | String _ t' => is_substring k t'
  end.

(** ["lit" in v] *)
Definition py_contains (lit : string) (v : value) : result bool :=
  match v with
  | VDict d => Ok (dict_has d lit)
  | VList xs => Ok (existsb (eq_str lit) xs)
  | VStr s => Ok (is_substring lit s)
  | _ => Err TypeError
  end.

(** Values that can be dict keys. *)
Definition hashable (v : value) : bool :=
  match v with VList _ | VDict _ => false | _ => true end.

(** ** merge_named_list (generate_content.py, 357-367) *)

(** [v or []] and [v or {}] followed by an iteration: a falsy value stands
    for the empty collection. *)
Definition items_or_empty (v : value) : result (list value) :=
  if truthy v then py_iter v else Ok [].

(** [(override_map or {}).items()] *)
Definition overrides_or_empty (v : value) : result dict :=
  if truthy v then
    match v with VDict d => Ok d | _ => Err AttributeError end
  else Ok [].

(** [idx = {item.get("name"): i for i, item in enumerate(base_list)
           if isinstance(item, dict) and "name" in item}]:
    a later entry of the same name overwrites the index of an earlier one.
    Only string names are kept, since [idx] is looked up with the keys of
    the override map, which are strings; a name that is a list or a dict
    cannot be hashed. *)
Fixpoint build_idx (items : list value) (i : nat) (idx : list (string * nat))
  : result (list (string * nat)) :=
  match items with
  | [] => Ok idx
  | item :: rest =>
      match item with
      | VDict d =>
          match dict_get d "name" with
          | Some (VStr n) => build_idx rest (S i) ((n, i) :: idx)
          | Some v => if hashable v then build_idx rest (S i) idx else Err TypeError
          | None => build_idx rest (S i) idx
          end
      | _ => build_idx rest (S i) idx
      end
  end.

(** [idx] is kept newest first, so the first hit is the last assignment. *)
Fixpoint idx_get (idx : list (string * nat)) (name : string) : option nat :=
  match idx with
  | [] => None
  | (n, i) :: rest => if String.eqb name n then Some i else idx_get rest name
  end.

(** The loop over the override map: [out[i] = deep_merge(out[i], patch)]. *)
Definition apply_patch (idx : list (string * nat)) (out : list value)
    (np : string * value) : list value :=
  match idx_get idx (fst np) with
  | Some i =>
      match out !! i with
      | Some x => <[i := deep_merge x (snd np)]> out
      | None => out
      end
  | None => out
  end.

(** [x.get("disabled")] needs a dict. *)
Definition disabled (x : value) : result bool :=
  match x with
  | VDict d => Ok (truthy (get_or_none d "disabled"))
  | _ => Err AttributeError
  end.

(** [[x for x in out if not x.get("disabled")]] *)
Fixpoint drop_disabled (out : list value) : result (list value) :=
  match out with
  | [] => Ok []
  | x :: rest =>
      let? dis := disabled x in
      let? rest' := drop_disabled rest in
      Ok (if dis then rest' else x :: rest')
  end.

Definition merge_named_list (base_list override_map add_list : value)
  : result (list value) :=
  let? base := items_or_empty base_list in
  let? idx := build_idx base 0 [] in
  let? ov := overrides_or_empty override_map in
  let out := fold_left (apply_patch idx) ov base in
  let? adds := items_or_empty add_list in
  drop_disabled (out ++ adds).

(** ** Path helpers (generate_content.py, 83-86) *)

Definition is_safe_relpath (rel : string) : bool :=
  if String.prefix "../" rel || String.prefix "/" rel || String.prefix "content/" rel
  then false
  else String.prefix "backend/" rel || String.prefix "frontend/" rel.

(** [s.replace("\\", "/")] *)
Fixpoint replace_backslash (s : string) : string :=
  match s with
  | EmptyString => EmptyString
  | String c r =>
      String (if Ascii.eqb c (ascii_of_nat 92) then "/"%char else c) (replace_backslash r)
  end.

(** [while s.startswith("./"): s = s[2:]] *)
Fixpoint strip_dot_slash (s : string) : string :=
  match s with
  | String "."%char (String "/"%char r) => strip_dot_slash r
  | _ => s
  end.

(** [s.endswith("/")] *)
Fixpoint ends_with_slash (s : string) : bool :=
  match s with
  | EmptyString => false
  | String c EmptyString => Ascii.eqb c "/"%char
  | String _ r => ends_with_slash r
  end.

Section Composer.

(** [repr] of a list or a dict, the one part of [str] that is left to the
    Python runtime. *)
Variable py_repr : value -> string.
(** [os.environ] *)
Variable environ : string -> option string.
(** [str.lower] *)
Variable py_lower : string -> string.

(** [str(v)] *)
Definition py_str (v : value) : string :=
  match v with
  | VStr s => s
  | VNull => "None"
  | VBool true => "True"
  | VBool false => "False"
  | VInt n => DecimalString.NilZero.string_of_int (Z.to_int n)
  | _ => py_repr v
  end.

(** ** resolve_vars (generate_content.py, 347 and 369-379) *)

(** The character class [[A-Z0-9_]] of [_VAR_RE]. *)
Definition is_var_char (c : ascii) : bool :=
  let n := nat_of_ascii c in
  (Nat.leb 65 n && Nat.leb n 90) || (Nat.leb 48 n && Nat.leb n 57) || Nat.eqb n 95.

(** The longest run of name characters at the head of [s], and what follows. *)
Fixpoint span_var (s : string) : string * string :=
  match s with
  | String c r =>
      if is_var_char c
      then let (n, rest) := span_var r in (String c n, rest)
      else (EmptyString, s)
  | EmptyString => (EmptyString, EmptyString)
  end.

(** A match of [_VAR_RE] at the head of [s]: the name and the text after
    the closing brace. *)
Definition match_token (s : string) : option (string * string) :=
  match s with
  | String "$"%char (String "{"%char r) =>
      match span_var r with
      | (String c n, String "}"%char rest) => Some (String c n, rest)
      | _ => None
      end
  | _ => None
  end.

(** [repl]: the vars map first, then the environment, else the token. *)
Definition repl (vars_map : dict) (key : string) : string :=
  match dict_get vars_map key with
  | Some v => py_str v
  | None =>
      match environ key with
      | Some e => e
      | None => "${" +:+ key +:+ "}"
      end
  end.

(** [_VAR_RE.sub(repl, s)]: leftmost matches, left to right, the replaced
    text not scanned again.  Every step consumes a character, so the
    length of the string is fuel enough ([sub_vars_fuel_enough]). *)
Fixpoint sub_vars_fuel (fuel : nat) (vars_map : dict) (s : string) : string :=
  match fuel with
  | O => s
  | S fuel' =>
      match s with
      | EmptyString => EmptyString
      | String c r =>
          match match_token s with
          | Some (name, rest) => repl vars_map name +:+ sub_vars_fuel fuel' vars_map rest
          | None => String c (sub_vars_fuel fuel' vars_map r)
          end
      end
  end.

Definition sub_vars (vars_map : dict) (s : string) : string :=
  sub_vars_fuel (String.length s) vars_map s.

Fixpoint resolve_vars (obj : value) (vars_map : dict) : value :=
  match obj with
  | VDict kvs => VDict (map (fun kv => (fst kv, resolve_vars (snd kv) vars_map)) kvs)
  | VList xs => VList (map (fun x => resolve_vars x vars_map) xs)
  | VStr s => VStr (sub_vars vars_map s)
  | _ => obj
  end.

(** ** _expand_project_paths (generate_content.py, 381-410) *)

Definition project_path (slug rel : string) : string :=
  "content/code/" +:+ slug +:+ "/" +:+ rel.

Definition expand_cwd (slug : string) (cwd : value) : result string :=
  let? c0 := (if truthy cwd
              then match cwd with VStr s => Ok s | _ => Err AttributeError end
              else Ok EmptyString) in
  let c := strip_dot_slash (replace_backslash c0) in
  if String.eqb c "backend" || String.prefix "backend/" c then Ok (project_path slug c)
  else if String.eqb c "frontend" || String.prefix "frontend/" c then Ok (project_path slug c)
  else if negb (is_safe_relpath (c +:+ (if ends_with_slash c then "" else "/")))
       then Err (ValueError ("Illegal test/service cwd: " +:+ c))
  else Ok (project_path slug c).

(** [if "cwd" in e: e["cwd"] = expand_cwd(e["cwd"])]; subscripting a
    string or a list with "cwd" is a type error. *)
Definition expand_entry_cwd (slug : string) (e : value) : result value :=
  let? has := py_contains "cwd" e in
  if has then
    match e with
    | VDict d =>
        let? c := expand_cwd slug (get_or_none d "cwd") in
        Ok (VDict (dict_set "cwd" (VStr c) d))
    | _ => Err TypeError
    end
  else Ok e.

(** [[str(x) for x in cmd]] *)
Definition str_list (cmd : value) : result value :=
  let? xs := py_iter cmd in
  Ok (VList (map (fun x => VStr (py_str x)) xs)).

Definition expand_junit (slug : string) (d : dict) : result dict :=
  if eq_str "junit" (get_or_none d "type") && truthy (get_or_none d "junit_xml") then
    match get_or_none d "junit_xml" with
    | VStr j0 =>
        let j := replace_backslash j0 in
        if String.prefix "content/" j then Ok d
        else Ok (dict_set "junit_xml" (VStr (project_path slug j)) d)
    | _ => Err AttributeError
    end
  else Ok d.

Definition expand_install (d : dict) : result dict :=
  match dict_get d "install" with
  | Some (VList cmds) =>
      let? cmds' := rmap str_list cmds in
      Ok (dict_set "install" (VList cmds') d)
  | _ => Ok d
  end.

Definition expand_cmd (d : dict) : result dict :=
  match dict_get d "cmd" with
  | Some c => let? c' := str_list c in Ok (dict_set "cmd" c' d)
  | None => Ok d
  end.

(** The body of the loop over the tests; [t.get] needs a dict. *)
Definition expand_test (slug : string) (t : value) : result value :=
  let? t1 := expand_entry_cwd slug t in
  match t1 with
  | VDict d =>
      let? d2 := expand_junit slug d in
      let? d3 := expand_install d2 in
      let? d4 := expand_cmd d3 in
      Ok (VDict d4)
  | _ => Err AttributeError
  end.

(** A loop that updates the entries of a list in place.  Over a dict (its
    keys) or a string (its characters) the body can only pass or raise, and
    the collection stays as it is. *)
Definition for_each (f : value -> result value) (v : value) : result value :=
  match v with
  | VList xs => let? xs' := rmap f xs in Ok (VList xs')
  | _ => let? xs := py_iter v in let? _ := rmap f xs in Ok v
  end.

(** [for e in merged.get(key, []): body]  *)
Definition expand_key (key : string) (f : value -> result value) (m : dict) : result dict :=
  match dict_get m key with
  | Some v => let? v' := for_each f v in Ok (dict_set key v' m)
  | None => Ok m
  end.

Definition _expand_project_paths (merged : value) (slug : string) : result value :=
  match merged with
  | VDict m =>
      let? m1 := expand_key "services" (expand_entry_cwd slug) m in
      let? m2 := expand_key "tests" (expand_test slug) m1 in
      Ok (VDict m2)
  | _ => Err AttributeError
  end.

(** ** Template resolution (generate_content.py, 210-218 and 287-308) *)

(** [[k.lower() for k in tpl.get("detect", []) if isinstance(k, str)]] *)
Definition detect_keywords (tpl : dict) : result (list string) :=
  match dict_get tpl "detect" with
  | None => Ok []
  | Some v =>
      let? ks := py_iter v in
      Ok (omap (fun k => match k with VStr s => Some (py_lower s) | _ => None end) ks)
  end.

(** [sum(1 for k in kws if k in t) if kws else 0] *)
Definition score (kws : list string) (t : string) : nat :=
  length (filter (fun k => is_substring k t = true) kws).

Fixpoint best_match_loop (reg : list (string * dict)) (t : string)
    (best : option string) (sc0 : nat) : result (option string) :=
  match reg with
  | [] => Ok best
  | (name, tpl) :: rest =>
      let? kws := detect_keywords tpl in
      let sc := score kws t in
      if Nat.ltb sc0 sc then best_match_loop rest t (Some name) sc
      else best_match_loop rest t best sc0
  end.

Definition best_match_by_topic (reg : list (string * dict)) (topic : string)
  : result (option string) :=
  best_match_loop reg (py_lower topic) None 0.

(** Which template [load_or_autogen_template] goes on to hydrate and
    validate: a registered one, or one produced by the generator. *)
Inductive resolution : Type :=
| UseExisting (name : string)
| Autogenerate.

Definition reg_has (reg : list (string * dict)) (name : string) : bool :=
  existsb (fun e => String.eqb name (fst e)) reg.

(** [chosen = name or best_match_by_topic(reg, topic or "")], then
    [if chosen and chosen in reg]. *)
Definition load_or_autogen_template (reg : list (string * dict)) (topic : string)
    (name : option string) : result resolution :=
  let? chosen :=
    match name with
    | Some n => if String.eqb n "" then best_match_by_topic reg topic else Ok (Some n)
    | None => best_match_by_topic reg topic
    end in
  match chosen with
  | Some c => if negb (String.eqb c "") && reg_has reg c then Ok (UseExisting c)
              else Ok Autogenerate
  | None => Ok Autogenerate
  end.

(** ** Properties of the composer *)

(** *** Lookup and update on dicts *)

Lemma dict_get_set_eq k v d : dict_get (dict_set k v d) k = Some v.
Proof.
  induction d as [|[k' v'] d IH]; simpl.
  - now rewrite String.eqb_refl.
  - destruct (String.eqb k k') eqn:E; simpl.
    + now rewrite String.eqb_refl.
    + now rewrite E.
Qed.

Lemma dict_get_set_ne k k' v d :
  k <> k' -> dict_get (dict_set k v d) k' = dict_get d k'.
Proof.
  intros Hne. induction d as [|[k0 v0] d IH]; simpl.
  - destruct (String.eqb k' k) eqn:E; [|reflexivity].
    apply String.eqb_eq in E. congruence.
  - destruct (String.eqb k k0) eqn:E; simpl.
    + apply String.eqb_eq in E. subst k0.
      destruct (String.eqb k' k) eqn:E'; [|reflexivity].
      apply String.eqb_eq in E'. congruence.
    + now rewrite IH.
Qed.

Lemma dict_set_same k v d : dict_get d k = Some v -> dict_set k v d = d.
Proof.
  induction d as [|[k' v'] d IH]; simpl; [discriminate|].
  destruct (String.eqb k k') eqn:E.
  - apply String.eqb_eq in E. now intros [= ->]; subst.
  - intros H. now rewrite IH.
Qed.

Lemma dict_get_none_notin d k :
  existsb (String.eqb k) (map fst d) = false -> dict_get d k = None.
Proof.
  induction d as [|[k' v'] d IH]; simpl; [reflexivity|].
  destruct (String.eqb k k'); simpl; [discriminate|exact IH].
Qed.

Lemma distinct_get d :
  distinct (map fst d) = true ->
  Forall (fun kv => dict_get d (fst kv) = Some (snd kv)) d.
Proof.
  induction d as [|[k v] d IH]; simpl; intros Hd; constructor; simpl.
  - now rewrite String.eqb_refl.
  - apply andb_true_iff in Hd as [Hk Hd]. apply negb_true_iff in Hk.
    specialize (IH Hd). rewrite List.Forall_forall in IH |- *.
    intros [k' v'] Hin. simpl.
    destruct (String.eqb k' k) eqn:E; [|now apply (IH (k', v'))].
    apply String.eqb_eq in E. subst k'.
    apply dict_get_none_notin in Hk.
    specialize (IH _ Hin). simpl in IH. congruence.
Qed.

(** *** The merged dict, key by key *)

Definition merged_lookup (da db : dict) (k : string) : option value :=
  match dict_get db k with
  | Some vb => Some (deep_merge (get_or_none da k) vb)
  | None => dict_get da k
  end.

Lemma get_or_none_set_ne k k' v d :
  k <> k' -> get_or_none (dict_set k v d) k' = get_or_none d k'.
Proof. intros H. unfold get_or_none. now rewrite dict_get_set_ne. Qed.

Lemma fold_merge_lookup db : forall da k,
  distinct (map fst db) = true ->
  dict_get (fold_left merge_step db da) k = merged_lookup da db k.
Proof.
  induction db as [|[k1 v1] db IH]; intros da k Hd; simpl in *.
  - reflexivity.
  - apply andb_true_iff in Hd as [Hk Hd]. apply negb_true_iff in Hk.
    rewrite IH by exact Hd. unfold merged_lookup, merge_step; simpl.
    destruct (String.eqb k k1) eqn:E.
    + apply String.eqb_eq in E. subst k1.
      rewrite (dict_get_none_notin _ _ Hk). apply dict_get_set_eq.
    + assert (k1 <> k) by (intros ->; now rewrite String.eqb_refl in E).
      rewrite get_or_none_set_ne by assumption.
      now rewrite dict_get_set_ne by assumption.
Qed.

Lemma fold_merge_fixed d : forall l,
  Forall (fun kv => dict_get d (fst kv) = Some (snd kv)
                    /\ deep_merge (snd kv) (snd kv) = snd kv) l ->
  fold_left merge_step l d = d.
Proof.
  induction l as [|[k v] l IH]; intros H; simpl; [reflexivity|].
  inversion H as [|? ? [Hg Hm] Hl]; subst; simpl in *.
  unfold merge_step at 2; simpl. unfold get_or_none. rewrite Hg, Hm.
  rewrite (dict_set_same _ _ _ Hg). now apply IH.
Qed.

Lemma deep_merge_idem a : wf_value a = true -> deep_merge a a = a.
Proof.
  induction a as [| | | | xs _ | kvs IH] using value_ind_nested; try reflexivity.
  simpl wf_value. intros Hwf. apply andb_true_iff in Hwf as [Hd Hall].
  rewrite deep_merge_dicts. f_equal. apply fold_merge_fixed.
  pose proof (distinct_get _ Hd) as Hget.
  rewrite forallb_forall in Hall. rewrite List.Forall_forall in *.
  intros kv Hin. split; [now apply Hget|].
  apply IH; [exact Hin|]. now apply Hall.
Qed.

Definition is_dict (v : value) : bool :=
  match v with VDict _ => true | _ => false end.

(** C7. When both arguments are maps, the merge maps every key of [b] to
    [deep_merge(a.get(k), b[k])] (so a key present in both maps to the merge
    of the two values) and keeps the other keys of [a]; in every other
    case the result is [b] itself, lists and scalars included; and merging a
    value into itself gives the value back. *)
Theorem deep_merge_spec (a b : value) :
  wf_value a = true -> wf_value b = true ->
  match a, b with
  | VDict da, VDict db =>
      exists dr, deep_merge a b = VDict dr /\
        forall k, dict_get dr k =
          match dict_get da k, dict_get db k with
          | Some va, Some vb => Some (deep_merge va vb)
          | None, Some vb => Some vb
          | oa, None => oa
          end
  | _, _ => deep_merge a b = b
  end /\ deep_merge a a = a.
Proof.
  intros Ha Hb. split; [|now apply deep_merge_idem].
  destruct a as [| | | | |da], b as [| | | | |db]; try reflexivity.
  exists (fold_left merge_step db da). split; [apply deep_merge_dicts|].
  intros k. simpl in Hb. apply andb_true_iff in Hb as [Hd _].
  rewrite fold_merge_lookup by exact Hd. unfold merged_lookup, get_or_none.
  destruct (dict_get db k) as [vb|], (dict_get da k) as [va|]; try reflexivity.
  now destruct vb.
Qed.

Lemma get_or_none_set_eq k v d : get_or_none (dict_set k v d) k = v.
Proof. unfold get_or_none. now rewrite dict_get_set_eq. Qed.

Lemma dict_has_set_eq k v d : dict_has (dict_set k v d) k = true.
Proof. unfold dict_has. now rewrite dict_get_set_eq. Qed.

Lemma dict_has_set_ne k k' v d :
  k <> k' -> dict_has (dict_set k v d) k' = dict_has d k'.
Proof. intros H. unfold dict_has. now rewrite dict_get_set_ne. Qed.

(** Rewrites lookups that follow an update of a key given as a literal. *)
Ltac dict_simpl :=
  repeat first
    [ rewrite dict_get_set_eq | rewrite get_or_none_set_eq | rewrite dict_has_set_eq
    | rewrite dict_get_set_ne by discriminate
    | rewrite get_or_none_set_ne by discriminate
    | rewrite dict_has_set_ne by discriminate ].

(** *** Comprehensions that may raise *)

Lemma rmap_raises {A B} (f : A -> result B) xs x :
  In x xs -> raises (f x) -> raises (rmap f xs).
Proof.
  induction xs as [|y xs IH]; intros Hin [e He]; [destruct Hin|].
  simpl. destruct Hin as [->|Hin].
  - rewrite He. now exists e.
  - destruct (f y); [|eexists; reflexivity]. simpl.
    destruct (IH Hin (ex_intro _ e He)) as [e' ->]. now exists e'.
Qed.

Lemma rmap_second {A} (has : A -> bool) (f : A -> result A) :
  (forall x x', f x = Ok x' -> if has x then raises (f x') else f x' = Ok x') ->
  forall xs xs', rmap f xs = Ok xs' ->
    if existsb has xs then raises (rmap f xs') else rmap f xs' = Ok xs'.
Proof.
  intros Hf. induction xs as [|x xs IH]; intros xs' H; simpl in H.
  - injection H as <-. reflexivity.
  - destruct (f x) as [x'|] eqn:Ex; [|discriminate]. simpl in H.
    destruct (rmap f xs) as [r'|] eqn:Er; [|discriminate]. injection H as <-.
    specialize (Hf _ _ Ex). specialize (IH _ eq_refl). simpl.
    destruct (has x); simpl.
    + destruct Hf as [e ->]. now exists e.
    + rewrite Hf. simpl. destruct (existsb has xs).
      * destruct IH as [e ->]. now exists e.
      * now rewrite IH.
Qed.

(** *** Strings *)

Lemma append_assoc (a b c : string) : (a +:+ b) +:+ c = a +:+ (b +:+ c).
Proof. induction a as [|x a IH]; simpl; [reflexivity|now rewrite IH]. Qed.

Lemma append_nil_r (a : string) : a +:+ "" = a.
Proof. induction a as [|x a IH]; simpl; [reflexivity|now rewrite IH]. Qed.

Lemma length_append (a b : string) :
  String.length (a +:+ b) = (String.length a + String.length b)%nat.
Proof. induction a as [|x a IH]; simpl; [reflexivity|now rewrite IH]. Qed.

Lemma prefix_nil s : String.prefix "" s = true.
Proof. now destruct s. Qed.

Lemma prefix_nil_r a s : String.prefix (String a s) "" = false.
Proof. reflexivity. Qed.

Lemma prefix_cons a b s1 s2 :
  String.prefix (String a s1) (String b s2) = Ascii.eqb a b && String.prefix s1 s2.
Proof.
  cbn [String.prefix]. destruct (ascii_dec a b) as [->|Hne].
  - now rewrite Ascii.eqb_refl.
  - apply Ascii.eqb_neq in Hne. now rewrite Hne.
Qed.

#[local] Arguments String.prefix : simpl never.

(** Computes [String.prefix] on text whose head is known. *)
Ltac prefix_simpl :=
  repeat first [rewrite prefix_cons | rewrite prefix_nil | rewrite prefix_nil_r];
  cbn [Ascii.eqb Bool.eqb andb orb negb].

Ltac prefix_simpl_in H :=
  repeat first [rewrite prefix_cons in H | rewrite prefix_nil in H | rewrite prefix_nil_r in H];
  cbn [Ascii.eqb Bool.eqb andb orb negb] in H.

(** *** merge_named_list *)

(** An output entry at a base position: the base entry itself, or the base
    entry with patches of the override map merged in, each patch keyed by
    the name the base entry carries. *)
Inductive patched_by (ov : dict) (b : value) : value -> Prop :=
| patched_none : patched_by ov b b
| patched_merge p d n patch :
    patched_by ov b p ->
    b = VDict d -> dict_get d "name" = Some (VStr n) -> In (n, patch) ov ->
    patched_by ov b (deep_merge p patch).

(** An entry that survives the final filter. *)
Definition enabled (x : value) : bool :=
  match disabled x with Ok false => true | _ => false end.

(** Inputs on which [merge_named_list] cannot raise: lists of dicts whose
    names can be hashed, and an override map whose patches are dicts. *)
Definition entry_ok (x : value) : bool :=
  match x with
  | VDict d => hashable (get_or_none d "name")
  | _ => false
  end.

Definition entries_ok (v : value) : bool :=
  match v with
  | VNull => true
  | VList xs => forallb entry_ok xs
  | _ => false
  end.

Definition patches_ok (v : value) : bool :=
  match v with
  | VNull => true
  | VDict ov => forallb (fun np => is_dict (snd np)) ov
  | _ => false
  end.

Lemma build_idx_sound items : forall i0 idx0 idx n i,
  build_idx items i0 idx0 = Ok idx ->
  idx_get idx n = Some i ->
  idx_get idx0 n = Some i \/
  exists d, (i0 <= i)%nat /\ items !! (i - i0)%nat = Some (VDict d)
            /\ dict_get d "name" = Some (VStr n).
Proof.
  induction items as [|item rest IH]; intros i0 idx0 idx n i Hb Hg; simpl in Hb.
  - injection Hb as <-. now left.
  - assert (Hrest : forall idx1, build_idx rest (S i0) idx1 = Ok idx ->
              idx_get idx1 n = Some i \/
              exists d, (i0 <= i)%nat /\ (item :: rest) !! (i - i0)%nat = Some (VDict d)
                        /\ dict_get d "name" = Some (VStr n)).
    { intros idx1 H1. destruct (IH _ _ _ _ _ H1 Hg) as [Hl|(d & Hle & Hlk & Hn)]; [now left|].
      right. exists d. split; [lia|]. split; [|exact Hn].
      replace (i - i0)%nat with (S (i - S i0)) by lia. exact Hlk. }
    destruct item as [| | | | |d]; try (now apply Hrest).
    destruct (dict_get d "name") as [v|] eqn:En; [|now apply Hrest].
    destruct v as [| | |m| |]; simpl in Hb; try (now apply Hrest); try discriminate.
    destruct (Hrest _ Hb) as [Hl|Hr]; [|now right].
    simpl in Hl. destruct (String.eqb n m) eqn:E; [|now left].
    apply String.eqb_eq in E. subst m. injection Hl as <-.
    right. exists d. split; [lia|]. rewrite Nat.sub_diag. now split.
Qed.

Lemma fold_patch_patched idx (base : list value) ovd :
  (forall n i, idx_get idx n = Some i ->
     exists d, base !! i = Some (VDict d) /\ dict_get d "name" = Some (VStr n)) ->
  forall l cur, (forall x, In x l -> In x ovd) ->
    Forall2 (patched_by ovd) base cur ->
    Forall2 (patched_by ovd) base (fold_left (apply_patch idx) l cur).
Proof.
  intros Hidx. induction l as [|[n patch] l IH]; intros cur Hsub HF; simpl; [exact HF|].
  apply IH; [intros x Hx; apply Hsub; now right|].
  unfold apply_patch; simpl.
  destruct (idx_get idx n) as [i|] eqn:Ei; [|exact HF].
  destruct (cur !! i) as [x|] eqn:Ex; [|exact HF].
  destruct (Hidx _ _ Ei) as (d & Hb & Hn).
  rewrite <- (list_insert_id base i (VDict d)) by exact Hb.
  apply Forall2_insert; [exact HF|].
  eapply patched_merge; [|reflexivity|exact Hn|apply Hsub; now left].
  eapply Forall2_lookup_lr in HF; eauto.
Qed.

Lemma drop_disabled_filter out : forall r,
  drop_disabled out = Ok r ->
  r = List.filter enabled out /\ Forall (fun x => disabled x = Ok false) r.
Proof.
  induction out as [|x out IH]; intros r H; simpl in H.
  - injection H as <-. split; [reflexivity|constructor].
  - destruct (disabled x) as [dis|] eqn:Ed; simpl in H; [|discriminate].
    destruct (drop_disabled out) as [r'|] eqn:Er; simpl in H; [|discriminate].
    injection H as <-. destruct (IH _ eq_refl) as [-> HF].
    assert (Hen : enabled x = negb dis)
      by (unfold enabled; rewrite Ed; now destruct dis).
    cbn [List.filter]. rewrite Hen.
    destruct dis; cbn [negb]; (split; [reflexivity|]); [exact HF|].
    constructor; [exact Ed|exact HF].
Qed.

Lemma drop_disabled_total out :
  forallb is_dict out = true -> is_ok (drop_disabled out) = true.
Proof.
  induction out as [|x out IH]; simpl; [reflexivity|].
  intros H. apply andb_true_iff in H as [Hx Hout].
  destruct x; try discriminate. simpl.
  specialize (IH Hout). destruct (drop_disabled out); [reflexivity|discriminate].
Qed.

Lemma build_idx_total items : forall i0 idx0,
  forallb entry_ok items = true -> is_ok (build_idx items i0 idx0) = true.
Proof.
  induction items as [|x items IH]; intros i0 idx0 H; simpl; [reflexivity|].
  simpl in H. apply andb_true_iff in H as [Hx Hit].
  destruct x as [| | | | |d]; try discriminate. simpl in Hx. unfold get_or_none in Hx.
  destruct (dict_get d "name") as [v|]; [|now apply IH].
  destruct v; try discriminate; now apply IH.
Qed.

Lemma deep_merge_is_dict x p :
  is_dict x = true -> is_dict p = true -> is_dict (deep_merge x p) = true.
Proof. destruct x, p; try discriminate; reflexivity. Qed.

Lemma fold_patch_dicts idx l : forall cur,
  forallb (fun np => is_dict (snd np)) l = true ->
  forallb is_dict cur = true ->
  forallb is_dict (fold_left (apply_patch idx) l cur) = true.
Proof.
  induction l as [|[n patch] l IH]; intros cur Hl Hc; simpl; [exact Hc|].
  simpl in Hl. apply andb_true_iff in Hl as [Hp Hl].
  apply IH; [exact Hl|]. unfold apply_patch; simpl.
  destruct (idx_get idx n) as [i|]; [|exact Hc].
  destruct (cur !! i) as [x|] eqn:Ex; [|exact Hc].
  rewrite forallb_forall in Hc |- *. intros y Hy.
  apply list_elem_of_In in Hy. apply list_elem_of_lookup in Hy as [j Hj].
  destruct (decide (i = j)) as [->|Hne].
  - rewrite list_lookup_insert_eq in Hj by (eapply lookup_lt_Some; eauto).
    injection Hj as <-. apply deep_merge_is_dict; [|exact Hp].
    apply Hc. apply list_elem_of_In. eapply list_elem_of_lookup_2; eauto.
  - rewrite list_lookup_insert_ne in Hj by exact Hne.
    apply Hc. apply list_elem_of_In. eapply list_elem_of_lookup_2; eauto.
Qed.

Lemma entry_ok_is_dict xs : forallb entry_ok xs = true -> forallb is_dict xs = true.
Proof.
  induction xs as [|x xs IH]; simpl; [reflexivity|].
  intros H. apply andb_true_iff in H as [Hx Hxs]. rewrite IH by exact Hxs.
  now destruct x.
Qed.

Lemma items_or_empty_entries v :
  entries_ok v = true ->
  exists xs, items_or_empty v = Ok xs /\ forallb entry_ok xs = true.
Proof.
  destruct v as [| | | |xs|]; try discriminate; simpl.
  - intros _. now exists [].
  - intros H. unfold items_or_empty. destruct xs; simpl; [now exists []|]. eauto.
Qed.

Lemma overrides_or_empty_patches v :
  patches_ok v = true ->
  exists ov, overrides_or_empty v = Ok ov /\ forallb (fun np => is_dict (snd np)) ov = true.
Proof.
  destruct v as [| | | | |ov]; try discriminate; simpl.
  - intros _. now exists [].
  - intros H. unfold overrides_or_empty. destruct ov; simpl; [now exists []|]. eauto.
Qed.

(** C9 (amended). Whenever [merge_named_list] returns, its output is the
    list of base entries in their original order, each either untouched or
    patched in place by name-matched entries of the override map, followed
    by the add-list entries in their given order, with every entry that
    carries a truthy [disabled] flag removed from both parts; no entry of
    the output carries a truthy [disabled] flag.  It returns on every
    input made of dict entries and dict patches. *)
Theorem merge_named_list_order (base_list override_map add_list : value) :
  (forall out, merge_named_list base_list override_map add_list = Ok out ->
     exists bs ov adds patched,
       items_or_empty base_list = Ok bs /\
       overrides_or_empty override_map = Ok ov /\
       items_or_empty add_list = Ok adds /\
       Forall2 (patched_by ov) bs patched /\
       out = List.filter enabled patched ++ List.filter enabled adds /\
       Forall (fun x => disabled x = Ok false) out) /\
  (entries_ok base_list = true -> patches_ok override_map = true ->
   entries_ok add_list = true ->
   is_ok (merge_named_list base_list override_map add_list) = true).
Proof.
  split.
  - intros out H. unfold merge_named_list in H.
    destruct (items_or_empty base_list) as [bs|] eqn:Eb; simpl in H; [|discriminate].
    destruct (build_idx bs 0 []) as [idx|] eqn:Ei; simpl in H; [|discriminate].
    destruct (overrides_or_empty override_map) as [ov|] eqn:Eo; simpl in H; [|discriminate].
    destruct (items_or_empty add_list) as [adds|] eqn:Ea; simpl in H; [|discriminate].
    apply drop_disabled_filter in H as [Hout HF].
    exists bs, ov, adds, (fold_left (apply_patch idx) ov bs).
    repeat split; try reflexivity; [| |exact HF].
    + apply fold_patch_patched; [|auto|].
      * intros n i Hg. destruct (build_idx_sound _ _ _ _ _ _ Ei Hg) as [Hl|(d & _ & Hlk & Hn)];
          [discriminate|]. rewrite Nat.sub_0_r in Hlk. eauto.
      * apply Forall2_same_length_lookup_2; [reflexivity|].
        intros i x y Hx Hy. rewrite Hx in Hy. injection Hy as <-. constructor.
    + rewrite Hout. apply List.filter_app.
  - intros Hb Ho Ha. unfold merge_named_list.
    destruct (items_or_empty_entries _ Hb) as (bs & -> & Hbs).
    destruct (items_or_empty_entries _ Ha) as (adds & Eadds & Hadds). simpl.
    pose proof (build_idx_total bs 0 [] Hbs) as Hi.
    destruct (build_idx bs 0 []) as [idx|]; [|discriminate]. simpl.
    destruct (overrides_or_empty_patches _ Ho) as (ov & -> & Hov). simpl.
    rewrite Eadds. simpl. apply drop_disabled_total.
    rewrite forallb_app. apply andb_true_iff. split.
    + apply fold_patch_dicts; [exact Hov|now apply entry_ok_is_dict].
    + now apply entry_ok_is_dict.
Qed.

(** *** resolve_vars *)

(** A [${NAME}] token as text, and the names [_VAR_RE] accepts. *)
Definition token (name : string) : string := "${" +:+ name +:+ "}".

Fixpoint all_var_chars (s : string) : bool :=
  match s with
  | EmptyString => true
  | String c r => is_var_char c && all_var_chars r
  end.

Definition var_name (name : string) : Prop :=
  name <> "" /\ all_var_chars name = true.

(** The text contains a [${NAME}] token somewhere. *)
Definition has_token (s : string) : Prop :=
  exists pre name post, s = pre +:+ token name +:+ post /\ var_name name.

(** No string value inside [v] contains a token. *)
Fixpoint token_free (v : value) : Prop :=
  match v with
  | VStr s => ~ has_token s
  | VList xs =>
      (fix all (l : list value) : Prop :=
         match l with
         | [] => True
         | x :: l' => token_free x /\ all l'
         end) xs
  | VDict kvs =>
      (fix all (l : list (string * value)) : Prop :=
         match l with
         | [] => True
         | kv :: l' => token_free (snd kv) /\ all l'
         end) kvs
  | _ => True
  end.

(** What [repl] puts in the place of [${key}]. *)
Definition substitute (vars_map : dict) (key : string) : string :=
  match dict_get vars_map key, environ key with
  | Some v, _ => py_str v
  | None, Some e => e
  | None, None => token key
  end.

Lemma repl_substitute vars_map key : repl vars_map key = substitute vars_map key.
Proof.
  unfold repl, substitute, token.
  destruct (dict_get vars_map key); [reflexivity|].
  now destruct (environ key).
Qed.

Lemma span_var_split s :
  s = fst (span_var s) +:+ snd (span_var s) /\ all_var_chars (fst (span_var s)) = true.
Proof.
  induction s as [|c r [IH1 IH2]]; simpl; [now split|].
  destruct (is_var_char c) eqn:Ec; simpl; [|now split].
  destruct (span_var r) as [n rest]; simpl in *. rewrite Ec. split; [now f_equal|exact IH2].
Qed.

(** The run of name characters does not look past a character that is not
    one, so text appended after such a character changes nothing. *)
Lemma span_var_app s t :
  match t with EmptyString => True | String c _ => is_var_char c = false end ->
  span_var (s +:+ t) = (fst (span_var s), snd (span_var s) +:+ t).
Proof.
  intros Ht. induction s as [|c r IH]; simpl.
  - destruct t as [|c t]; [reflexivity|]. simpl. now rewrite Ht.
  - destruct (is_var_char c); [|reflexivity].
    rewrite IH. now destruct (span_var r).
Qed.

Lemma span_var_name name post :
  all_var_chars name = true ->
  span_var (name +:+ String "}" post) = (name, String "}" post).
Proof.
  intros H. induction name as [|c n IH]; simpl in *; [reflexivity|].
  apply andb_true_iff in H as [-> Hn]. now rewrite IH.
Qed.

Lemma match_token_token name post :
  var_name name -> match_token (token name +:+ post) = Some (name, post).
Proof.
  intros [Hne Hall]. unfold token. simpl. rewrite append_assoc. simpl.
  rewrite span_var_name by exact Hall.
  destruct name; [congruence|reflexivity].
Qed.

Lemma match_token_sound s name rest :
  match_token s = Some (name, rest) -> s = token name +:+ rest /\ var_name name.
Proof.
  unfold match_token. destruct s as [|c1 [|c2 r]]; try discriminate.
  - destruct c1 as [[] [] [] [] [] [] [] []]; discriminate.
  - intros H.
    assert (c1 = "$"%char /\ c2 = "{"%char /\
            match span_var r with
            | (String c n, String "}" rest0) => Some (String c n, rest0)
            | _ => None
            end = Some (name, rest)) as (-> & -> & H').
    { destruct c1 as [[] [] [] [] [] [] [] []]; try discriminate;
      destruct c2 as [[] [] [] [] [] [] [] []]; try discriminate. auto. }
    clear H. destruct (span_var_split r) as [Hr Hall].
    destruct (span_var r) as [n rest0]; simpl in *.
    destruct n as [|c n]; [discriminate|].
    destruct rest0 as [|c0 rest0]; [discriminate|].
    assert (c0 = "}"%char /\ String c n = name /\ rest0 = rest) as (-> & <- & <-).
    { destruct c0 as [[] [] [] [] [] [] [] []]; try discriminate.
      injection H' as <- <-. auto. }
    split; [|split; [discriminate|exact Hall]].
    unfold token. simpl. rewrite append_assoc. simpl. now rewrite Hr at 1.
Qed.

Lemma match_token_shorter s name rest :
  match_token s = Some (name, rest) -> (String.length rest < String.length s)%nat.
Proof.
  intros H. apply match_token_sound in H as [-> _].
  unfold token. simpl. rewrite !length_append. simpl. lia.
Qed.

(** The fuel of [sub_vars] is enough: more fuel gives the same text. *)
Lemma sub_vars_fuel_enough vars_map : forall n m s,
  (String.length s <= n)%nat -> (String.length s <= m)%nat ->
  sub_vars_fuel n vars_map s = sub_vars_fuel m vars_map s.
Proof.
  induction n as [|n IH]; intros m s Hn Hm.
  - destruct s; [|simpl in Hn; lia]. now destruct m.
  - destruct m as [|m]; [destruct s; [reflexivity|simpl in Hm; lia]|].
    destruct s as [|c r]; [reflexivity|].
    cbn [sub_vars_fuel]. destruct (match_token (String c r)) as [[name rest]|] eqn:Em.
    + apply match_token_shorter in Em. simpl in *.
      f_equal. apply IH; lia.
    + simpl in *. f_equal. apply IH; lia.
Qed.

(** The equations of [_VAR_RE.sub]: at a match the replacement is emitted
    and the scan goes on after the token; elsewhere one character is copied. *)
Lemma sub_vars_nil vars_map : sub_vars vars_map "" = "".
Proof. reflexivity. Qed.

Lemma sub_vars_match vars_map s name rest :
  match_token s = Some (name, rest) ->
  sub_vars vars_map s = repl vars_map name +:+ sub_vars vars_map rest.
Proof.
  intros Em. pose proof (match_token_shorter _ _ _ Em) as Hlt.
  unfold sub_vars. destruct s as [|c r]; [discriminate|].
  cbn [String.length sub_vars_fuel]. rewrite Em. f_equal.
  apply sub_vars_fuel_enough; simpl in *; lia.
Qed.

Lemma sub_vars_copy vars_map c r :
  match_token (String c r) = None ->
  sub_vars vars_map (String c r) = String c (sub_vars vars_map r).
Proof.
  intros Em. unfold sub_vars. cbn [String.length sub_vars_fuel]. now rewrite Em.
Qed.

Lemma has_token_cons c s : has_token s -> has_token (String c s).
Proof.
  intros (pre & name & post & -> & Hn). now exists (String c pre), name, post.
Qed.

Lemma match_token_has_token s name rest :
  match_token s = Some (name, rest) -> has_token s.
Proof.
  intros H. apply match_token_sound in H as [-> Hn]. now exists "", name, rest.
Qed.

(** A match that starts before a token ends before it. *)
Lemma match_token_before c p t name rest :
  match_token (String c p +:+ String "$" t) = Some (name, rest) ->
  has_token (String c p).
Proof.
  intros H.
  destruct p as [|c2 p2].
  - simpl in H. destruct c as [[] [] [] [] [] [] [] []]; discriminate.
  - assert (c = "$"%char /\ c2 = "{"%char) as [-> ->].
    { simpl in H. destruct c as [[] [] [] [] [] [] [] []]; try discriminate;
      destruct c2 as [[] [] [] [] [] [] [] []]; try discriminate. auto. }
    simpl in H. rewrite span_var_app in H by reflexivity.
    destruct (span_var_split p2) as [Hp Hall].
    destruct (span_var p2) as [n r0]; simpl in *.
    destruct n as [|cn n]; [discriminate|].
    destruct r0 as [|c0 r0].
    + simpl in H. discriminate.
    + simpl in H.
      assert (c0 = "}"%char) as ->
        by (destruct c0 as [[] [] [] [] [] [] [] []]; try discriminate; reflexivity).
      exists "", (String cn n), r0. split; [|split; [discriminate|exact Hall]].
      unfold token. simpl. rewrite append_assoc. simpl. now rewrite Hp at 1.
Qed.

Lemma sub_vars_no_token vars_map s : ~ has_token s -> sub_vars vars_map s = s.
Proof.
  induction s as [|c r IH]; intros Hn; [reflexivity|].
  rewrite sub_vars_copy.
  - f_equal. apply IH. intros H. apply Hn. now apply has_token_cons.
  - destruct (match_token (String c r)) as [[name rest]|] eqn:Em; [|reflexivity].
    exfalso. apply Hn. eapply match_token_has_token; eauto.
Qed.

Lemma sub_vars_token vars_map pre name post :
  ~ has_token pre -> var_name name ->
  sub_vars vars_map (pre +:+ token name +:+ post)
  = pre +:+ substitute vars_map name +:+ sub_vars vars_map post.
Proof.
  intros Hpre Hname. induction pre as [|c p IH].
  - simpl. rewrite (sub_vars_match _ _ name post) by now apply match_token_token.
    now rewrite repl_substitute.
  - cbn [String.append]. rewrite sub_vars_copy.
    + f_equal. apply IH. intros H. apply Hpre. now apply has_token_cons.
    + destruct (match_token (String c (p +:+ token name +:+ post))) as [[n r]|] eqn:Em;
        [|reflexivity].
      exfalso. apply Hpre. eapply (match_token_before c p _ n r).
      unfold token in Em. simpl in Em. simpl. exact Em.
Qed.

Lemma resolve_vars_token_free vars_map v :
  token_free v -> resolve_vars v vars_map = v.
Proof.
  induction v as [| | |s|xs IH|kvs IH] using value_ind_nested; try reflexivity.
  - simpl. intros H. f_equal. now apply sub_vars_no_token.
  - simpl. intros H. f_equal.
    induction xs as [|x xs IHxs]; [reflexivity|].
    destruct H as [Hx Hxs]. apply List.Forall_cons_iff in IH as [IHx IHrest].
    simpl. rewrite IHx by exact Hx. f_equal. now apply IHxs.
  - simpl. intros H. f_equal.
    induction kvs as [|[k x] kvs IHkvs]; [reflexivity|].
    destruct H as [Hx Hkvs]. apply List.Forall_cons_iff in IH as [IHx IHrest].
    simpl in *. rewrite IHx by exact Hx. f_equal. now apply IHkvs.
Qed.

(** C6. [resolve_vars] replaces a [${NAME}] token in a string by the value
    the vars map gives [NAME], else by the value of the environment, else
    by the token itself, and goes on after the token; it reaches the items
    of lists and the values of dicts; and a value none of whose strings
    contains a token comes back unchanged.  (It is a total function: no
    input makes it raise.) *)
Theorem resolve_vars_spec (vars_map : dict) :
  (forall pre name post, ~ has_token pre -> var_name name ->
     resolve_vars (VStr (pre +:+ token name +:+ post)) vars_map =
     VStr (pre +:+
           match dict_get vars_map name, environ name with
           | Some v, _ => py_str v
           | None, Some e => e
           | None, None => token name
           end +:+ sub_vars vars_map post)) /\
  (forall xs, resolve_vars (VList xs) vars_map =
              VList (map (fun x => resolve_vars x vars_map) xs)) /\
  (forall kvs, resolve_vars (VDict kvs) vars_map =
               VDict (map (fun kv => (fst kv, resolve_vars (snd kv) vars_map)) kvs)) /\
  (forall v, token_free v -> resolve_vars v vars_map = v).
Proof.
  split; [|split; [reflexivity|split; [reflexivity|]]].
  - intros pre name post Hpre Hname. cbn [resolve_vars].
    now rewrite sub_vars_token by assumption.
  - intros v. apply resolve_vars_token_free.
Qed.

(** *** _expand_project_paths *)

(** A cwd as [expand_cwd] looks at it: backslashes turned into slashes,
    leading [./] removed. *)
Definition normalized (cwd : string) : string :=
  strip_dot_slash (replace_backslash cwd).

(** The cwd is the directory [backend] or [frontend], or lies under it. *)
Definition rooted (c : string) : bool :=
  String.eqb c "backend" || String.prefix "backend/" c ||
  String.eqb c "frontend" || String.prefix "frontend/" c.

(** The values of a [cwd] key that [expand_cwd] accepts. *)
Definition cwd_ok (v : value) : bool :=
  match v with
  | VStr s => rooted (normalized s)
  | _ => false
  end.

Definition entry_has_cwd (e : value) : bool :=
  match e with VDict d => dict_has d "cwd" | _ => false end.

Definition list_has_cwd (v : value) : bool :=
  match v with VList xs => existsb entry_has_cwd xs | _ => false end.

(** Some service or test of the config carries a [cwd] key. *)
Definition config_has_cwd (merged : value) : bool :=
  match merged with
  | VDict m => list_has_cwd (get_or_none m "services") || list_has_cwd (get_or_none m "tests")
  | _ => false
  end.

Lemma prefix_app_slash q : forall c,
  String.prefix (q +:+ "/") (c +:+ "/") = true ->
  c = q \/ String.prefix (q +:+ "/") c = true.
Proof.
  induction q as [|x q IH]; intros c H.
  - destruct c as [|a c]; [now left|]. right. simpl in *.
    rewrite prefix_cons, prefix_nil in *. exact H.
  - destruct c as [|a c]; simpl in H.
    + rewrite prefix_cons in H. apply andb_true_iff in H as [_ H].
      destruct q; simpl in H; now rewrite prefix_nil_r in H.
    + simpl. rewrite prefix_cons in *. apply andb_true_iff in H as [Hx H].
      apply Ascii.eqb_eq in Hx. subst a. rewrite Ascii.eqb_refl.
      destruct (IH _ H) as [->|Hp]; [now left|now right].
Qed.

Lemma is_safe_relpath_rooted c :
  is_safe_relpath (c +:+ (if ends_with_slash c then "" else "/")) = true ->
  rooted c = true.
Proof.
  unfold is_safe_relpath, rooted.
  destruct (_ || _ || String.prefix "content/" _); [discriminate|].
  intros H. apply orb_true_iff in H.
  destruct (ends_with_slash c).
  - rewrite append_nil_r in H. destruct H as [-> | ->]; now rewrite ?orb_true_r.
  - destruct H as [H|H].
    + apply (prefix_app_slash "backend") in H as [-> | H]; [reflexivity|].
      simpl in H. rewrite H. now rewrite ?orb_true_r.
    + apply (prefix_app_slash "frontend") in H as [-> | H]; [reflexivity|].
      simpl in H. rewrite H. now rewrite ?orb_true_r.
Qed.

(** [expand_cwd] on a string: the path under the project when the
    normalized cwd is rooted, the [ValueError] otherwise. *)
Lemma expand_cwd_str slug s :
  expand_cwd slug (VStr s) =
  if rooted (normalized s) then Ok (project_path slug (normalized s))
  else Err (ValueError ("Illegal test/service cwd: " +:+ normalized s)).
Proof.
  unfold expand_cwd, normalized. cbn [truthy].
  assert (Hc0 : (if negb (String.eqb s "") then Ok s else Ok EmptyString) = Ok s).
  { destruct (String.eqb_spec s ""); [now subst|reflexivity]. }
  rewrite Hc0. cbn [rbind]. set (c := strip_dot_slash (replace_backslash s)).
  unfold rooted.
  destruct (String.eqb c "backend") eqn:E1, (String.prefix "backend/" c) eqn:E2,
           (String.eqb c "frontend") eqn:E3, (String.prefix "frontend/" c) eqn:E4;
    cbn [orb]; try reflexivity.
  destruct (is_safe_relpath _) eqn:Es; [|reflexivity].
  apply is_safe_relpath_rooted in Es. unfold rooted in Es. fold c in Es.
  rewrite E1, E2, E3, E4 in Es. discriminate.
Qed.

Lemma expand_cwd_rejects slug v : cwd_ok v = false -> raises (expand_cwd slug v).
Proof.
  intros H. destruct v as [|b|n|s|xs|kvs].
  - rewrite <- (expand_cwd_str slug "") at 1. rewrite expand_cwd_str. eexists; reflexivity.
  - destruct b; [eexists; reflexivity|]. eexists; reflexivity.
  - unfold expand_cwd. cbn [truthy]. destruct (negb (n =? 0)%Z); eexists; reflexivity.
  - rewrite expand_cwd_str. simpl in H. rewrite H. eexists; reflexivity.
  - destruct xs; eexists; reflexivity.
  - destruct kvs; eexists; reflexivity.
Qed.

Lemma expand_cwd_accepts slug v p :
  expand_cwd slug v = Ok p ->
  exists s, rooted (normalized s) = true /\ p = project_path slug (normalized s).
Proof.
  intros H. destruct (cwd_ok v) eqn:E.
  - destruct v; try discriminate. rewrite expand_cwd_str in H. simpl in E.
    rewrite E in H. injection H as <-. eauto.
  - destruct (expand_cwd_rejects slug v E) as [e He]. congruence.
Qed.

Lemma replace_backslash_app a b :
  replace_backslash (a +:+ b) = replace_backslash a +:+ replace_backslash b.
Proof. induction a as [|c a IH]; simpl; [reflexivity|now rewrite IH]. Qed.

(** An expanded path starts with [content/], which [expand_cwd] refuses. *)
Lemma expand_cwd_expanded slug slug' c :
  raises (expand_cwd slug' (VStr (project_path slug c))).
Proof.
  rewrite expand_cwd_str. unfold normalized, project_path.
  rewrite replace_backslash_app. simpl. unfold rooted. prefix_simpl.
  eexists; reflexivity.
Qed.

(** **** One entry *)

Lemma expand_entry_cwd_second slug e e' :
  expand_entry_cwd slug e = Ok e' ->
  if entry_has_cwd e then raises (expand_entry_cwd slug e')
  else expand_entry_cwd slug e' = Ok e'.
Proof.
  unfold expand_entry_cwd. destruct e as [| | |s|xs|d]; try discriminate; simpl.
  - destruct (is_substring "cwd" s) eqn:E; [discriminate|].
    intros [= <-]. simpl. now rewrite E.
  - destruct (existsb (eq_str "cwd") xs) eqn:E; [discriminate|].
    intros [= <-]. simpl. now rewrite E.
  - destruct (dict_has d "cwd") eqn:E.
    + destruct (expand_cwd slug (get_or_none d "cwd")) as [c|] eqn:Ec; [|discriminate].
      simpl. intros [= <-]. simpl. dict_simpl.
      apply expand_cwd_accepts in Ec as (s & _ & ->).
      destruct (expand_cwd_expanded slug slug (normalized s)) as [e ->].
      now exists e.
    + intros [= <-]. simpl. now rewrite E.
Qed.

Lemma expand_entry_cwd_shape slug e e' :
  expand_entry_cwd slug e = Ok e' ->
  match e' with
  | VDict d' =>
      exists d, e = VDict d /\ dict_has d' "cwd" = dict_has d "cwd" /\
        (forall k, k <> "cwd" -> dict_get d' k = dict_get d k) /\
        (dict_has d "cwd" = true ->
         exists c, get_or_none d' "cwd" = VStr (project_path slug c))
  | _ => e = e'
  end.
Proof.
  unfold expand_entry_cwd. destruct e as [| | |s|xs|d]; try discriminate; simpl.
  - destruct (is_substring "cwd" s); [discriminate|]. now intros [= <-].
  - destruct (existsb (eq_str "cwd") xs); [discriminate|]. now intros [= <-].
  - destruct (dict_has d "cwd") eqn:E.
    + destruct (expand_cwd slug (get_or_none d "cwd")) as [c|] eqn:Ec; [|discriminate].
      simpl. intros [= <-]. exists d. dict_simpl.
      split; [reflexivity|]. split; [now rewrite E|]. split.
      * intros k Hk. now rewrite dict_get_set_ne by congruence.
      * intros _. apply expand_cwd_accepts in Ec as (s & _ & ->). eauto.
    + intros [= <-]. exists d.
      split; [reflexivity|]. split; [reflexivity|]. split; [reflexivity|].
      intros H. congruence.
Qed.

(** **** The rewriting of [junit_xml], [install] and [cmd] *)

Definition junit_done (ty jx : value) : bool :=
  if eq_str "junit" ty && truthy jx then
    match jx with
    | VStr j0 => String.prefix "content/" (replace_backslash j0)
    | _ => false
    end
  else true.

Definition install_done (oi : option value) : Prop :=
  match oi with
  | Some (VList cmds) => rmap str_list cmds = Ok cmds
  | _ => True
  end.

Definition cmd_done (oc : option value) : Prop :=
  match oc with
  | Some c => str_list c = Ok c
  | None => True
  end.

Lemma expand_junit_done slug d :
  junit_done (get_or_none d "type") (get_or_none d "junit_xml") = true ->
  expand_junit slug d = Ok d.
Proof.
  unfold junit_done, expand_junit.
  destruct (eq_str "junit" _ && truthy _); [|reflexivity].
  destruct (get_or_none d "junit_xml"); try discriminate. now intros ->.
Qed.

Lemma expand_junit_result slug d d2 :
  expand_junit slug d = Ok d2 ->
  junit_done (get_or_none d2 "type") (get_or_none d2 "junit_xml") = true /\
  (forall k, k <> "junit_xml" -> dict_get d2 k = dict_get d k).
Proof.
  unfold expand_junit, junit_done.
  destruct (eq_str "junit" (get_or_none d "type") && truthy (get_or_none d "junit_xml")) eqn:E.
  - destruct (get_or_none d "junit_xml") as [| | |j0| |] eqn:Ej; try discriminate.
    destruct (String.prefix "content/" (replace_backslash j0)) eqn:Ep.
    + intros [= <-]. rewrite Ej, E, Ep. now split.
    + intros [= <-]. split.
      * dict_simpl. apply andb_true_iff in E as [-> _]. simpl.
        unfold project_path. rewrite replace_backslash_app. simpl. now prefix_simpl.
      * intros k Hk. now rewrite dict_get_set_ne by congruence.
  - intros [= <-]. rewrite E. now split.
Qed.

Lemma str_list_idem c c' : str_list c = Ok c' -> str_list c' = Ok c'.
Proof.
  unfold str_list. destruct (py_iter c) as [xs|]; [|discriminate]. simpl.
  intros [= <-]. simpl. f_equal. f_equal. rewrite map_map. reflexivity.
Qed.

Lemma rmap_str_list_idem cmds : forall cmds',
  rmap str_list cmds = Ok cmds' -> rmap str_list cmds' = Ok cmds'.
Proof.
  induction cmds as [|c cmds IH]; intros cmds' H; simpl in H.
  - now injection H as <-.
  - destruct (str_list c) as [c'|] eqn:Ec; [|discriminate]. simpl in H.
    destruct (rmap str_list cmds) as [r|] eqn:Er; [|discriminate].
    injection H as <-. simpl. rewrite (str_list_idem _ _ Ec). simpl.
    now rewrite (IH _ eq_refl).
Qed.

Lemma expand_install_done d : install_done (dict_get d "install") -> expand_install d = Ok d.
Proof.
  unfold install_done, expand_install.
  destruct (dict_get d "install") as [[| | | |cmds|]|] eqn:E; try reflexivity.
  intros ->. simpl. now rewrite dict_set_same.
Qed.

Lemma expand_install_result d d3 :
  expand_install d = Ok d3 ->
  install_done (dict_get d3 "install") /\
  (forall k, k <> "install" -> dict_get d3 k = dict_get d k).
Proof.
  unfold expand_install, install_done.
  destruct (dict_get d "install") as [[| | | |cmds|]|] eqn:E;
    try (intros [= <-]; rewrite E; now split).
  destruct (rmap str_list cmds) as [cmds'|] eqn:Er; [|discriminate]. simpl.
  intros [= <-]. split.
  - dict_simpl. now apply rmap_str_list_idem in Er.
  - intros k Hk. now rewrite dict_get_set_ne by congruence.
Qed.

Lemma expand_cmd_done d : cmd_done (dict_get d "cmd") -> expand_cmd d = Ok d.
Proof.
  unfold cmd_done, expand_cmd. destruct (dict_get d "cmd") as [c|] eqn:E; [|reflexivity].
  intros ->. simpl. now rewrite dict_set_same.
Qed.

Lemma expand_cmd_result d d4 :
  expand_cmd d = Ok d4 ->
  cmd_done (dict_get d4 "cmd") /\
  (forall k, k <> "cmd" -> dict_get d4 k = dict_get d k).
Proof.
  unfold expand_cmd, cmd_done. destruct (dict_get d "cmd") as [c|] eqn:E.
  - destruct (str_list c) as [c'|] eqn:Ec; [|discriminate]. simpl.
    intros [= <-]. split.
    + dict_simpl. now apply str_list_idem in Ec.
    + intros k Hk. now rewrite dict_get_set_ne by congruence.
  - intros [= <-]. rewrite E. now split.
Qed.

Lemma expand_test_second slug t t' :
  expand_test slug t = Ok t' ->
  if entry_has_cwd t then raises (expand_test slug t')
  else expand_test slug t' = Ok t'.
Proof.
  unfold expand_test at 1.
  destruct (expand_entry_cwd slug t) as [t1|] eqn:E1; [|discriminate]. simpl.
  destruct t1 as [| | | | |d1]; try discriminate.
  destruct (expand_junit slug d1) as [d2|] eqn:E2; [|discriminate]. simpl.
  destruct (expand_install d2) as [d3|] eqn:E3; [|discriminate]. simpl.
  destruct (expand_cmd d3) as [d4|] eqn:E4; [|discriminate]. simpl.
  intros [= <-].
  apply expand_entry_cwd_shape in E1 as (d & -> & Hhas & Hframe1 & Hcwd).
  apply expand_junit_result in E2 as [Hj Hframe2].
  apply expand_install_result in E3 as [Hi Hframe3].
  apply expand_cmd_result in E4 as [Hc Hframe4].
  assert (Hget : forall k, k <> "junit_xml" -> k <> "install" -> k <> "cmd" ->
                   dict_get d4 k = dict_get d1 k).
  { intros k H1 H2 H3. now rewrite Hframe4, Hframe3, Hframe2. }
  simpl. unfold expand_test, expand_entry_cwd. simpl.
  assert (Hh4 : dict_has d4 "cwd" = dict_has d "cwd").
  { unfold dict_has in *. now rewrite Hget by discriminate. }
  rewrite Hh4. destruct (dict_has d "cwd") eqn:Eh.
  - destruct (Hcwd eq_refl) as [c Hc1].
    assert (Hc4 : get_or_none d4 "cwd" = VStr (project_path slug c)).
    { unfold get_or_none in *. now rewrite Hget by discriminate. }
    rewrite Hc4. destruct (expand_cwd_expanded slug slug c) as [e ->]. now exists e.
  - simpl.
    assert (Hj4 : junit_done (get_or_none d4 "type") (get_or_none d4 "junit_xml") = true).
    { unfold get_or_none in *.
      rewrite (Hframe4 "type"), (Hframe3 "type") by discriminate.
      now rewrite (Hframe4 "junit_xml"), (Hframe3 "junit_xml") by discriminate. }
    rewrite (expand_junit_done _ _ Hj4). simpl.
    assert (Hi4 : install_done (dict_get d4 "install")).
    { now rewrite (Hframe4 "install") by discriminate. }
    rewrite (expand_install_done _ Hi4). simpl.
    now rewrite (expand_cmd_done _ Hc).
Qed.

(** **** The loops and the whole config *)

Lemma for_each_second (has : value -> bool) (f : value -> result value) :
  (forall x x', f x = Ok x' -> if has x then raises (f x') else f x' = Ok x') ->
  forall v v', for_each f v = Ok v' ->
    if match v with VList xs => existsb has xs | _ => false end
    then raises (for_each f v') else for_each f v' = Ok v'.
Proof.
  intros Hf v v' H.
  assert (Hother : (forall xs, v <> VList xs) -> for_each f v' = Ok v').
  { intros Hv. assert (v' = v) as ->; [|exact H].
    destruct v; simpl in H; try discriminate;
      try (destruct (rmap f _); simpl in H; [now injection H|discriminate]).
    now destruct (Hv xs). }
  destruct v as [| | | |xs|]; try (apply Hother; discriminate).
  simpl in H. destruct (rmap f xs) as [xs'|] eqn:Er; [|discriminate].
  injection H as <-. pose proof (rmap_second has f Hf _ _ Er) as H2. simpl.
  destruct (existsb has xs).
  - destruct H2 as [e ->]. now exists e.
  - now rewrite H2.
Qed.

Lemma expand_key_result key f m m' :
  expand_key key f m = Ok m' ->
  (forall k, k <> key -> dict_get m' k = dict_get m k) /\
  match dict_get m key with
  | None => m' = m
  | Some v => exists v', for_each f v = Ok v' /\ dict_get m' key = Some v'
  end.
Proof.
  unfold expand_key. destruct (dict_get m key) as [v|] eqn:E.
  - destruct (for_each f v) as [v'|]; [|discriminate]. simpl. intros [= <-]. split.
    + intros k Hk. now rewrite dict_get_set_ne by congruence.
    + exists v'. now rewrite dict_get_set_eq.
  - now intros [= <-].
Qed.

Lemma expand_key_done key f m :
  match dict_get m key with
  | Some v => for_each f v = Ok v
  | None => True
  end -> expand_key key f m = Ok m.
Proof.
  unfold expand_key. destruct (dict_get m key) as [v|] eqn:E; [|reflexivity].
  intros ->. simpl. now rewrite dict_set_same.
Qed.

Lemma expand_key_raises key f m v :
  dict_get m key = Some v -> raises (for_each f v) -> raises (expand_key key f m).
Proof. unfold expand_key. intros -> [e ->]. now exists e. Qed.

Lemma expand_entry_rejects slug d v :
  dict_get d "cwd" = Some v -> cwd_ok v = false ->
  raises (expand_entry_cwd slug (VDict d)).
Proof.
  intros Hd Hv. unfold expand_entry_cwd, py_contains, dict_has, get_or_none.
  rewrite Hd. simpl. destruct (expand_cwd_rejects slug v Hv) as [e ->]. now exists e.
Qed.

Lemma expand_test_rejects slug d v :
  dict_get d "cwd" = Some v -> cwd_ok v = false ->
  raises (expand_test slug (VDict d)).
Proof.
  intros Hd Hv. unfold expand_test.
  destruct (expand_entry_rejects slug d v Hd Hv) as [e ->]. now exists e.
Qed.

Lemma raises_bind {A B} (m : result A) (k : A -> result B) :
  raises m -> raises (rbind m k).
Proof. intros [e ->]. now exists e. Qed.

Lemma expand_rejects slug m key xs d v :
  key = "services" \/ key = "tests" ->
  dict_get m key = Some (VList xs) -> In (VDict d) xs ->
  dict_get d "cwd" = Some v -> cwd_ok v = false ->
  raises (_expand_project_paths (VDict m) slug).
Proof.
  intros Hkey Hm Hin Hd Hv. unfold _expand_project_paths.
  destruct Hkey as [-> | ->].
  - apply raises_bind. eapply expand_key_raises; [exact Hm|].
    simpl. apply raises_bind. eapply rmap_raises; [exact Hin|].
    eapply expand_entry_rejects; eauto.
  - destruct (expand_key "services" _ m) as [m1|] eqn:E1; [|eexists; reflexivity].
    simpl. apply raises_bind.
    apply expand_key_result in E1 as [Hframe _].
    eapply expand_key_raises; [rewrite Hframe by discriminate; exact Hm|].
    simpl. apply raises_bind. eapply rmap_raises; [exact Hin|].
    eapply expand_test_rejects; eauto.
Qed.

Lemma expand_second slug m out :
  _expand_project_paths (VDict m) slug = Ok out ->
  if config_has_cwd (VDict m) then raises (_expand_project_paths out slug)
  else _expand_project_paths out slug = Ok out.
Proof.
  unfold _expand_project_paths at 1.
  destruct (expand_key "services" _ m) as [m1|] eqn:E1; [|discriminate]. simpl.
  destruct (expand_key "tests" _ m1) as [m2|] eqn:E2; [|discriminate]. simpl.
  intros [= <-].
  apply expand_key_result in E1 as [Hf1 Hs]. apply expand_key_result in E2 as [Hf2 Ht].
  rewrite (Hf1 "tests") in Ht by discriminate.
  assert (Hs2 : dict_get m2 "services" = dict_get m1 "services")
    by (apply Hf2; discriminate).
  unfold config_has_cwd, get_or_none, _expand_project_paths.
  (* the services *)
  assert (Hsv : if list_has_cwd (match dict_get m "services" with Some v => v | None => VNull end)
                then raises (expand_key "services" (expand_entry_cwd slug) m2)
                else expand_key "services" (expand_entry_cwd slug) m2 = Ok m2).
  { destruct (dict_get m "services") as [v|] eqn:Ev.
    - destruct Hs as (v' & Hv' & Hg). rewrite Hg in Hs2.
      pose proof (for_each_second entry_has_cwd _ (expand_entry_cwd_second slug) _ _ Hv') as H2.
      unfold list_has_cwd. destruct (match v with VList xs => existsb entry_has_cwd xs | _ => false end).
      + eapply expand_key_raises; eauto.
      + apply expand_key_done. now rewrite Hs2.
    - subst m1. simpl. apply expand_key_done. now rewrite Hs2, Ev. }
  (* the tests *)
  assert (Htv : if list_has_cwd (match dict_get m "tests" with Some v => v | None => VNull end)
                then raises (expand_key "tests" (expand_test slug) m2)
                else expand_key "tests" (expand_test slug) m2 = Ok m2).
  { destruct (dict_get m "tests") as [v|] eqn:Ev.
    - destruct Ht as (v' & Hv' & Hg).
      pose proof (for_each_second entry_has_cwd _ (expand_test_second slug) _ _ Hv') as H2.
      unfold list_has_cwd. destruct (match v with VList xs => existsb entry_has_cwd xs | _ => false end).
      + eapply expand_key_raises; eauto.
      + apply expand_key_done. now rewrite Hg.
    - subst m2. simpl. apply expand_key_done.
      now rewrite (Hf1 "tests"), Ev by discriminate. }
  destruct (list_has_cwd (match dict_get m "services" with Some v => v | None => VNull end)).
  - simpl. now apply raises_bind.
  - rewrite Hsv. simpl.
    destruct (list_has_cwd (match dict_get m "tests" with Some v => v | None => VNull end)).
    + now apply raises_bind.
    + now rewrite Htv.
Qed.

(** C1 (amended). [_expand_project_paths] raises on every service or test
    whose cwd, with backslashes read as slashes and leading [./] removed,
    is neither [backend] or [frontend] nor a path under one of them.  Its
    own output is such a case: an expanded cwd starts with [content/], so a
    second application to the output of an accepted config raises whenever
    some service or test carries a cwd; when none does, the second
    application returns its input unchanged. *)
Theorem expand_project_paths_spec (merged : value) (slug : string) :
  (forall m key xs d v,
     merged = VDict m -> key = "services" \/ key = "tests" ->
     dict_get m key = Some (VList xs) -> In (VDict d) xs ->
     dict_get d "cwd" = Some v -> cwd_ok v = false ->
     raises (_expand_project_paths merged slug)) /\
  (forall out,
     _expand_project_paths merged slug = Ok out ->
     if config_has_cwd merged then raises (_expand_project_paths out slug)
     else _expand_project_paths out slug = Ok out).
Proof.
  split.
  - intros m key xs d v -> Hkey Hm Hin Hd Hv. eapply expand_rejects; eauto.
  - intros out H. destruct merged as [| | | | |m]; try discriminate.
    now apply expand_second.
Qed.

(** *** Template resolution *)

(** The score of every registered template, in registry order. *)
Definition template_scores (reg : list (string * dict)) (t : string)
  : result (list (string * nat)) :=
  rmap (fun e => let? kws := detect_keywords (snd e) in Ok (fst e, score kws t)) reg.







End Composer.

(** * The process orchestrator (run_all_tests.py)

    The orchestrator acts on the outside world: it starts processes, polls
    URLs, sleeps and reads the clock.  A [world] is the record of the
    actions taken so far together with the wall clock, in milliseconds; how
    the outside answers an action is given by oracles that see the whole
    history, so that every behaviour of the environment is covered by some
    choice of oracles.  Every action takes some time, never a negative one.
    Log files, the messages printed for a human reader and the environment
    handed to the child processes are left out; writing a file is taken to
    succeed. *)

Definition pid := nat.

Inductive event : Type :=
| ETime                                   (* time.time() *)
| ESleep (ms : Z)                         (* time.sleep *)
| EPopen (p : pid) (cmd : list string)    (* subprocess.Popen of a service *)
| ETerminate (p : pid)                    (* p.terminate() *)
| EPoll (p : pid)                         (* p.poll() *)
| EKill (p : pid)                         (* p.kill() *)
| EHttpGet (url : value)                  (* urllib.request.urlopen and read *)
| EInstall (cmd : list string)            (* subprocess.run of an install command *)
| ETest (cmd : list string) (timeout_sec : Z).  (* Popen and communicate of a test *)

Record world : Type := { trace : list event; now : Z }.

(** What [urlopen(url, timeout=3)] followed by [read] comes to. *)
Inductive http_reply : Type :=
| HttpBody (body : string)
| HttpURLError                 (* URLError or HTTPError *)
| HttpRaise (e : exn).         (* any other exception *)

(** What [subprocess.run] of an install command comes to. *)
Inductive run_reply : Type :=
| RunExit (rc : Z) (stdout stderr : string)
| RunRaise (e : exn).

(** What [Popen] and [communicate] of a test command come to. *)
Inductive test_reply : Type :=
| TestExit (rc : Z) (stdout stderr : string)
| TestTimeout (stdout stderr : string)     (* subprocess.TimeoutExpired *)
| TestNotFound (msg : string)              (* FileNotFoundError *)
| TestError (msg : string).                (* any other exception *)

Record svc_meta : Type := {
  m_name : value;
  m_healthy : bool;
  m_duration_ms : Z
}.

Record test_result : Type := {
  r_name : value;
  r_type : string;
  r_returncode : Z;
  r_error : option string;
  r_summary : dict
}.

Record report : Type := {
  rep_project : value;
  rep_overall_passed : bool;
  rep_services : list svc_meta;
  rep_results : list test_result
}.

(** How a run of [main] ends: [sys.exit(code)] after the report has been
    written, or an exception nobody caught. *)
Inductive outcome : Type :=
| Exited (code : Z) (rep : report)
| Uncaught (e : exn).


Record args : Type := {
  a_human : bool;
  a_max_service_wait : Z
}.

(** ** Helpers (run_all_tests.py, 37-54) *)

Definition to_cmd_list (x : value) : result (list string) :=
  match x with
  | VList xs =>
      match mapM (fun i => match i with VStr s => Some s | _ => None end) xs with
      | Some cmd => Ok cmd
      | None => Err (ValueError "Command must be a list[str].")
      end
  | _ => Err (ValueError "Command must be a list[str].")
  end.

(** [v.get(k, default)] *)
Definition py_get (v : value) (k : string) (default : value) : result value :=
  match v with
  | VDict d => Ok (match dict_get d k with Some x => x | None => default end)
  | _ => Err AttributeError
  end.

(** [s[-n:] if len(s) > n else s] *)
Definition tail (s : string) (n : nat) : string :=
  if Nat.ltb n (String.length s)
  then String.substring (String.length s - n) n s
  else s.

Section Orchestrator.

(** [str.lower] and [int] on text. *)
Variable py_lower : string -> string.
Variable int_of_str : string -> option Z.

(** The time the action just recorded took, in milliseconds. *)
Variable latency : list event -> N.
(** Whether [Popen] of a service raises. *)
Variable popen_raises : list event -> option exn.
Variable http_get : list event -> http_reply.
(** Whether [p.poll()] finds the process gone. *)
Variable poll_exited : list event -> bool.
Variable install_run : list event -> run_reply.
Variable test_run : list event -> test_reply.
(** The summary read from a JUnit XML file or a Playwright JSON report,
    or the message of the exception raised on the way. *)
Variable junit_summary : list event -> string -> dict + string.
Variable playwright_summary : string -> dict + string.

(** [int(v)] *)
Definition py_int (v : value) : result Z :=
  match v with
  | VInt n => Ok n
  | VBool b => Ok (if b then 1 else 0)%Z
  | VStr s =>
      match int_of_str s with
      | Some n => Ok n
      | None => Err (ValueError "invalid literal for int()")
      end
  | _ => Err TypeError
  end.

(** ** Effects *)

Definition M (A : Type) : Type := world -> result A * world.

Definition ret {A} (a : A) : M A := fun w => (Ok a, w).

Definition lift {A} (r : result A) : M A := fun w => (r, w).

Definition bind {A B} (m : M A) (k : A -> M B) : M B :=
  fun w =>
    match m w with
    | (Ok a, w1) => k a w1
    | (Err e, w1) => (Err e, w1)
    end.

Notation "'let!' x ':=' m 'in' k" := (bind m (fun x => k))
  (at level 10, x pattern, m at level 100, k at level 200).

(** [try: body finally: cleanup] *)
Definition finally {A} (body : M A) (cleanup : world -> world) : M A :=
  fun w => let (r, w1) := body w in (r, cleanup w1).

(** An action is recorded, and the clock moves on by the time it took. *)
Definition tick (e : event) (w : world) : world :=
  {| trace := trace w ++ [e];
     now := now w + Z.of_N (latency (trace w ++ [e])) |}.

Definition time_time : M Z :=
  fun w => let w1 := tick ETime w in (Ok (now w1), w1).

Definition sleep (ms : Z) : M unit :=
  fun w => let w1 := tick (ESleep ms) w in
           (Ok tt, {| trace := trace w1; now := now w1 + ms |}).

Definition popen (p : pid) (cmd : list string) : M pid :=
  fun w => let w1 := tick (EPopen p cmd) w in
           match popen_raises (trace w1) with
           | Some e => (Err e, w1)
           | None => (Ok p, w1)
           end.

Definition urlopen (url : value) : M http_reply :=
  fun w => let w1 := tick (EHttpGet url) w in (Ok (http_get (trace w1)), w1).

Definition run_install (cmd : list string) : M run_reply :=
  fun w => let w1 := tick (EInstall cmd) w in (Ok (install_run (trace w1)), w1).

Definition run_test (cmd : list string) (timeout_sec : Z) : M test_reply :=
  fun w => let w1 := tick (ETest cmd timeout_sec) w in (Ok (test_run (trace w1)), w1).

(** ** Healthcheck (run_all_tests.py, 88-108) *)

(** [(expect is None) or (expect in body)] *)
Definition expect_met (expect : value) (body : string) : result bool :=
  match expect with
  | VNull => Ok true
  | VStr e => Ok (is_substring e body)
  | _ => Err TypeError
  end.

(** The polling loop.  Every round sleeps 0.4 s, so the rounds that fit
    before the timeout bound the fuel ([wait_http_fuel]). *)
Fixpoint wait_http_loop (fuel : nat) (url expect : value) (timeout_sec start : Z)
  : M bool :=
  match fuel with
  | O => ret false
  | S fuel' =>
      let! t := time_time in
      if (t - start <? timeout_sec * 1000)%Z then
        let! reply := urlopen url in
        match reply with
        | HttpBody body =>
            let! ok := lift (expect_met expect body) in
            if ok then ret true
            else let! _ := sleep 400 in wait_http_loop fuel' url expect timeout_sec start
        | HttpURLError =>
            let! _ := sleep 400 in wait_http_loop fuel' url expect timeout_sec start
        | HttpRaise e => lift (Err e)
        end
      else ret false
  end.

Definition wait_http_rounds (timeout_sec : Z) : nat :=
  Z.to_nat (timeout_sec * 1000 / 400) + 2.

Definition wait_http (url expect : value) (timeout_sec : Z) : M bool :=
  let! start := time_time in
  wait_http_loop (wait_http_rounds timeout_sec) url expect timeout_sec start.

(** ** Services (run_all_tests.py, 114-181) *)

Definition proc : Type := value * pid.

Fixpoint terminate_all (ps : list proc) (w : world) : world :=
  match ps with
  | [] => w
  | (_, p) :: rest => terminate_all rest (tick (ETerminate p) w)
  end.

Fixpoint kill_stragglers (ps : list proc) (w : world) : world :=
  match ps with
  | [] => w
  | (_, p) :: rest =>
      let w1 := tick (EPoll p) w in
      kill_stragglers rest
        (if poll_exited (trace w1) then w1 else tick (EKill p) w1)
  end.

(** Exceptions of [terminate] and [kill] are swallowed: it cannot raise. *)
Definition stop_services (procs : list proc) (w : world) : world :=
  let w1 := terminate_all (rev procs) w in
  let w2 := snd (sleep 700 w1) in
  kill_stragglers (rev procs) w2.

(** What the loop over the services reads from an entry before it starts
    the process (114-127), in the order of the source. *)
Record service_decl : Type := {
  s_name : value;
  s_cmd : list string;
  s_url : value;
  s_expect : value;
  s_timeout_sec : Z
}.

Definition read_service (max_wait_override : Z) (svc : value) : result service_decl :=
  let? name := py_get svc "name" VNull in
  let? cwd := py_get svc "cwd" VNull in
  let? start := py_get svc "start" (VList []) in
  let? cmd := to_cmd_list start in
  let? hc0 := py_get svc "healthcheck" (VDict []) in
  let hc := if truthy hc0 then hc0 else VDict [] in
  let? url := py_get hc "url" VNull in
  let? expect := py_get hc "expect" VNull in
  let? tv := py_get hc "timeout_sec" (VInt 20) in
  let? timeout0 := py_int tv in
  let timeout_sec :=
    if (0 <? max_wait_override)%Z then Z.max timeout0 max_wait_override
    else timeout0 in
  Ok {| s_name := name; s_cmd := cmd; s_url := url; s_expect := expect;
        s_timeout_sec := timeout_sec |}.

(** The body of the loop over the services, up to the entry it appends
    to [svc_meta]: the process started and the entry. *)
Definition start_one (max_wait_override : Z) (svc : value) (p : pid)
  : M (proc * svc_meta) :=
  let! s := lift (read_service max_wait_override svc) in
  let! t0 := time_time in
  let! p := popen p (s_cmd s) in
  let! healthy := (if truthy (s_url s)
                   then wait_http (s_url s) (s_expect s) (s_timeout_sec s)
                   else let! _ := sleep 1000 in ret true) in
  let! t1 := time_time in
  ret ((s_name s, p),
       {| m_name := s_name s; m_healthy := healthy; m_duration_ms := (t1 - t0)%Z |}).

(** The loop: a process is appended to [procs] as soon as it is started;
    an unhealthy service stops everything started so far. *)
Fixpoint start_loop (max_wait_override : Z) (svcs : list value)
    (procs : list proc) (svc_meta_acc : list svc_meta)
  : M (list svc_meta * list proc * bool) :=
  match svcs with
  | [] => ret (svc_meta_acc, procs, true)
  | svc :: rest =>
      let! started := start_one max_wait_override svc (length procs) in
      let procs' := procs ++ [fst started] in
      let meta' := svc_meta_acc ++ [snd started] in
      if m_healthy (snd started) then start_loop max_wait_override rest procs' meta'
      else fun w => (Ok (meta', procs', false), stop_services procs' w)
  end.

Definition start_services (cfg : value) (max_wait_override : Z)
  : M (list svc_meta * list proc * bool) :=
  let! services_cfg := lift (py_get cfg "services" (VList [])) in
  let! svcs := lift (py_iter services_cfg) in
  start_loop max_wait_override svcs [] [].

(** ** Test adapters (run_all_tests.py, 187-244) *)

Definition rc_of (r : test_reply) : Z :=
  match r with
  | TestExit rc _ _ => rc
  | TestTimeout _ _ => 124
  | TestNotFound _ => 127
  | TestError _ => 1
  end.

Definition stdout_of (r : test_reply) : string :=
  match r with
  | TestExit _ out _ | TestTimeout out _ => out
  | TestNotFound _ | TestError _ => ""
  end.

Definition stderr_of (r : test_reply) : string :=
  match r with
  | TestExit _ _ err | TestTimeout _ err => err
  | TestNotFound msg | TestError msg => msg
  end.

(** What an adapter returns, before the name is attached: the type, the
    error if the report could not be read, and the summary if there is one. *)
Definition parsed : Type := string * option string * option dict.

Definition parse_junit (tr : list event) (xml_path : string) : parsed :=
  match junit_summary tr xml_path with
  | inl summary => ("junit", None, Some summary)
  | inr msg => ("junit", Some ("parse-error: " +:+ msg), None)
  end.

Definition parse_playwright (stdout : string) : parsed :=
  match playwright_summary stdout with
  | inl summary => ("playwright", None, Some summary)
  | inr msg => ("playwright", Some ("parse-error: " +:+ msg), None)
  end.

Definition parse_raw (stdout stderr : string) : parsed :=
  ("raw", None,
   Some [("stdout_tail", VStr (tail stdout 800)); ("stderr_tail", VStr (tail stderr 800))]).

(** The adapter chosen by the type of the test; [Path(junit_xml)] needs a
    string. *)
Definition parse_by_adapter (ttype : string) (junit_xml : value) (reply : test_reply)
  : M parsed :=
  fun w =>
    if String.eqb ttype "junit" then
      if truthy junit_xml then
        match junit_xml with
        | VStr p => (Ok (parse_junit (trace w) p), w)
        | _ => (Err TypeError, w)
        end
      else (Ok (parse_raw (stdout_of reply) (stderr_of reply)), w)
    else if String.eqb ttype "playwright" then
      (Ok (parse_playwright (stdout_of reply)), w)
    else (Ok (parse_raw (stdout_of reply) (stderr_of reply)), w).

(** "Attach meta": the name, a summary if there is none, and the duration
    unless the adapter gave one. *)
Definition attach_meta (name : value) (rc : Z) (p : parsed) (elapsed_ms : Z) : test_result :=
  let '(ty, err, summary) := p in
  let s := match summary with Some s => s | None => [] end in
  {| r_name := name;
     r_type := ty;
     r_returncode := rc;
     r_error := err;
     r_summary :=
       dict_set "duration_sec"
         (match dict_get s "duration_sec" with Some d => d | None => VInt elapsed_ms end) s |}.

(** ** One test (run_all_tests.py, 250-332) *)

(** [int(v or 0)] *)
Definition int_or_zero (v : value) : result Z :=
  if truthy v then py_int v else Ok 0%Z.

Definition install_failed (name : value) (ttype : string) (rc : Z) (icmd : list string)
  : test_result :=
  {| r_name := name;
     r_type := ttype;
     r_returncode := rc;
     r_error := Some "install-failed";
     r_summary := [("install_cmd", VList (map VStr icmd))] |}.

(** The install phase: [Some] result when an install command fails. *)
Fixpoint install_loop (name : value) (ttype : string) (install : list value)
  : M (option test_result) :=
  match install with
  | [] => ret None
  | icmd :: rest =>
      let! icmd := lift (to_cmd_list icmd) in
      let! pr := run_install icmd in
      match pr with
      | RunRaise e => lift (Err e)
      | RunExit rc _ _ =>
          if (rc =? 0)%Z then install_loop name ttype rest
          else ret (Some (install_failed name ttype rc icmd))
      end
  end.

(** One round of the [while True] loop, up to the result it holds. *)
Definition run_attempt (name : value) (ttype : string) (cmd : list string)
    (timeout_sec : Z) (junit_xml : value) : M test_result :=
  let! t0 := time_time in
  let! reply := run_test cmd timeout_sec in
  let! p := parse_by_adapter ttype junit_xml reply in
  let! t1 := time_time in
  ret (attach_meta name (rc_of reply) p (t1 - t0)).

(** The [while True] loop.  [attempt] is the counter after its increment;
    [fuel] is the number of retries still possible, and is never what ends
    the loop ([attempt_loop_fuel]). *)
Fixpoint attempt_loop (fuel : nat) (attempt : Z) (name : value) (ttype : string)
    (cmd : list string) (timeout_sec retries : Z) (junit_xml : value)
  : M test_result :=
  let! result := run_attempt name ttype cmd timeout_sec junit_xml in
  if (r_returncode result =? 0)%Z then ret result
  else if (retries <? attempt)%Z then ret result
  else
    match fuel with
    | O => ret result
    | S fuel' =>
        let! _ := sleep 600 in
        attempt_loop fuel' (attempt + 1) name ttype cmd timeout_sec retries junit_xml
    end.

(** What [run_one_test] reads from the entry before it runs anything
    (251-257), in the order of the source. *)
Record test_decl : Type := {
  t_name : value;
  t_type : string;
  t_cmd : list string;
  t_install : value;
  t_timeout_sec : Z;
  t_retries : Z
}.

Definition read_test (tcfg : value) : result test_decl :=
  let? name := py_get tcfg "name" VNull in
  let? ty := py_get tcfg "type" VNull in
  let? ttype := (if truthy ty
                 then match ty with
                      | VStr s => Ok (py_lower s)
                      | _ => Err AttributeError
                      end
                 else Ok "raw") in
  let? cwd := py_get tcfg "cwd" VNull in
  let? cmdv := py_get tcfg "cmd" (VList []) in
  let? cmd := to_cmd_list cmdv in
  let? install := py_get tcfg "install" (VList []) in
  let? tv := py_get tcfg "timeout_sec" (VInt 0) in
  let? timeout_sec := int_or_zero tv in
  let? rv := py_get tcfg "retries" (VInt 0) in
  let? retries := int_or_zero rv in
  Ok {| t_name := name; t_type := ttype; t_cmd := cmd; t_install := install;
        t_timeout_sec := timeout_sec; t_retries := retries |}.

Definition run_one_test (tcfg : value) : M test_result :=
  let! t := lift (read_test tcfg) in
  let! failed := (if truthy (t_install t)
                  then let! icmds := lift (py_iter (t_install t)) in
                       install_loop (t_name t) (t_type t) icmds
                  else ret None) in
  match failed with
  | Some result => ret result
  | None =>
      let! junit_xml := lift (py_get tcfg "junit_xml" VNull) in
      attempt_loop (Z.to_nat (t_retries t)) 1 (t_name t) (t_type t) (t_cmd t)
        (t_timeout_sec t) (t_retries t) junit_xml
  end.

(** ** main (run_all_tests.py, 338-417) *)

(** The loop over the tests: the results so far and [all_ok]. *)
Fixpoint run_tests (tests : list value) (results : list test_result) (all_ok : bool)
  : M (list test_result * bool) :=
  match tests with
  | [] => ret (results, all_ok)
  | tcfg :: rest =>
      let! res := run_one_test tcfg in
      run_tests rest (results ++ [res])
        (if (r_returncode res =? 0)%Z then all_ok else false)
  end.

(** [cfg.get("tests", []) or []], and the loop *)
Definition run_all (cfg : value) : M (list test_result * bool) :=
  let! tv := lift (py_get cfg "tests" (VList [])) in
  let! tests := lift (if truthy tv then py_iter tv else Ok []) in
  run_tests tests [] true.

Definition main_body (cfg : value) (a : args) : M report :=
  let! project0 := lift (py_get cfg "project" VNull) in
  let project := if truthy project0 then project0 else VStr "project" in
  let! started := start_services cfg (a_max_service_wait a) in
  let '(services_meta, procs, ok_services) := started in
  let! verdict := finally (if ok_services then run_all cfg else ret ([], false))
                          (stop_services procs) in
  let '(results, overall_passed) := verdict in
  ret {| rep_project := project;
         rep_overall_passed := overall_passed;
         rep_services := services_meta;
         rep_results := results |}.

Definition main (cfg : value) (a : args) (w : world) : outcome * world :=
  match main_body cfg a w with
  | (Ok rep, w') => (Exited (if rep_overall_passed rep then 0 else 1) rep, w')
  | (Err e, w') => (Uncaught e, w')
  end.

(** ** Properties of the orchestrator *)

(** *** The effects *)

Lemma bind_ok {A B} (m : M A) (k : A -> M B) w a w1 :
  m w = (Ok a, w1) -> bind m k w = k a w1.
Proof. unfold bind. now intros ->. Qed.

Lemma bind_err {A B} (m : M A) (k : A -> M B) w e w1 :
  m w = (Err e, w1) -> bind m k w = (Err e, w1).
Proof. unfold bind. now intros ->. Qed.

Lemma bind_inv_ok {A B} (m : M A) (k : A -> M B) w b w2 :
  bind m k w = (Ok b, w2) ->
  exists a w1, m w = (Ok a, w1) /\ k a w1 = (Ok b, w2).
Proof.
  unfold bind. destruct (m w) as [[a|e] w1]; [eauto|discriminate].
Qed.

Lemma bind_lift_ok {A B} (r : result A) (k : A -> M B) w a :
  r = Ok a -> bind (lift r) k w = k a w.
Proof. now intros ->. Qed.

Lemma now_tick e w : (now w <= now (tick e w))%Z.
Proof. unfold tick. simpl. lia. Qed.

Lemma trace_tick e w : trace (tick e w) = trace w ++ [e].
Proof. reflexivity. Qed.

(** [m] appends events to the trace, all of them accepted by [P], and never
    turns the clock back. *)
Definition emits {A} (P : event -> bool) (m : M A) : Prop :=
  forall w r w', m w = (r, w') ->
    exists evs, trace w' = trace w ++ evs /\ forallb P evs = true /\ (now w <= now w')%Z.

(** The same for a step that cannot fail. *)
Definition emits_w (P : event -> bool) (f : world -> world) : Prop :=
  forall w, exists evs,
    trace (f w) = trace w ++ evs /\ forallb P evs = true /\ (now w <= now (f w))%Z.

Lemma emits_ret {A} P (a : A) : emits P (ret a).
Proof.
  intros w r w' [= <- <-]. exists []. rewrite app_nil_r. repeat split; lia.
Qed.

Lemma emits_lift {A} P (r : result A) : emits P (lift r).
Proof.
  intros w r' w' [= <- <-]. exists []. rewrite app_nil_r. repeat split; lia.
Qed.

Lemma emits_bind {A B} P (m : M A) (k : A -> M B) :
  emits P m -> (forall a, emits P (k a)) -> emits P (bind m k).
Proof.
  intros Hm Hk w r w' H. unfold bind in H.
  destruct (m w) as [[a|e] w1] eqn:Em.
  - destruct (Hm _ _ _ Em) as (evs1 & Ht1 & HP1 & Hn1).
    destruct (Hk a _ _ _ H) as (evs2 & Ht2 & HP2 & Hn2).
    exists (evs1 ++ evs2). rewrite Ht2, Ht1, app_assoc, forallb_app, HP1, HP2.
    repeat split; lia.
  - injection H as <- <-. now apply (Hm _ _ _ Em).
Qed.

Lemma emits_tick {A} P e (f : world -> result A) :
  P e = true -> emits P (fun w => (f (tick e w), tick e w)).
Proof.
  intros He w r w' [= <- <-]. exists [e]. simpl. rewrite He.
  repeat split. apply now_tick.
Qed.

Lemma emits_time_time P : P ETime = true -> emits P time_time.
Proof. intros H. apply (emits_tick P ETime (fun w => Ok (now w)) H). Qed.

Lemma emits_sleep P ms : (0 <= ms)%Z -> P (ESleep ms) = true -> emits P (sleep ms).
Proof.
  intros Hms He w r w' [= <- <-]. exists [ESleep ms]. simpl. rewrite He.
  repeat split. lia.
Qed.

Lemma emits_urlopen P url : P (EHttpGet url) = true -> emits P (urlopen url).
Proof. intros H. apply (emits_tick P _ (fun w => Ok (http_get (trace w))) H). Qed.

Lemma emits_popen P p cmd : P (EPopen p cmd) = true -> emits P (popen p cmd).
Proof.
  intros He w r w' H. unfold popen in H.
  exists [EPopen p cmd]. simpl. rewrite He.
  destruct (popen_raises _); injection H as <- <-; repeat split; apply now_tick.
Qed.

Lemma emits_run_install P cmd : P (EInstall cmd) = true -> emits P (run_install cmd).
Proof. intros H. apply (emits_tick P _ (fun w => Ok (install_run (trace w))) H). Qed.

Lemma emits_run_test P cmd t : P (ETest cmd t) = true -> emits P (run_test cmd t).
Proof. intros H. apply (emits_tick P _ (fun w => Ok (test_run (trace w))) H). Qed.

Lemma emits_w_compose P f g : emits_w P f -> emits_w P g -> emits_w P (fun w => g (f w)).
Proof.
  intros Hf Hg w. destruct (Hf w) as (e1 & T1 & P1 & N1).
  destruct (Hg (f w)) as (e2 & T2 & P2 & N2).
  exists (e1 ++ e2). rewrite T2, T1, app_assoc, forallb_app, P1, P2.
  repeat split; lia.
Qed.

Lemma emits_w_tick P e : P e = true -> emits_w P (tick e).
Proof.
  intros He w. exists [e]. simpl. rewrite He. repeat split. apply now_tick.
Qed.

(** *** wait_http *)

(** The events of a healthcheck. *)
Definition is_wait_event (e : event) : bool :=
  match e with
  | ETime | ESleep _ | EHttpGet _ => true
  | _ => false
  end.

(** With a timeout of zero or less the loop ends at its first test: two
    readings of the clock and no request. *)
Lemma wait_http_nonpositive url expect timeout_sec w :
  (timeout_sec <= 0)%Z ->
  wait_http url expect timeout_sec w = (Ok false, tick ETime (tick ETime w)).
Proof.
  intros Ht. unfold wait_http, wait_http_rounds.
  rewrite Nat.add_comm. cbn [Nat.add wait_http_loop].
  unfold bind, time_time, ret.
  pose proof (now_tick ETime (tick ETime w)) as Hn.
  destruct (_ <? _)%Z eqn:E; [|reflexivity].
  apply Z.ltb_lt in E. lia.
Qed.

(** The rounds still possible when the loop is entered in [w]. *)
Definition rounds_left (timeout_sec start : Z) (w : world) : nat :=
  let mu := (timeout_sec * 1000 - (now w - start))%Z in
  if (mu <=? 0)%Z then 0%nat else (Z.to_nat ((mu - 1) / 400) + 1)%nat.

(** One round of the loop, as a function of the world. *)
Lemma wait_http_loop_S fuel url expect timeout_sec start w :
  wait_http_loop (S fuel) url expect timeout_sec start w =
  let w1 := tick ETime w in
  if (now w1 - start <? timeout_sec * 1000)%Z then
    let w2 := tick (EHttpGet url) w1 in
    match http_get (trace w2) with
    | HttpBody body =>
        match expect_met expect body with
        | Ok true => (Ok true, w2)
        | Ok false => wait_http_loop fuel url expect timeout_sec start (snd (sleep 400 w2))
        | Err e => (Err e, w2)
        end
    | HttpURLError => wait_http_loop fuel url expect timeout_sec start (snd (sleep 400 w2))
    | HttpRaise e => (Err e, w2)
    end
  else (Ok false, w1).
Proof.
  cbn [wait_http_loop]. unfold bind, time_time, urlopen, lift, ret. cbv zeta.
  destruct (_ <? _)%Z; [|reflexivity].
  destruct (http_get _); try reflexivity.
  destruct (expect_met expect body) as [[|]|]; reflexivity.
Qed.

Lemma wait_http_loop_fuel url expect timeout_sec start : forall n m w,
  (rounds_left timeout_sec start w + 1 <= n)%nat ->
  (rounds_left timeout_sec start w + 1 <= m)%nat ->
  wait_http_loop n url expect timeout_sec start w =
  wait_http_loop m url expect timeout_sec start w.
Proof.
  induction n as [|n IH]; intros m w Hn Hm; [lia|].
  destruct m as [|m]; [lia|].
  rewrite !wait_http_loop_S. cbv zeta.
  set (w1 := tick ETime w).
  destruct (now w1 - start <? timeout_sec * 1000)%Z eqn:E; [|reflexivity].
  apply Z.ltb_lt in E.
  set (w2 := tick (EHttpGet url) w1).
  assert (Hnext : forall w3, (now w1 + 400 <= now w3)%Z ->
            wait_http_loop n url expect timeout_sec start w3 =
            wait_http_loop m url expect timeout_sec start w3).
  { intros w3 H3. pose proof (now_tick ETime w) as H1. fold w1 in H1.
    assert (rounds_left timeout_sec start w3 + 1 <= rounds_left timeout_sec start w)%nat.
    { unfold rounds_left.
      destruct (timeout_sec * 1000 - (now w3 - start) <=? 0)%Z eqn:E3;
      destruct (timeout_sec * 1000 - (now w - start) <=? 0)%Z eqn:E0;
        try apply Z.leb_le in E3; try apply Z.leb_gt in E3;
        try apply Z.leb_le in E0; try apply Z.leb_gt in E0; try lia.
      assert ((timeout_sec * 1000 - (now w3 - start) - 1) / 400 + 1
              <= (timeout_sec * 1000 - (now w - start) - 1) / 400)%Z.
      { rewrite <- Z.div_add by lia. apply Z.div_le_mono; lia. }
      assert (0 <= (timeout_sec * 1000 - (now w3 - start) - 1) / 400)%Z
        by (apply Z.div_pos; lia).
      lia. }
    apply IH; lia. }
  assert (Hsleep : (now w1 + 400 <= now (snd (sleep 400 w2)))%Z).
  { unfold sleep. simpl. pose proof (now_tick (EHttpGet url) w1). fold w2 in H. lia. }
  destruct (http_get (trace w2)); try reflexivity.
  - destruct (expect_met expect body) as [[|]|]; try reflexivity. now apply Hnext.
  - now apply Hnext.
Qed.

(** The fuel [wait_http] gives its loop is enough: more changes nothing. *)
Lemma wait_http_fuel url expect timeout_sec extra w :
  wait_http url expect timeout_sec w =
  bind time_time
    (fun start => wait_http_loop (wait_http_rounds timeout_sec + extra)
                    url expect timeout_sec start) w.
Proof.
  unfold wait_http, bind, time_time. set (w1 := tick ETime w).
  assert (rounds_left timeout_sec (now w1) w1 + 1 <= wait_http_rounds timeout_sec)%nat.
  { unfold rounds_left, wait_http_rounds.
    replace (timeout_sec * 1000 - (now w1 - now w1))%Z with (timeout_sec * 1000)%Z by lia.
    destruct (timeout_sec * 1000 <=? 0)%Z eqn:E; [lia|]. apply Z.leb_gt in E.
    assert ((timeout_sec * 1000 - 1) / 400 <= timeout_sec * 1000 / 400)%Z
      by (apply Z.div_le_mono; lia).
    assert (0 <= (timeout_sec * 1000 - 1) / 400)%Z by (apply Z.div_pos; lia).
    lia. }
  apply wait_http_loop_fuel; lia.
Qed.

Lemma emits_wait_http_loop P url expect timeout_sec start :
  (forall e, is_wait_event e = true -> P e = true) ->
  forall fuel, emits P (wait_http_loop fuel url expect timeout_sec start).
Proof.
  intros HP. induction fuel as [|fuel IH]; [apply emits_ret|].
  cbn [wait_http_loop]. apply emits_bind; [now apply emits_time_time, HP|].
  intros t. destruct (_ <? _)%Z; [|apply emits_ret].
  apply emits_bind; [now apply emits_urlopen, HP|].
  intros [body| |e]; [| |apply emits_lift].
  - apply emits_bind; [apply emits_lift|]. intros [|]; [apply emits_ret|].
    apply emits_bind; [apply emits_sleep; [lia|now apply HP]|]. intros _. exact IH.
  - apply emits_bind; [apply emits_sleep; [lia|now apply HP]|]. intros _. exact IH.
Qed.

Lemma emits_wait_http P url expect timeout_sec :
  (forall e, is_wait_event e = true -> P e = true) ->
  emits P (wait_http url expect timeout_sec).
Proof.
  intros HP. unfold wait_http. apply emits_bind; [now apply emits_time_time, HP|].
  intros start. now apply emits_wait_http_loop.
Qed.

(** *** stop_services *)

(** What the second pass of [stop_services] records: every process is
    polled, and killed unless the poll found it gone. *)
Definition straggler_events (ps : list proc) (exited : list bool) : list event :=
  concat (zip_with (fun pr (b : bool) =>
                      EPoll (snd pr) :: (if b then [] else [EKill (snd pr)]))
                   ps exited).

Definition terminate_events (ps : list proc) : list event :=
  map (fun pr => ETerminate (snd pr)) ps.

(** The events of a teardown: every process started is sent [terminate],
    last started first; after the grace period each is polled in the same
    order and killed if it still runs. *)
Definition stop_events (procs : list proc) (exited : list bool) : list event :=
  terminate_events (rev procs) ++ [ESleep 700] ++ straggler_events (rev procs) exited.

Lemma terminate_all_trace ps : forall w,
  trace (terminate_all ps w) = trace w ++ terminate_events ps /\
  (now w <= now (terminate_all ps w))%Z.
Proof.
  induction ps as [|[n p] ps IH]; intros w; simpl.
  - rewrite app_nil_r. split; [reflexivity|lia].
  - destruct (IH (tick (ETerminate p) w)) as [-> Hn].
    rewrite trace_tick, <- app_assoc. split; [reflexivity|].
    pose proof (now_tick (ETerminate p) w). lia.
Qed.

Lemma kill_stragglers_trace ps : forall w,
  exists exited, length exited = length ps /\
    trace (kill_stragglers ps w) = trace w ++ straggler_events ps exited /\
    (now w <= now (kill_stragglers ps w))%Z.
Proof.
  induction ps as [|[n p] ps IH]; intros w; cbn [kill_stragglers].
  - exists []. rewrite app_nil_r. repeat split; lia.
  - cbv zeta. set (w1 := tick (EPoll p) w).
    destruct (IH (if poll_exited (trace w1) then w1 else tick (EKill p) w1))
      as (bs & Hlen & -> & Hn).
    exists (poll_exited (trace w1) :: bs). split; [simpl; lia|].
    pose proof (now_tick (EPoll p) w) as H1. fold w1 in H1.
    unfold straggler_events. cbn [zip_with concat snd]. fold (straggler_events ps bs).
    destruct (poll_exited (trace w1)).
    + subst w1. rewrite trace_tick, <- app_assoc. split; [reflexivity|lia].
    + pose proof (now_tick (EKill p) w1) as H2.
      subst w1. rewrite !trace_tick, <- !app_assoc. split; [reflexivity|lia].
Qed.

Lemma stop_services_trace procs w :
  exists exited, length exited = length procs /\
    trace (stop_services procs w) = trace w ++ stop_events procs exited /\
    (now w <= now (stop_services procs w))%Z.
Proof.
  unfold stop_services, stop_events.
  destruct (terminate_all_trace (rev procs) w) as [Ht Hn].
  set (w1 := terminate_all (rev procs) w) in *.
  destruct (kill_stragglers_trace (rev procs) (snd (sleep 700 w1))) as (bs & Hlen & Hk & Hn2).
  exists bs. split; [now rewrite Hlen, length_rev|].
  assert (Hs : (now w1 <= now (snd (sleep 700 w1)))%Z).
  { pose proof (now_tick (ESleep 700) w1). unfold sleep. cbn [snd now]. lia. }
  assert (Hst : trace (snd (sleep 700 w1)) = trace w1 ++ [ESleep 700]) by reflexivity.
  fold w1. rewrite Hk, Hst, Ht, <- !app_assoc.
  split; [reflexivity|lia].
Qed.

(** The events of starting and stopping services, and those of running
    install and test commands. *)
Definition is_service_event (e : event) : bool :=
  match e with
  | EInstall _ | ETest _ _ => false
  | _ => true
  end.

Definition is_test_event (e : event) : bool :=
  match e with
  | ETime | ESleep _ | EInstall _ | ETest _ _ => true
  | _ => false
  end.

(** The processes a trace starts and those it asks to terminate. *)
Definition started_pids (tr : list event) : list pid :=
  omap (fun e => match e with EPopen p _ => Some p | _ => None end) tr.

Definition terminated_pids (tr : list event) : list pid :=
  omap (fun e => match e with ETerminate p => Some p | _ => None end) tr.

(** The events a trace has that stop a process. *)
Definition is_stop_event (e : event) : bool :=
  match e with
  | ETerminate _ | EPoll _ | EKill _ => true
  | _ => false
  end.

Lemma stop_events_service procs exited :
  forallb is_service_event (stop_events procs exited) = true.
Proof.
  unfold stop_events, terminate_events, straggler_events.
  rewrite !forallb_app. simpl.
  assert (H1 : forall ps, forallb is_service_event (map (fun pr : proc => ETerminate (snd pr)) ps) = true)
    by (induction ps; simpl; auto).
  rewrite H1. simpl. generalize (rev procs) exited.
  induction l as [|pr l IH]; intros [|b bs]; simpl; auto.
  rewrite forallb_app, IH. now destruct b.
Qed.

Lemma emits_w_stop_services procs : emits_w is_service_event (stop_services procs).
Proof.
  intros w. destruct (stop_services_trace procs w) as (bs & _ & Ht & Hn).
  exists (stop_events procs bs). split; [exact Ht|]. split; [|exact Hn].
  apply stop_events_service.
Qed.

Lemma started_pids_app a b : started_pids (a ++ b) = started_pids a ++ started_pids b.
Proof. unfold started_pids. apply omap_app. Qed.

Lemma terminated_pids_app a b :
  terminated_pids (a ++ b) = terminated_pids a ++ terminated_pids b.
Proof. unfold terminated_pids. apply omap_app. Qed.

Lemma started_pids_wait evs :
  forallb is_wait_event evs = true -> started_pids evs = [].
Proof.
  induction evs as [|e evs IH]; [reflexivity|]. simpl.
  intros H. apply andb_true_iff in H as [He Hevs].
  destruct e; try discriminate; now apply IH.
Qed.

Lemma stop_events_started procs exited : started_pids (stop_events procs exited) = [].
Proof.
  unfold stop_events, terminate_events, straggler_events.
  rewrite !started_pids_app. simpl.
  assert (H1 : forall ps, started_pids (map (fun pr : proc => ETerminate (snd pr)) ps) = [])
    by (induction ps; simpl; auto).
  rewrite H1. simpl. generalize (rev procs) exited.
  induction l as [|pr l IH]; intros [|b bs]; simpl; auto.
  rewrite started_pids_app, IH. now destruct b.
Qed.

Lemma stop_events_terminated procs exited :
  length exited = length procs ->
  terminated_pids (stop_events procs exited) = map snd (rev procs).
Proof.
  intros Hlen. unfold stop_events, terminate_events, straggler_events.
  rewrite !terminated_pids_app. simpl.
  assert (H1 : forall ps, terminated_pids (map (fun pr : proc => ETerminate (snd pr)) ps) = map snd ps)
    by (induction ps as [|? ? IHp]; simpl; [reflexivity|now rewrite <- IHp]).
  rewrite H1.
  assert (H2 : forall (l : list proc) bs,
             terminated_pids (concat (zip_with (fun pr (b : bool) =>
               EPoll (snd pr) :: (if b then [] else [EKill (snd pr)])) l bs)) = []).
  { induction l as [|pr l IH]; intros [|b bs]; simpl; auto.
    rewrite terminated_pids_app, IH. now destruct b. }
  rewrite H2. now rewrite app_nil_r.
Qed.

(** *** start_services *)

(** The events of bringing a service up. *)
Definition is_start_event (e : event) : bool :=
  match e with
  | ETime | ESleep _ | EHttpGet _ | EPopen _ _ => true
  | _ => false
  end.

Lemma wait_event_start evs :
  forallb is_wait_event evs = true -> forallb is_start_event evs = true.
Proof.
  induction evs as [|e evs IH]; [reflexivity|]. simpl. intros H.
  apply andb_true_iff in H as [He Hr]. rewrite IH by exact Hr. now destruct e.
Qed.


Lemma start_event_no_stop evs :
  forallb is_start_event evs = true ->
  forallb (fun e => negb (is_stop_event e)) evs = true.
Proof.
  induction evs as [|e evs IH]; [reflexivity|]. simpl. intros H.
  apply andb_true_iff in H as [He Hr]. rewrite IH by exact Hr. now destruct e.
Qed.

Lemma emits_health P url expect timeout_sec :
  (forall e, is_wait_event e = true -> P e = true) ->
  emits P (if truthy url then wait_http url expect timeout_sec
           else let! _ := sleep 1000 in ret true).
Proof.
  intros HP. destruct (truthy url); [now apply emits_wait_http|].
  apply emits_bind; [apply emits_sleep; [lia|now apply HP]|].
  intros _. apply emits_ret.
Qed.

Lemma emits_start_one mw svc p : emits is_start_event (start_one mw svc p).
Proof.
  unfold start_one. apply emits_bind; [apply emits_lift|]. intros s.
  apply emits_bind; [now apply emits_time_time|]. intros t0.
  apply emits_bind; [now apply emits_popen|]. intros p'.
  apply emits_bind; [apply emits_health; intros e; now destruct e|]. intros h.
  apply emits_bind; [now apply emits_time_time|]. intros t1. apply emits_ret.
Qed.

(** A service that came up, healthy or not. *)
Lemma start_one_inv mw svc p w pr me w' :
  start_one mw svc p w = (Ok (pr, me), w') ->
  exists s evs,
    read_service mw svc = Ok s /\ pr = (s_name s, p) /\ m_name me = s_name s /\
    trace w' = trace w ++ [ETime; EPopen p (s_cmd s)] ++ evs ++ [ETime] /\
    forallb is_wait_event evs = true /\ (now w <= now w')%Z /\
    (m_healthy me = false ->
     truthy (s_url s) = true /\
     exists wa wb, wait_http (s_url s) (s_expect s) (s_timeout_sec s) wa = (Ok false, wb)).
Proof.
  unfold start_one. intros H.
  apply bind_inv_ok in H as (s & w0 & Hs & H). injection Hs as Hs <-.
  apply bind_inv_ok in H as (t0 & w1 & Ht0 & H). injection Ht0 as <- <-.
  apply bind_inv_ok in H as (p' & w2 & Hp & H).
  unfold popen in Hp. destruct (popen_raises _); [discriminate|]. injection Hp as <- <-.
  apply bind_inv_ok in H as (h & w3 & Hh & H).
  apply bind_inv_ok in H as (t1 & w4 & Ht1 & H). injection Ht1 as <- <-.
  injection H as <- <- <-.
  destruct (emits_health is_wait_event (s_url s) (s_expect s) (s_timeout_sec s)
              (fun e He => He) _ _ _ Hh) as (evs & Hev & Hwait & Hn).
  exists s, evs. repeat split; try assumption.
  - rewrite trace_tick, Hev, !trace_tick, <- !app_assoc. reflexivity.
  - pose proof (now_tick ETime w). pose proof (now_tick ETime w3).
    pose proof (now_tick (EPopen p (s_cmd s)) (tick ETime w)). lia.
  - simpl in H. destruct (truthy (s_url s)); [reflexivity|].
    apply bind_inv_ok in Hh as (? & ? & _ & Hr). injection Hr as <- _. discriminate.
  - simpl in H. destruct (truthy (s_url s)).
    + subst h. eauto.
    + apply bind_inv_ok in Hh as (? & ? & _ & Hr). injection Hr as <- _. discriminate.
Qed.

Lemma start_loop_app mw pre : forall rest procs meta w,
  start_loop mw (pre ++ rest) procs meta w =
  match start_loop mw pre procs meta w with
  | (Ok (meta1, procs1, true), w1) => start_loop mw rest procs1 meta1 w1
  | other => other
  end.
Proof.
  induction pre as [|svc pre IH]; intros rest procs meta w; [reflexivity|].
  cbn [app start_loop]. unfold bind.
  destruct (start_one mw svc (length procs) w) as [[[pr me]|e] w1]; [|reflexivity].
  cbn [fst snd]. destruct (m_healthy me); [apply IH|reflexivity].
Qed.

(** What the loop over the services hands back.  [w0] is the world when
    the last service has been waited for: the run goes on from there when
    all are healthy, and stops every process first when the last is not. *)
Lemma start_loop_inv mw svcs : forall procs meta w meta' procs' ok w',
  start_loop mw svcs procs meta w = (Ok (meta', procs', ok), w') ->
  exists new_meta new_procs evs w0,
    meta' = meta ++ new_meta /\ procs' = procs ++ new_procs /\
    map m_name new_meta = map fst new_procs /\
    map snd new_procs = seq (length procs) (length new_procs) /\
    trace w0 = trace w ++ evs /\ (now w <= now w0)%Z /\
    started_pids evs = map snd new_procs /\
    forallb is_start_event evs = true /\
    if ok then
      w' = w0 /\ length new_meta = length svcs /\
      Forall (fun m => m_healthy m = true) new_meta
    else
      w' = stop_services procs' w0 /\
      exists init me, new_meta = init ++ [me] /\ m_healthy me = false /\
        Forall (fun m => m_healthy m = true) init.
Proof.
  induction svcs as [|svc svcs IH]; intros procs meta w meta' procs' ok w' H.
  - injection H as <- <- <- <-. exists [], [], [], w.
    rewrite !app_nil_r. repeat split; auto. lia.
  - cbn [start_loop] in H. apply bind_inv_ok in H as ([pr me] & w1 & H1 & H).
    cbn [fst snd] in H.
    apply start_one_inv in H1 as (s & ev1 & Hs & -> & Hname & Ht1 & Hw1 & Hn1 & _).
    assert (Hst1 : started_pids ([ETime; EPopen (length procs) (s_cmd s)] ++ ev1 ++ [ETime])
                   = [length procs]).
    { rewrite !started_pids_app, (started_pids_wait _ Hw1). reflexivity. }
    assert (Hev1 : forallb is_start_event
                     ([ETime; EPopen (length procs) (s_cmd s)] ++ ev1 ++ [ETime]) = true).
    { rewrite !forallb_app, (wait_event_start _ Hw1). reflexivity. }
    set (e1 := [ETime; EPopen (length procs) (s_cmd s)] ++ ev1 ++ [ETime]) in *.
    destruct (m_healthy me) eqn:Eh.
    + apply IH in H as (nm & np & evs & w0 & -> & -> & Hnames & Hpids & Ht & Hn & Hst & Hev & Hok).
      exists (me :: nm), ((s_name s, length procs) :: np), (e1 ++ evs), w0.
      split; [now rewrite <- app_assoc|]. split; [now rewrite <- app_assoc|].
      split; [cbn [map fst]; now rewrite Hname, Hnames|].
      split; [cbn [map snd length seq]; f_equal; rewrite Hpids, length_app;
              cbn [length]; f_equal; lia|].
      split; [now rewrite Ht, Ht1, <- app_assoc|].
      split; [lia|].
      split; [now rewrite started_pids_app, Hst1, Hst|].
      split; [now rewrite forallb_app, Hev1, Hev|].
      destruct ok.
      * destruct Hok as (-> & Hlen & HF). split; [reflexivity|].
        split; [simpl; lia|]. now constructor.
      * destruct Hok as (-> & init & me' & -> & Hun & HF). split; [reflexivity|].
        exists (me :: init), me'. split; [reflexivity|]. split; [exact Hun|]. now constructor.
    + injection H as <- <- <- <-.
      exists [me], [(s_name s, length procs)], e1, w1.
      split; [reflexivity|]. split; [reflexivity|].
      split; [simpl; now rewrite Hname|].
      split; [reflexivity|]. split; [exact Ht1|]. split; [exact Hn1|].
      split; [exact Hst1|]. split; [exact Hev1|].
      split; [reflexivity|]. exists [], me. now repeat split.
Qed.

(** *** main: the start of the services *)

Lemma start_services_inv cfg mw w r w' :
  start_services cfg mw w = (Ok r, w') ->
  exists d svcs,
    cfg = VDict d /\
    py_iter (match dict_get d "services" with Some x => x | None => VList [] end) = Ok svcs /\
    start_loop mw svcs [] [] w = (Ok r, w').
Proof.
  unfold start_services. intros H.
  apply bind_inv_ok in H as (sv & w0 & Hsv & H). injection Hsv as Hsv <-.
  apply bind_inv_ok in H as (svcs & w0 & Hit & H). injection Hit as Hit <-.
  destruct cfg as [| | | | |d]; try discriminate. injection Hsv as <-. eauto.
Qed.

Lemma start_services_loop d svcs mw w :
  py_iter (match dict_get d "services" with Some x => x | None => VList [] end) = Ok svcs ->
  start_services (VDict d) mw w = start_loop mw svcs [] [] w.
Proof. unfold start_services, bind, lift, py_get. now intros ->. Qed.

Definition project_of (d : dict) : value :=
  let p := match dict_get d "project" with Some x => x | None => VNull end in
  if truthy p then p else VStr "project".

(** An unhealthy service: the report, and the teardown after it. *)
Lemma main_unhealthy d a w meta procs w1 :
  start_services (VDict d) (a_max_service_wait a) w = (Ok (meta, procs, false), w1) ->
  main (VDict d) a w =
  (Exited 1 {| rep_project := project_of d; rep_overall_passed := false;
               rep_services := meta; rep_results := [] |},
   stop_services procs w1).
Proof.
  intros H. unfold main, main_body, bind, lift, py_get. rewrite H. reflexivity.
Qed.

(** An exception while the services are started ends the run there. *)
Lemma main_start_error d a w e w1 :
  start_services (VDict d) (a_max_service_wait a) w = (Err e, w1) ->
  main (VDict d) a w = (Uncaught e, w1).
Proof.
  intros H. unfold main, main_body, bind, lift, py_get. rewrite H. reflexivity.
Qed.

(** With all services healthy the tests run inside [try]/[finally]: the
    teardown follows whatever they do. *)
Lemma main_healthy d a w meta procs w1 :
  start_services (VDict d) (a_max_service_wait a) w = (Ok (meta, procs, true), w1) ->
  main (VDict d) a w =
  match run_all (VDict d) w1 with
  | (Ok (results, overall_passed), w2) =>
      (Exited (if overall_passed then 0 else 1)
         {| rep_project := project_of d; rep_overall_passed := overall_passed;
            rep_services := meta; rep_results := results |},
       stop_services procs w2)
  | (Err e, w2) => (Uncaught e, stop_services procs w2)
  end.
Proof.
  intros H. unfold main, main_body, bind, lift, py_get, finally. rewrite H.
  cbn [fst snd]. destruct (run_all (VDict d) w1) as [[[results ok]|e] w2]; reflexivity.
Qed.





(** When the start of a service raises after earlier services have come
    up, [main] ends with that exception: the processes of the earlier
    services have been started, and nothing in the run terminates, polls or
    kills them. *)
Theorem startup_exception_skips_teardown (cfg : value) (a : args) (w : world)
    (sv : value) (pre : list value) (svc : value) (post : list value)
    (meta1 : list svc_meta) (procs1 : list proc) (w1 : world) (e : exn) (w2 : world) :
  py_get cfg "services" (VList []) = Ok sv ->
  py_iter sv = Ok (pre ++ svc :: post) ->
  start_loop (a_max_service_wait a) pre [] [] w = (Ok (meta1, procs1, true), w1) ->
  start_one (a_max_service_wait a) svc (length procs1) w1 = (Err e, w2) ->
  exists evs1 evs2,
    main cfg a w = (Uncaught e, w2) /\
    trace w2 = trace w ++ evs1 ++ evs2 /\
    started_pids evs1 = map snd procs1 /\
    length procs1 = length pre /\
    forallb (fun ev => negb (is_stop_event ev)) (evs1 ++ evs2) = true.
Proof.
  intros Hsv Hit Hpre Hone.
  destruct cfg as [| | | | |d]; try discriminate. injection Hsv as <-.
  pose proof Hpre as Hinv.
  apply start_loop_inv in Hinv
    as (nm & np & evs1 & w0 & -> & -> & Hnames & Hpids & Ht & Hn & Hst & Hev & (-> & Hlen & HF)).
  cbn [app] in *.
  destruct (emits_start_one _ _ _ _ _ _ Hone) as (evs2 & Ht2 & Hev2 & _).
  exists evs1, evs2.
  split.
  - apply main_start_error. rewrite (start_services_loop _ _ _ _ Hit), start_loop_app, Hpre.
    cbn [start_loop]. unfold bind. now rewrite Hone.
  - split; [now rewrite Ht2, Ht, <- app_assoc|]. split; [exact Hst|].
    split; [rewrite <- Hlen; apply (f_equal length) in Hnames;
            now rewrite !length_map in Hnames|].
    rewrite forallb_app. now rewrite !start_event_no_stop.
Qed.

(** *** Healthchecks with a timeout of zero or less *)

(** The override of [--max-service-wait]: none when it is zero or less,
    the larger of the two otherwise. *)
Lemma read_service_timeout mw svc s :
  read_service mw svc = Ok s ->
  exists s0, read_service 0 svc = Ok s0 /\
    s_name s = s_name s0 /\ s_cmd s = s_cmd s0 /\ s_url s = s_url s0 /\
    s_expect s = s_expect s0 /\
    s_timeout_sec s =
      if (0 <? mw)%Z then Z.max (s_timeout_sec s0) mw else s_timeout_sec s0.
Proof.
  unfold read_service.
  destruct (py_get svc "name" VNull) as [name|]; [|discriminate]. cbn [rbind].
  destruct (py_get svc "cwd" VNull) as [cwd|]; [|discriminate]. cbn [rbind].
  destruct (py_get svc "start" (VList [])) as [start|]; [|discriminate]. cbn [rbind].
  destruct (to_cmd_list start) as [cmd|]; [|discriminate]. cbn [rbind].
  destruct (py_get svc "healthcheck" (VDict [])) as [hc0|]; [|discriminate]. cbn [rbind].
  destruct (py_get _ "url" VNull) as [url|]; [|discriminate]. cbn [rbind].
  destruct (py_get _ "expect" VNull) as [expect|]; [|discriminate]. cbn [rbind].
  destruct (py_get _ "timeout_sec" (VInt 20)) as [tv|]; [|discriminate]. cbn [rbind].
  destruct (py_int tv) as [timeout0|]; [|discriminate]. cbn [rbind].
  intros [= <-]. eexists. split; [reflexivity|]. now cbn.
Qed.

Lemma start_one_zero_timeout mw svc p w s :
  read_service mw svc = Ok s ->
  truthy (s_url s) = true -> (s_timeout_sec s <= 0)%Z ->
  popen_raises (trace w ++ [ETime; EPopen p (s_cmd s)]) = None ->
  let w2 := tick (EPopen p (s_cmd s)) (tick ETime w) in
  let w5 := tick ETime (tick ETime (tick ETime w2)) in
  start_one mw svc p w =
  (Ok ((s_name s, p),
       {| m_name := s_name s; m_healthy := false;
          m_duration_ms := (now w5 - now (tick ETime w))%Z |}), w5).
Proof.
  intros Hs Hurl Ht Hp. cbv zeta. unfold start_one.
  rewrite (bind_lift_ok _ _ _ _ Hs).
  unfold bind at 1. unfold time_time at 1.
  unfold bind at 1. unfold popen.
  rewrite !trace_tick, <- app_assoc. cbn [app]. rewrite Hp.
  unfold bind at 1. rewrite Hurl, wait_http_nonpositive by exact Ht.
  reflexivity.
Qed.

(** C10 (amended). Given a timeout of zero or less, [wait_http] returns
    False after two readings of the clock, without a request.  The timeout
    it is given for a service is the declared [timeout_sec] unless
    [--max-service-wait] is positive, and the larger of the two then.  So,
    with no positive [--max-service-wait], a service that declares a
    healthcheck URL and a [timeout_sec] of zero or less is recorded
    unhealthy as soon as its process is started, without a request, and the
    run ends with every process stopped and no test run. *)
Theorem zero_timeout_healthcheck :
  (forall url expect timeout_sec w,
     (timeout_sec <= 0)%Z ->
     wait_http url expect timeout_sec w = (Ok false, tick ETime (tick ETime w))) /\
  (forall mw svc s,
     read_service mw svc = Ok s ->
     exists s0, read_service 0 svc = Ok s0 /\
       s_timeout_sec s =
         if (0 <? mw)%Z then Z.max (s_timeout_sec s0) mw else s_timeout_sec s0) /\
  (forall cfg a w sv pre svc post s meta1 procs1 w1,
     py_get cfg "services" (VList []) = Ok sv ->
     py_iter sv = Ok (pre ++ svc :: post) ->
     start_loop (a_max_service_wait a) pre [] [] w = (Ok (meta1, procs1, true), w1) ->
     read_service (a_max_service_wait a) svc = Ok s ->
     truthy (s_url s) = true -> (s_timeout_sec s <= 0)%Z ->
     popen_raises (trace w1 ++ [ETime; EPopen (length procs1) (s_cmd s)]) = None ->
     exists project dur exited1 exited2 w',
       let procs := procs1 ++ [(s_name s, length procs1)] in
       main cfg a w =
         (Exited 1
            {| rep_project := project; rep_overall_passed := false;
               rep_services := meta1 ++
                 [{| m_name := s_name s; m_healthy := false; m_duration_ms := dur |}];
               rep_results := [] |}, w') /\
       trace w' = trace w1 ++
         [ETime; EPopen (length procs1) (s_cmd s); ETime; ETime; ETime] ++
         stop_events procs exited1 ++ stop_events procs exited2).
Proof.
  split; [exact wait_http_nonpositive|]. split.
  - intros mw svc s Hs.
    destruct (read_service_timeout _ _ _ Hs) as (s0 & H0 & _ & _ & _ & _ & Ht). eauto.
  - intros cfg a w sv pre svc post s meta1 procs1 w1 Hsv Hit Hpre Hs Hurl Ht Hp.
    destruct cfg as [| | | | |d]; try discriminate. injection Hsv as <-.
    pose proof (start_one_zero_timeout _ _ _ _ _ Hs Hurl Ht Hp) as Hone. cbv zeta in Hone.
    set (w2 := tick (EPopen (length procs1) (s_cmd s)) (tick ETime w1)) in *.
    set (w5 := tick ETime (tick ETime (tick ETime w2))) in *.
    set (procs := procs1 ++ [(s_name s, length procs1)]).
    destruct (stop_services_trace procs w5) as (ex1 & _ & Ht1 & _).
    destruct (stop_services_trace procs (stop_services procs w5)) as (ex2 & _ & Ht2 & _).
    exists (project_of d), (now w5 - now (tick ETime w1))%Z, ex1, ex2,
           (stop_services procs (stop_services procs w5)).
    cbv zeta. fold procs. split.
    + apply main_unhealthy.
      rewrite (start_services_loop _ _ _ _ Hit), start_loop_app, Hpre.
      cbn [start_loop]. unfold bind. rewrite Hone. reflexivity.
    + rewrite Ht2, Ht1. subst w5 w2. rewrite !trace_tick, <- !app_assoc. reflexivity.
Qed.

(** *** The loop over the tests and the verdict *)

Lemma run_tests_inv tests : forall results all_ok w rs ok w',
  run_tests tests results all_ok w = (Ok (rs, ok), w') ->
  exists new, rs = results ++ new /\ length new = length tests /\
    ok = all_ok && forallb (fun r => (r_returncode r =? 0)%Z) new.
Proof.
  induction tests as [|t tests IH]; intros results all_ok w rs ok w' H.
  - injection H as <- <- <-. exists []. rewrite app_nil_r, andb_true_r. now repeat split.
  - cbn [run_tests] in H. apply bind_inv_ok in H as (res & w1 & _ & H).
    apply IH in H as (new & -> & Hlen & ->).
    exists (res :: new). rewrite <- app_assoc. split; [reflexivity|].
    split; [simpl; lia|]. simpl.
    destruct (r_returncode res =? 0)%Z; simpl; [reflexivity|].
    now rewrite andb_false_r.
Qed.

(** Every test has its one entry, at its own place. *)
Lemma run_tests_split pre t post : forall results all_ok w rs ok w',
  run_tests (pre ++ t :: post) results all_ok w = (Ok (rs, ok), w') ->
  exists rpre r rpost wa wb,
    rs = results ++ rpre ++ r :: rpost /\
    length rpre = length pre /\ length rpost = length post /\
    run_one_test t wa = (Ok r, wb).
Proof.
  induction pre as [|t0 pre IH]; intros results all_ok w rs ok w' H.
  - cbn [app run_tests] in H. apply bind_inv_ok in H as (r & w1 & Hr & H).
    apply run_tests_inv in H as (new & -> & Hlen & _).
    exists [], r, new, w, w1. rewrite <- app_assoc. now repeat split.
  - cbn [app run_tests] in H. apply bind_inv_ok in H as (r0 & w1 & _ & H).
    apply IH in H as (rpre & r & rpost & wa & wb & -> & Hl1 & Hl2 & Hr).
    exists (r0 :: rpre), r, rpost, wa, wb. rewrite <- app_assoc.
    split; [reflexivity|]. split; [simpl; lia|]. now split.
Qed.


Definition declared_tests (d : dict) : result (list value) :=
  let tv := match dict_get d "tests" with Some x => x | None => VList [] end in
  if truthy tv then py_iter tv else Ok [].






(** *** Installs and retries *)

(** The events of one attempt, and the world it leaves. *)
Definition attempt_events (cmd : list string) (timeout_sec : Z) : list event :=
  [ETime; ETest cmd timeout_sec; ETime].

Definition after_attempt (cmd : list string) (timeout_sec : Z) (w : world) : world :=
  tick ETime (tick (ETest cmd timeout_sec) (tick ETime w)).

Definition after_sleep (ms : Z) (w : world) : world := snd (sleep ms w).

(** The install commands a test declares. *)
Definition installs_of (t : test_decl) : result (list value) :=
  if truthy (t_install t) then py_iter (t_install t) else Ok [].

(** The adapter can be called: a [junit_xml] that is used is a string. *)
Definition junit_readable (ttype : string) (junit_xml : value) : bool :=
  if String.eqb ttype "junit" && truthy junit_xml
  then match junit_xml with VStr _ => true | _ => false end
  else true.

Lemma attach_meta_returncode name rc p elapsed :
  r_returncode (attach_meta name rc p elapsed) = rc.
Proof. now destruct p as [[ty err] summary]. Qed.

Lemma trace_after_attempt cmd timeout_sec w :
  trace (after_attempt cmd timeout_sec w) = trace w ++ attempt_events cmd timeout_sec.
Proof. unfold after_attempt. now rewrite !trace_tick, <- !app_assoc. Qed.

Lemma trace_after_sleep ms w : trace (after_sleep ms w) = trace w ++ [ESleep ms].
Proof. reflexivity. Qed.

Lemma run_attempt_ok name ttype cmd timeout_sec junit_xml w :
  junit_readable ttype junit_xml = true ->
  exists res,
    run_attempt name ttype cmd timeout_sec junit_xml w
      = (Ok res, after_attempt cmd timeout_sec w) /\
    r_returncode res = rc_of (test_run (trace w ++ [ETime; ETest cmd timeout_sec])).
Proof.
  intros Hj. unfold run_attempt, bind, time_time, run_test, parse_by_adapter, ret, after_attempt.
  unfold junit_readable in Hj. rewrite !trace_tick, <- app_assoc. cbn [app].
  destruct (String.eqb ttype "junit"); cbn [andb] in *.
  - destruct (truthy junit_xml).
    + destruct junit_xml; try discriminate.
      eexists. split; [reflexivity|]. apply attach_meta_returncode.
    + eexists. split; [reflexivity|]. apply attach_meta_returncode.
  - destruct (String.eqb ttype "playwright");
      (eexists; split; [reflexivity|]; apply attach_meta_returncode).
Qed.

Lemma install_loop_ok name ttype raws icmds :
  (forall tr, exists out err, install_run tr = RunExit 0 out err) ->
  Forall2 (fun raw c => to_cmd_list raw = Ok c) raws icmds ->
  forall w, exists w',
    install_loop name ttype raws w = (Ok None, w') /\
    trace w' = trace w ++ map EInstall icmds.
Proof.
  intros Hrun HF. induction HF as [|raw c raws icmds Hc _ IH]; intros w.
  - exists w. split; [reflexivity|]. now rewrite app_nil_r.
  - cbn [install_loop]. rewrite (bind_lift_ok _ _ _ _ Hc).
    unfold bind at 1. unfold run_install.
    destruct (Hrun (trace (tick (EInstall c) w))) as (out & err & ->).
    cbn [Z.eqb]. destruct (IH (tick (EInstall c) w)) as (w' & -> & Ht).
    exists w'. split; [reflexivity|].
    rewrite Ht, trace_tick, <- app_assoc. reflexivity.
Qed.

(** Three failing attempts with [retries = 2]: the loop hands back what
    the third attempt gives. *)
Lemma attempt_loop_three name ttype cmd timeout_sec junit_xml w :
  (forall tr, rc_of (test_run tr) <> 0%Z) ->
  junit_readable ttype junit_xml = true ->
  let w3 := after_sleep 600 (after_attempt cmd timeout_sec
              (after_sleep 600 (after_attempt cmd timeout_sec w))) in
  attempt_loop 2 1 name ttype cmd timeout_sec 2 junit_xml w =
  run_attempt name ttype cmd timeout_sec junit_xml w3.
Proof.
  intros Hfail Hj. cbv zeta.
  assert (Hstep : forall attempt w0 (k : M test_result),
            (attempt <= 2)%Z ->
            (let! result := run_attempt name ttype cmd timeout_sec junit_xml in
             if (r_returncode result =? 0)%Z then ret result
             else if (2 <? attempt)%Z then ret result
             else let! _ := sleep 600 in k) w0 =
            k (after_sleep 600 (after_attempt cmd timeout_sec w0))).
  { intros attempt w0 k Ha.
    destruct (run_attempt_ok name ttype cmd timeout_sec junit_xml w0 Hj) as (res & Hr & Hrc).
    unfold bind at 1. rewrite Hr.
    assert ((r_returncode res =? 0)%Z = false) as ->
      by (apply Z.eqb_neq; rewrite Hrc; apply Hfail).
    assert ((2 <? attempt)%Z = false) as -> by (apply Z.ltb_ge; lia).
    reflexivity. }
  cbn [attempt_loop]. rewrite Hstep by lia.
  cbn [Z.add Pos.add]. rewrite Hstep by lia.
  cbn [Z.add Pos.add Pos.succ].
  set (w3 := after_sleep 600 _).
  destruct (run_attempt_ok name ttype cmd timeout_sec junit_xml w3 Hj) as (res & Hr & Hrc).
  unfold bind. rewrite Hr.
  assert ((r_returncode res =? 0)%Z = false) as ->
    by (apply Z.eqb_neq; rewrite Hrc; apply Hfail).
  reflexivity.
Qed.

(** C5. A test declared with [retries = 2] whose command returns non-zero
    at every attempt, and whose install commands succeed: the test is run
    three times, 0.6 s apart, after each install command has been run once
    in the declared order, and the result handed back is the one of the
    third attempt alone; in the results of the run the test has one entry,
    at its own place, and that entry is the result of its run. *)
Theorem retried_test_reports_final_attempt (d : dict) (t : test_decl)
    (raws : list value) (icmds : list (list string)) (junit_xml : value) :
  read_test (VDict d) = Ok t ->
  t_retries t = 2%Z ->
  installs_of t = Ok raws ->
  Forall2 (fun raw c => to_cmd_list raw = Ok c) raws icmds ->
  py_get (VDict d) "junit_xml" VNull = Ok junit_xml ->
  junit_readable (t_type t) junit_xml = true ->
  (forall tr, exists out err, install_run tr = RunExit 0 out err) ->
  (forall tr, rc_of (test_run tr) <> 0%Z) ->
  let attempt := attempt_events (t_cmd t) (t_timeout_sec t) in
  (forall w, exists w3 res w',
     run_one_test (VDict d) w = (Ok res, w') /\
     run_attempt (t_name t) (t_type t) (t_cmd t) (t_timeout_sec t) junit_xml w3
       = (Ok res, w') /\
     trace w3 = trace w ++ map EInstall icmds ++
                attempt ++ [ESleep 600] ++ attempt ++ [ESleep 600] /\
     trace w' = trace w3 ++ attempt /\
     r_returncode res <> 0%Z) /\
  (forall pre post results all_ok w rs ok w',
     run_tests (pre ++ VDict d :: post) results all_ok w = (Ok (rs, ok), w') ->
     exists rpre r rpost wa wb,
       rs = results ++ rpre ++ r :: rpost /\
       length rpre = length pre /\ length rpost = length post /\
       run_one_test (VDict d) wa = (Ok r, wb)).
Proof.
  intros Hread Hret Hinst HF Hjx Hj Hrun Hfail. cbv zeta. split.
  - intros w. unfold run_one_test. rewrite (bind_lift_ok _ _ _ _ Hread).
    destruct (install_loop_ok (t_name t) (t_type t) raws icmds Hrun HF w) as (w1 & Hi & Ht1).
    assert (Hphase : (if truthy (t_install t)
                      then let! icmds0 := lift (py_iter (t_install t)) in
                           install_loop (t_name t) (t_type t) icmds0
                      else ret None) w = (Ok None, w1)).
    { unfold installs_of in Hinst. destruct (truthy (t_install t)).
      - now rewrite (bind_lift_ok _ _ _ _ Hinst).
      - injection Hinst as <-. inversion HF; subst. cbn in Hi. exact Hi. }
    unfold bind at 1. rewrite Hphase. rewrite (bind_lift_ok _ _ _ _ Hjx).
    rewrite Hret. cbn [Z.to_nat Pos.to_nat Pos.iter_op Nat.add].
    rewrite attempt_loop_three by assumption. cbv zeta.
    set (w3 := after_sleep 600 _).
    destruct (run_attempt_ok (t_name t) (t_type t) (t_cmd t) (t_timeout_sec t) junit_xml w3 Hj)
      as (res & Hr & Hrc).
    exists w3, res, (after_attempt (t_cmd t) (t_timeout_sec t) w3).
    split; [exact Hr|]. split; [exact Hr|]. split; [|split].
    + subst w3. rewrite trace_after_sleep, trace_after_attempt, trace_after_sleep,
        trace_after_attempt, Ht1, <- !app_assoc. reflexivity.
    + apply trace_after_attempt.
    + rewrite Hrc. apply Hfail.
  - intros pre post results all_ok w rs ok w' H. now apply run_tests_split in H.
Qed.

(** One round of the retry loop, as a function of the world. *)
Lemma attempt_loop_unfold fuel attempt name ttype cmd timeout_sec retries junit_xml w :
  attempt_loop fuel attempt name ttype cmd timeout_sec retries junit_xml w =
  match run_attempt name ttype cmd timeout_sec junit_xml w with
  | (Ok res, w1) =>
      if (r_returncode res =? 0)%Z then (Ok res, w1)
      else if (retries <? attempt)%Z then (Ok res, w1)
      else match fuel with
           | O => (Ok res, w1)
           | S fuel' =>
               attempt_loop fuel' (attempt + 1) name ttype cmd timeout_sec retries
                 junit_xml (after_sleep 600 w1)
           end
  | (Err e, w1) => (Err e, w1)
  end.
Proof.
  destruct fuel; cbn [attempt_loop]; unfold bind at 1;
    destruct (run_attempt _ _ _ _ _ w) as [[res|e] w1]; try reflexivity;
    destruct (r_returncode res =? 0)%Z; try reflexivity;
    destruct (retries <? attempt)%Z; reflexivity.
Qed.

(** The fuel of the retry loop is never what ends it. *)
Lemma attempt_loop_fuel name ttype cmd timeout_sec retries junit_xml :
  forall n m attempt w,
    (Z.to_nat (retries - attempt + 1) <= n)%nat ->
    (Z.to_nat (retries - attempt + 1) <= m)%nat ->
    attempt_loop n attempt name ttype cmd timeout_sec retries junit_xml w =
    attempt_loop m attempt name ttype cmd timeout_sec retries junit_xml w.
Proof.
  induction n as [|n IH]; intros m attempt w Hn Hm;
    rewrite (attempt_loop_unfold _ attempt), (attempt_loop_unfold m attempt);
    destruct (run_attempt _ _ _ _ _ w) as [[res|e] w1]; try reflexivity;
    destruct (r_returncode res =? 0)%Z; try reflexivity;
    destruct (retries <? attempt)%Z eqn:E; try reflexivity;
    apply Z.ltb_ge in E; destruct m as [|m]; try lia.
  apply IH; lia.
Qed.

(** *** wait_http: what its answers mean (run_all_tests.py, 88-108) *)

(** The requests a stretch of the trace holds. *)
Definition is_get (e : event) : bool :=
  match e with EHttpGet _ => true | _ => false end.

Definition http_gets (evs : list event) : nat := length (List.filter is_get evs).

Lemma http_gets_app a b : http_gets (a ++ b) = (http_gets a + http_gets b)%nat.
Proof. unfold http_gets. now rewrite List.filter_app, length_app. Qed.

(** A round that makes a request and sleeps leaves one round less. *)
Lemma rounds_left_step timeout_sec start w w3 :
  (now (tick ETime w) - start < timeout_sec * 1000)%Z ->
  (now (tick ETime w) + 400 <= now w3)%Z ->
  (rounds_left timeout_sec start w3 + 1 <= rounds_left timeout_sec start w)%nat.
Proof.
  intros E H3. pose proof (now_tick ETime w) as H1. unfold rounds_left.
  destruct (timeout_sec * 1000 - (now w3 - start) <=? 0)%Z eqn:E3;
  destruct (timeout_sec * 1000 - (now w - start) <=? 0)%Z eqn:E0;
    try apply Z.leb_le in E3; try apply Z.leb_gt in E3;
    try apply Z.leb_le in E0; try apply Z.leb_gt in E0; try lia.
  assert ((timeout_sec * 1000 - (now w3 - start) - 1) / 400 + 1
          <= (timeout_sec * 1000 - (now w - start) - 1) / 400)%Z.
  { rewrite <- Z.div_add by lia. apply Z.div_le_mono; lia. }
  assert (0 <= (timeout_sec * 1000 - (now w3 - start) - 1) / 400)%Z
    by (apply Z.div_pos; lia).
  lia.
Qed.

Lemma rounds_left_pos timeout_sec start w :
  (now (tick ETime w) - start < timeout_sec * 1000)%Z ->
  (1 <= rounds_left timeout_sec start w)%nat.
Proof.
  intros E. pose proof (now_tick ETime w) as H1. unfold rounds_left.
  destruct (_ <=? 0)%Z eqn:E0; [apply Z.leb_le in E0; lia|lia].
Qed.

Lemma now_after_get_sleep url w :
  (now (tick ETime w) + 400 <= now (snd (sleep 400 (tick (EHttpGet url) (tick ETime w)))))%Z.
Proof.
  unfold sleep. cbn [snd now].
  pose proof (now_tick (EHttpGet url) (tick ETime w)).
  pose proof (now_tick (ESleep 400) (tick (EHttpGet url) (tick ETime w))). lia.
Qed.

Lemma trace_after_get_sleep url w :
  trace (snd (sleep 400 (tick (EHttpGet url) (tick ETime w)))) =
  trace w ++ [ETime; EHttpGet url; ESleep 400].
Proof. unfold sleep. cbn [snd trace]. rewrite !trace_tick, <- !app_assoc. reflexivity. Qed.

(** However the loop ends, it has made no more requests than rounds fit
    before the timeout. *)
Lemma wait_http_loop_gets url expect timeout_sec start : forall fuel w r w',
  wait_http_loop fuel url expect timeout_sec start w = (r, w') ->
  exists evs, trace w' = trace w ++ evs /\
    (http_gets evs <= rounds_left timeout_sec start w)%nat.
Proof.
  induction fuel as [|fuel IH]; intros w r w' H.
  - injection H as <- <-. exists []. rewrite app_nil_r. split; [reflexivity|cbn; lia].
  - rewrite wait_http_loop_S in H. cbv zeta in H.
    destruct (now (tick ETime w) - start <? timeout_sec * 1000)%Z eqn:E.
    + apply Z.ltb_lt in E.
      pose proof (rounds_left_pos _ _ _ E) as Hpos.
      pose proof (rounds_left_step _ _ _ _ E (now_after_get_sleep url w)) as Hstep.
      assert (Hone : exists evs,
                trace (tick (EHttpGet url) (tick ETime w)) = trace w ++ evs /\
                (http_gets evs <= rounds_left timeout_sec start w)%nat).
      { exists [ETime; EHttpGet url]. rewrite !trace_tick, <- app_assoc.
        split; [reflexivity|cbn; lia]. }
      assert (Hrec : forall r0 w0,
                wait_http_loop fuel url expect timeout_sec start
                  (snd (sleep 400 (tick (EHttpGet url) (tick ETime w)))) = (r0, w0) ->
                exists evs, trace w0 = trace w ++ evs /\
                  (http_gets evs <= rounds_left timeout_sec start w)%nat).
      { intros r0 w0 H0. apply IH in H0 as (evs & Ht & Hc).
        exists ([ETime; EHttpGet url; ESleep 400] ++ evs).
        rewrite Ht, trace_after_get_sleep, <- app_assoc. split; [reflexivity|].
        rewrite http_gets_app. cbn [http_gets List.filter is_get length]. lia. }
      destruct (http_get _) as [body| |e].
      * destruct (expect_met expect body) as [[|]|e].
        -- injection H as <- <-. exact Hone.
        -- now apply Hrec in H.
        -- injection H as <- <-. exact Hone.
      * now apply Hrec in H.
      * injection H as <- <-. exact Hone.
    + injection H as <- <-. exists [ETime]. rewrite trace_tick.
      split; [reflexivity|cbn; lia].
Qed.

(** X1. The polling is bounded.  Whatever the service answers and however
    the healthcheck ends, it makes at most one request per 0.4 s of the
    timeout, and none when the timeout is not positive. *)
Theorem wait_http_request_bound (url expect : value) (timeout_sec : Z) (w : world) :
  exists evs,
    trace (snd (wait_http url expect timeout_sec w)) = trace w ++ evs /\
    (Z.of_nat (http_gets evs) <= Z.max 0 ((timeout_sec * 1000 + 399) / 400))%Z.
Proof.
  destruct (wait_http url expect timeout_sec w) as [r w'] eqn:H. cbn [snd].
  unfold wait_http, bind, time_time in H.
  apply wait_http_loop_gets in H as (evs & Ht & Hc).
  exists (ETime :: evs). rewrite Ht, trace_tick, <- app_assoc.
  split; [reflexivity|]. change (http_gets (ETime :: evs)) with (http_gets evs).
  unfold rounds_left in Hc.
  replace (timeout_sec * 1000 - (now (tick ETime w) - now (tick ETime w)))%Z
    with (timeout_sec * 1000)%Z in Hc by lia.
  destruct (timeout_sec * 1000 <=? 0)%Z eqn:E.
  - lia.
  - apply Z.leb_gt in E.
    assert ((timeout_sec * 1000 + 399) / 400 = (timeout_sec * 1000 - 1) / 400 + 1)%Z as ->.
    { rewrite <- Z.div_add by lia. f_equal. lia. }
    assert (0 <= (timeout_sec * 1000 - 1) / 400)%Z by (apply Z.div_pos; lia).
    lia.
Qed.

(** The loop answers True only on a reply that met the expectation. *)
Lemma wait_http_loop_true url expect timeout_sec start : forall fuel w w',
  wait_http_loop fuel url expect timeout_sec start w = (Ok true, w') ->
  exists evs body,
    trace w' = trace w ++ evs ++ [EHttpGet url] /\
    forallb is_wait_event evs = true /\
    http_get (trace w') = HttpBody body /\
    expect_met expect body = Ok true.
Proof.
  induction fuel as [|fuel IH]; intros w w' H; [discriminate|].
  rewrite wait_http_loop_S in H. cbv zeta in H.
  destruct (_ <? _)%Z; [|discriminate].
  assert (Hrec : wait_http_loop fuel url expect timeout_sec start
                   (snd (sleep 400 (tick (EHttpGet url) (tick ETime w)))) = (Ok true, w') ->
                 exists evs body,
                   trace w' = trace w ++ evs ++ [EHttpGet url] /\
                   forallb is_wait_event evs = true /\
                   http_get (trace w') = HttpBody body /\
                   expect_met expect body = Ok true).
  { intros H0. apply IH in H0 as (evs & body & Ht & Hw & Hg & He).
    exists ([ETime; EHttpGet url; ESleep 400] ++ evs), body.
    split; [rewrite Ht, trace_after_get_sleep, <- !app_assoc; reflexivity|].
    split; [rewrite forallb_app, Hw; reflexivity|]. now split. }
  destruct (http_get _) as [body| |e] eqn:Eg; [|now apply Hrec|discriminate].
  destruct (expect_met expect body) as [[|]|e] eqn:Ee; [|now apply Hrec|discriminate].
  injection H as <-. exists [ETime], body.
  rewrite !trace_tick, <- app_assoc in *. now repeat split.
Qed.

(** X2. A healthcheck succeeds only on evidence.  When [wait_http] answers
    True, the last thing it did was a request to the URL whose reply body
    met the expectation (any body when none is declared), and before that
    it only read the clock, made requests and slept. *)
Theorem wait_http_true_on_expected_reply (url expect : value) (timeout_sec : Z)
    (w w' : world) :
  wait_http url expect timeout_sec w = (Ok true, w') ->
  exists evs body,
    trace w' = trace w ++ evs ++ [EHttpGet url] /\
    forallb is_wait_event evs = true /\
    http_get (trace w') = HttpBody body /\
    expect_met expect body = Ok true.
Proof.
  unfold wait_http, bind, time_time. intros H.
  apply wait_http_loop_true in H as (evs & body & Ht & Hw & Hg & He).
  exists (ETime :: evs), body.
  split; [rewrite Ht, trace_tick, <- !app_assoc; reflexivity|].
  split; [exact Hw|]. now split.
Qed.

(** With fuel for the rounds that are left, the loop answers False only
    when the time is up. *)
Lemma wait_http_loop_false url expect timeout_sec start : forall fuel w w',
  (rounds_left timeout_sec start w + 1 <= fuel)%nat ->
  wait_http_loop fuel url expect timeout_sec start w = (Ok false, w') ->
  exists evs, trace w' = trace w ++ evs ++ [ETime] /\
    (timeout_sec * 1000 <= now w' - start)%Z.
Proof.
  induction fuel as [|fuel IH]; intros w w' Hf H; [lia|].
  rewrite wait_http_loop_S in H. cbv zeta in H.
  destruct (now (tick ETime w) - start <? timeout_sec * 1000)%Z eqn:E.
  - apply Z.ltb_lt in E.
    pose proof (rounds_left_step _ _ _ _ E (now_after_get_sleep url w)) as Hstep.
    assert (Hrec : wait_http_loop fuel url expect timeout_sec start
                     (snd (sleep 400 (tick (EHttpGet url) (tick ETime w)))) = (Ok false, w') ->
                   exists evs, trace w' = trace w ++ evs ++ [ETime] /\
                     (timeout_sec * 1000 <= now w' - start)%Z).
    { intros H0. apply IH in H0 as (evs & Ht & Hn); [|lia].
      exists ([ETime; EHttpGet url; ESleep 400] ++ evs).
      rewrite Ht, trace_after_get_sleep, <- !app_assoc. now split. }
    destruct (http_get _) as [body| |e]; [|now apply Hrec|discriminate].
    destruct (expect_met expect body) as [[|]|e]; [discriminate|now apply Hrec|discriminate].
  - apply Z.ltb_ge in E. injection H as <-. exists [].
    rewrite trace_tick. split; [reflexivity|lia].
Qed.

(** X3. A healthcheck never gives up early.  When [wait_http] answers
    False, its last action was a reading of the clock, and at that reading
    at least [timeout_sec] seconds had passed since the first one. *)
Theorem wait_http_false_after_timeout (url expect : value) (timeout_sec : Z)
    (w w' : world) :
  wait_http url expect timeout_sec w = (Ok false, w') ->
  exists evs, trace w' = trace w ++ [ETime] ++ evs ++ [ETime] /\
    (timeout_sec * 1000 <= now w' - now (tick ETime w))%Z.
Proof.
  unfold wait_http, bind, time_time. intros H.
  apply wait_http_loop_false in H as (evs & Ht & Hn).
  - exists evs. rewrite Ht, trace_tick, <- !app_assoc. now split.
  - unfold rounds_left, wait_http_rounds.
    replace (timeout_sec * 1000 - (now (tick ETime w) - now (tick ETime w)))%Z
      with (timeout_sec * 1000)%Z by lia.
    destruct (timeout_sec * 1000 <=? 0)%Z eqn:E; [lia|]. apply Z.leb_gt in E.
    assert ((timeout_sec * 1000 - 1) / 400 <= timeout_sec * 1000 / 400)%Z
      by (apply Z.div_le_mono; lia).
    assert (0 <= (timeout_sec * 1000 - 1) / 400)%Z by (apply Z.div_pos; lia).
    lia.
Qed.

(** *** run_one_test: installs and attempts (run_all_tests.py, 250-332) *)

Definition is_test_run (e : event) : bool :=
  match e with ETest _ _ => true | _ => false end.

Definition test_runs (evs : list event) : nat := length (List.filter is_test_run evs).

(** What the install commands of a stretch of the trace exited with, given
    the history [tr] before it: [None] stands for a command that could not
    be run. *)
Fixpoint install_codes (tr evs : list event) : list (option Z) :=
  match evs with
  | [] => []
  | e :: rest =>
      match e with
      | EInstall _ =>
          [match install_run (tr ++ [e]) with
           | RunExit rc _ _ => Some rc
           | RunRaise _ => None
           end]
      | _ => []
      end ++ install_codes (tr ++ [e]) rest
  end.

(** The return codes of the test attempts of a stretch of the trace. *)
Fixpoint attempt_codes (tr evs : list event) : list Z :=
  match evs with
  | [] => []
  | e :: rest =>
      (if is_test_run e then [rc_of (test_run (tr ++ [e]))] else [])
      ++ attempt_codes (tr ++ [e]) rest
  end.

Lemma install_codes_app a : forall tr b,
  install_codes tr (a ++ b) = install_codes tr a ++ install_codes (tr ++ a) b.
Proof.
  induction a as [|e a IH]; intros tr b; cbn [app install_codes].
  - now rewrite app_nil_r.
  - rewrite IH, <- !app_assoc. reflexivity.
Qed.

Lemma attempt_codes_app a : forall tr b,
  attempt_codes tr (a ++ b) = attempt_codes tr a ++ attempt_codes (tr ++ a) b.
Proof.
  induction a as [|e a IH]; intros tr b; cbn [app attempt_codes].
  - now rewrite app_nil_r.
  - rewrite IH, <- !app_assoc. reflexivity.
Qed.

Lemma test_runs_app a b : test_runs (a ++ b) = (test_runs a + test_runs b)%nat.
Proof. unfold test_runs. now rewrite List.filter_app, length_app. Qed.

Lemma installs_no_attempt icmds : forall tr,
  attempt_codes tr (map EInstall icmds) = [] /\ test_runs (map EInstall icmds) = 0%nat.
Proof.
  induction icmds as [|c icmds IH]; intros tr; [now split|].
  cbn [map attempt_codes is_test_run app]. split; [apply IH|apply (IH tr)].
Qed.

(** One attempt: the clock, the command, the clock. *)
Lemma run_attempt_inv name ttype cmd timeout_sec junit_xml w res w' :
  run_attempt name ttype cmd timeout_sec junit_xml w = (Ok res, w') ->
  w' = after_attempt cmd timeout_sec w /\
  r_returncode res = rc_of (test_run (trace w ++ [ETime; ETest cmd timeout_sec])) /\
  r_name res = name /\
  r_error res <> Some "install-failed".
Proof.
  unfold run_attempt. intros H.
  apply bind_inv_ok in H as (t0 & w1 & Ht0 & H). injection Ht0 as <- <-.
  apply bind_inv_ok in H as (reply & w2 & Hr & H). injection Hr as <- <-.
  apply bind_inv_ok in H as (p & w3 & Hp & H).
  assert (w3 = tick (ETest cmd timeout_sec) (tick ETime w) /\
          snd (fst p) <> Some "install-failed") as [-> Herr].
  { unfold parse_by_adapter in Hp.
    destruct (String.eqb ttype "junit").
    - destruct (truthy junit_xml).
      + destruct junit_xml; try discriminate. injection Hp as <- <-.
        split; [reflexivity|]. unfold parse_junit.
        destruct (junit_summary _ _); cbn; discriminate.
      + injection Hp as <- <-. split; [reflexivity|discriminate].
    - destruct (String.eqb ttype "playwright"); injection Hp as <- <-.
      + split; [reflexivity|]. unfold parse_playwright.
        destruct (playwright_summary _); cbn; discriminate.
      + split; [reflexivity|discriminate]. }
  apply bind_inv_ok in H as (t1 & w4 & Ht1 & H). injection Ht1 as <- <-.
  injection H as <- <-. destruct p as [[ty err] summary]. cbn in Herr.
  split; [reflexivity|]. cbn [attach_meta r_returncode r_name r_error].
  split; [|now split]. do 2 f_equal. cbn [trace tick]. now rewrite <- app_assoc.
Qed.

Lemma attempt_codes_attempt tr cmd timeout_sec :
  attempt_codes tr (attempt_events cmd timeout_sec) =
  [rc_of (test_run (tr ++ [ETime; ETest cmd timeout_sec]))].
Proof. cbn. now rewrite <- app_assoc. Qed.

(** The retry loop, entered with the retries that are left: the attempts
    before the last one failed, the result is the one of the last, and a
    failure is handed back only when no retry is left. *)
Lemma attempt_loop_inv name ttype cmd timeout_sec retries junit_xml :
  forall fuel attempt w res w',
    fuel = Z.to_nat (retries - attempt + 1) ->
    attempt_loop fuel attempt name ttype cmd timeout_sec retries junit_xml w = (Ok res, w') ->
    exists evs failed,
      trace w' = trace w ++ evs /\
      install_codes (trace w) evs = [] /\
      attempt_codes (trace w) evs = failed ++ [r_returncode res] /\
      Forall (fun rc => rc <> 0%Z) failed /\
      (length failed <= fuel)%nat /\
      (r_returncode res <> 0%Z -> length failed = fuel) /\
      r_name res = name /\
      r_error res <> Some "install-failed".
Proof.
  induction fuel as [|fuel IH]; intros attempt w res w' Hf H;
    rewrite attempt_loop_unfold in H;
    destruct (run_attempt name ttype cmd timeout_sec junit_xml w) as [[r1|e] w1] eqn:E1;
    try discriminate;
    destruct (run_attempt_inv _ _ _ _ _ _ _ _ E1) as (-> & Hrc & Hname & Herr).
  - assert (Hend : (Ok r1, after_attempt cmd timeout_sec w) = (Ok res, w')).
    { destruct (r_returncode r1 =? 0)%Z; [exact H|].
      destruct (retries <? attempt)%Z; exact H. }
    injection Hend as <- <-. exists (attempt_events cmd timeout_sec), [].
    rewrite trace_after_attempt, attempt_codes_attempt, Hrc.
    repeat split; try assumption; try reflexivity; try constructor.
  - destruct (r_returncode r1 =? 0)%Z eqn:E0.
    + injection H as <- <-. apply Z.eqb_eq in E0.
      exists (attempt_events cmd timeout_sec), [].
      rewrite trace_after_attempt, attempt_codes_attempt, Hrc.
      repeat split; try assumption; try reflexivity; try constructor.
      * cbn; lia.
      * intros Hne. congruence.
    + apply Z.eqb_neq in E0.
      destruct (retries <? attempt)%Z eqn:Er.
      * apply Z.ltb_lt in Er. lia.
      * apply Z.ltb_ge in Er.
        apply IH in H as (evs & failed & Ht & Hi & Ha & HF & Hlen & Hfail & Hn & He);
          [|lia].
        exists (attempt_events cmd timeout_sec ++ [ESleep 600] ++ evs),
               (r_returncode r1 :: failed).
        rewrite trace_after_sleep, trace_after_attempt in Ht, Hi, Ha.
        split; [now rewrite Ht, <- !app_assoc|].
        split; [rewrite !install_codes_app, Hi; reflexivity|].
        split; [rewrite !attempt_codes_app, attempt_codes_attempt, Ha, <- Hrc; reflexivity|].
        split; [now constructor|].
        split; [cbn; lia|]. split; [intros Hne; cbn; now rewrite Hfail|].
        now split.
Qed.

(** The install phase: every command run exited with 0, except the last
    one when the phase fails. *)
Lemma install_loop_inv name ttype : forall raws w o w',
  install_loop name ttype raws w = (Ok o, w') ->
  exists icmds,
    trace w' = trace w ++ map EInstall icmds /\
    match o with
    | None =>
        install_codes (trace w) (map EInstall icmds) = repeat (Some 0%Z) (length raws)
    | Some res =>
        exists n, install_codes (trace w) (map EInstall icmds)
                    = repeat (Some 0%Z) n ++ [Some (r_returncode res)] /\
          (n < length raws)%nat /\
          r_returncode res <> 0%Z /\ r_name res = name /\
          r_error res = Some "install-failed"
    end.
Proof.
  induction raws as [|raw raws IH]; intros w o w' H.
  - injection H as <- <-. exists []. rewrite app_nil_r. now split.
  - cbn [install_loop] in H.
    apply bind_inv_ok in H as (icmd & w0 & Hc & H). injection Hc as Hc <-.
    apply bind_inv_ok in H as (pr & w1 & Hr & H).
    assert (pr = install_run (trace w ++ [EInstall icmd]) /\ w1 = tick (EInstall icmd) w)
      as [-> ->] by (unfold run_install in Hr; now injection Hr as <- <-).
    destruct (install_run (trace w ++ [EInstall icmd])) as [rc out err|e] eqn:Ei;
      [|discriminate].
    destruct (rc =? 0)%Z eqn:E0.
    + apply Z.eqb_eq in E0. subst rc.
      apply IH in H as (icmds & Ht & Ho). rewrite trace_tick in Ht, Ho.
      exists (icmd :: icmds). cbn [map install_codes]. rewrite Ei.
      split; [now rewrite Ht, <- app_assoc|].
      destruct o as [res|].
      * destruct Ho as (n & Hcodes & Hn & Hrest). exists (S n).
        rewrite Hcodes. split; [reflexivity|]. split; [cbn; lia|exact Hrest].
      * now rewrite Ho.
    + apply Z.eqb_neq in E0. injection H as <- <-.
      exists [icmd]. cbn [map install_codes]. rewrite trace_tick, Ei.
      split; [reflexivity|]. exists 0%nat. cbn. repeat split; [lia|exact E0].
Qed.

(** What a run of one test comes to. *)
Lemma run_one_test_inv tcfg w res w' :
  run_one_test tcfg w = (Ok res, w') ->
  exists t evs,
    read_test tcfg = Ok t /\ r_name res = t_name t /\ trace w' = trace w ++ evs /\
    ((r_error res = Some "install-failed" /\
      test_runs evs = 0%nat /\
      r_returncode res <> 0%Z /\
      exists n, install_codes (trace w) evs = repeat (Some 0%Z) n ++ [Some (r_returncode res)])
     \/
     (r_error res <> Some "install-failed" /\
      Forall (fun c => c = Some 0%Z) (install_codes (trace w) evs) /\
      exists failed,
        attempt_codes (trace w) evs = failed ++ [r_returncode res] /\
        Forall (fun rc => rc <> 0%Z) failed /\
        (length failed <= Z.to_nat (t_retries t))%nat /\
        (r_returncode res <> 0%Z -> length failed = Z.to_nat (t_retries t)))).
Proof.
  unfold run_one_test. intros H.
  apply bind_inv_ok in H as (t & w0 & Ht & H). injection Ht as Ht <-.
  apply bind_inv_ok in H as (failed & w1 & Hi & H).
  assert (Hinst : exists raws, install_loop (t_name t) (t_type t) raws w = (Ok failed, w1)).
  { destruct (truthy (t_install t)).
    - apply bind_inv_ok in Hi as (raws & w0 & Hr & Hi). injection Hr as _ <-. eauto.
    - exists []. exact Hi. }
  destruct Hinst as (raws & Hinst).
  apply install_loop_inv in Hinst as (icmds & Ht1 & Ho).
  exists t. destruct failed as [r|].
  - injection H as <- <-. destruct Ho as (n & Hcodes & _ & Hrc & Hname & Herr).
    exists (map EInstall icmds). repeat split; try assumption.
    left. repeat split; try assumption; [apply (installs_no_attempt icmds (trace w))|eauto].
  - apply bind_inv_ok in H as (jx & w2 & Hj & H). injection Hj as _ <-.
    apply attempt_loop_inv in H
      as (evs & rcs & Ht2 & Hic & Hac & HF & Hlen & Hfail & Hname & Herr);
      [|f_equal; lia].
    exists (map EInstall icmds ++ evs). rewrite Ht1 in Ht2, Hic, Hac.
    split; [exact Ht|]. split; [exact Hname|].
    split; [now rewrite Ht2, <- app_assoc|].
    right. split; [exact Herr|].
    split.
    + rewrite install_codes_app, Hic, app_nil_r, Ho.
      clear. induction (length raws); constructor; auto.
    + exists rcs. rewrite attempt_codes_app, (proj1 (installs_no_attempt icmds (trace w))).
      cbn [app]. now repeat split.
Qed.

(** X4. An install command that fails skips the test.  A result marked
    [install-failed] comes from a run in which no test command was started:
    the install commands run before the last one exited with 0, the last
    one with the non-zero code the result reports. *)
Theorem install_failure_skips_test (tcfg : value) (w : world)
    (res : test_result) (w' : world) :
  run_one_test tcfg w = (Ok res, w') ->
  r_error res = Some "install-failed" ->
  exists evs n,
    trace w' = trace w ++ evs /\
    test_runs evs = 0%nat /\
    install_codes (trace w) evs = repeat (Some 0%Z) n ++ [Some (r_returncode res)] /\
    r_returncode res <> 0%Z.
Proof.
  intros H Herr. apply run_one_test_inv in H as (t & evs & _ & _ & Ht & [H|H]).
  - destruct H as (_ & Hruns & Hrc & n & Hcodes). now exists evs, n.
  - now destruct H as (Hne & _).
Qed.

(** X5. Retries are bounded, happen only after a failure, and the result is
    the last attempt.  In a run of one test that ends with a result which
    is not [install-failed]: every install command exited with 0; every
    attempt but the last returned non-zero; the result carries the return
    code of the last attempt; there were at most [retries] earlier
    attempts, and exactly [retries] when the result is a failure (a count
    below zero standing for zero). *)
Theorem test_attempts_bounded (tcfg : value) (t : test_decl) (w : world)
    (res : test_result) (w' : world) :
  read_test tcfg = Ok t ->
  run_one_test tcfg w = (Ok res, w') ->
  r_error res <> Some "install-failed" ->
  exists evs failed,
    trace w' = trace w ++ evs /\
    Forall (fun c => c = Some 0%Z) (install_codes (trace w) evs) /\
    attempt_codes (trace w) evs = failed ++ [r_returncode res] /\
    Forall (fun rc => rc <> 0%Z) failed /\
    (length failed <= Z.to_nat (t_retries t))%nat /\
    (r_returncode res <> 0%Z -> length failed = Z.to_nat (t_retries t)).
Proof.
  intros Hread H Herr.
  apply run_one_test_inv in H as (t' & evs & Hread' & _ & Ht & [H|H]).
  - now destruct H as (He & _).
  - rewrite Hread in Hread'. injection Hread' as <-.
    destruct H as (_ & Hi & failed & Ha & HF & Hlen & Hfail). now exists evs, failed.
Qed.

(** *** main: the tests and the teardown (run_all_tests.py, 366-384) *)

Lemma emits_parse_by_adapter P ttype junit_xml reply :
  emits P (parse_by_adapter ttype junit_xml reply).
Proof.
  intros w r w' H. exists []. rewrite app_nil_r. unfold parse_by_adapter in H.
  destruct (String.eqb ttype "junit").
  - destruct (truthy junit_xml).
    + destruct junit_xml; injection H as <- <-; repeat split; lia.
    + injection H as <- <-. repeat split; lia.
  - destruct (String.eqb ttype "playwright"); injection H as <- <-; repeat split; lia.
Qed.

Lemma emits_run_attempt name ttype cmd timeout_sec junit_xml :
  emits is_test_event (run_attempt name ttype cmd timeout_sec junit_xml).
Proof.
  unfold run_attempt. apply emits_bind; [now apply emits_time_time|]. intros t0.
  apply emits_bind; [now apply emits_run_test|]. intros reply.
  apply emits_bind; [apply emits_parse_by_adapter|]. intros p.
  apply emits_bind; [now apply emits_time_time|]. intros t1. apply emits_ret.
Qed.

Lemma emits_attempt_loop name ttype cmd timeout_sec retries junit_xml :
  forall fuel attempt,
    emits is_test_event
      (attempt_loop fuel attempt name ttype cmd timeout_sec retries junit_xml).
Proof.
  induction fuel as [|fuel IH]; intros attempt; cbn [attempt_loop];
    (apply emits_bind; [apply emits_run_attempt|]); intros res;
    destruct (r_returncode res =? 0)%Z; try apply emits_ret;
    destruct (retries <? attempt)%Z; try apply emits_ret.
  apply emits_bind; [apply emits_sleep; [lia|reflexivity]|]. intros _. apply IH.
Qed.

Lemma emits_install_loop name ttype :
  forall raws, emits is_test_event (install_loop name ttype raws).
Proof.
  induction raws as [|raw raws IH]; cbn [install_loop]; [apply emits_ret|].
  apply emits_bind; [apply emits_lift|]. intros icmd.
  apply emits_bind; [now apply emits_run_install|]. intros [rc out err|e].
  - destruct (rc =? 0)%Z; [exact IH|apply emits_ret].
  - apply emits_lift.
Qed.

Lemma emits_run_one_test tcfg : emits is_test_event (run_one_test tcfg).
Proof.
  unfold run_one_test. apply emits_bind; [apply emits_lift|]. intros t.
  apply emits_bind.
  - destruct (truthy (t_install t)); [|apply emits_ret].
    apply emits_bind; [apply emits_lift|]. intros icmds. apply emits_install_loop.
  - intros [res|]; [apply emits_ret|].
    apply emits_bind; [apply emits_lift|]. intros jx. apply emits_attempt_loop.
Qed.

Lemma emits_run_tests : forall tests results all_ok,
  emits is_test_event (run_tests tests results all_ok).
Proof.
  induction tests as [|tcfg tests IH]; intros results all_ok; cbn [run_tests];
    [apply emits_ret|].
  apply emits_bind; [apply emits_run_one_test|]. intros res. apply IH.
Qed.

Lemma emits_run_all cfg : emits is_test_event (run_all cfg).
Proof.
  unfold run_all. apply emits_bind; [apply emits_lift|]. intros tv.
  apply emits_bind; [apply emits_lift|]. intros tests. apply emits_run_tests.
Qed.

Lemma test_events_start_nothing evs :
  forallb is_test_event evs = true ->
  started_pids evs = [] /\ terminated_pids evs = [] /\
  forallb (fun e => negb (is_stop_event e)) evs = true.
Proof.
  induction evs as [|e evs IH]; [now repeat split|]. cbn [forallb]. intros H.
  apply andb_true_iff in H as [He Hr]. destruct (IH Hr) as (Hs & Ht & Hn).
  destruct e; try discriminate; cbn; now rewrite ?Hs, ?Ht, ?Hn.
Qed.

(** X6. Once the services are up, the teardown is certain.  When every
    service has come up healthy, then whatever the tests do (pass, fail or
    raise) the run ends with one teardown of the services: the trace is
    the events of the startup, then events of install and test commands
    only, then [terminate] for every started process, last started first,
    the grace period, and a poll of each with a kill for those still
    running.  An exception raised by the tests comes out of [main] after
    that. *)
Theorem tests_always_followed_by_teardown (cfg : value) (a : args) (w : world)
    (meta : list svc_meta) (procs : list proc) (w1 : world) :
  start_services cfg (a_max_service_wait a) w = (Ok (meta, procs, true), w1) ->
  exists evs_start evs_test exited,
    trace w1 = trace w ++ evs_start /\
    trace (snd (main cfg a w)) =
      trace w ++ evs_start ++ evs_test ++ stop_events procs exited /\
    forallb is_start_event evs_start = true /\
    forallb is_test_event evs_test = true /\
    length exited = length procs /\
    started_pids (evs_start ++ evs_test) = map snd procs /\
    terminated_pids (evs_start ++ evs_test ++ stop_events procs exited)
      = rev (map snd procs) /\
    match run_all cfg w1 with
    | (Ok _, _) => exists code rep, fst (main cfg a w) = Exited code rep
    | (Err e, _) => fst (main cfg a w) = Uncaught e
    end.
Proof.
  intros Hs. pose proof Hs as Hs0.
  apply start_services_inv in Hs as (d & svcs & -> & Hit & Hloop).
  apply start_loop_inv in Hloop
    as (nm & np & evs & w0 & -> & -> & _ & _ & Ht & _ & Hst & Hev & (-> & _ & _)).
  cbn [app] in *.
  rewrite (main_healthy _ _ _ _ _ _ Hs0).
  destruct (run_all (VDict d) w0) as [r w2] eqn:Er.
  destruct (emits_run_all _ _ _ _ Er) as (evt & Ht2 & Hevt & _).
  destruct (stop_services_trace np w2) as (exited & Hlen & Ht3 & _).
  destruct (test_events_start_nothing _ Hevt) as (Hs1 & Ht1 & _).
  assert (Hstarted : started_pids (evs ++ evt) = map snd np)
    by (now rewrite started_pids_app, Hs1, app_nil_r).
  assert (Hterm : terminated_pids (evs ++ evt ++ stop_events np exited) = rev (map snd np)).
  { rewrite !terminated_pids_app, Ht1, stop_events_terminated by exact Hlen.
    assert (terminated_pids evs = []) as ->.
    { clear -Hev. induction evs as [|e evs IH]; [reflexivity|].
      cbn [forallb] in Hev. apply andb_true_iff in Hev as [He Hr].
      destruct e; try discriminate; cbn; now apply IH. }
    cbn [app]. now rewrite map_rev. }
  exists evs, evt, exited.
  assert (Htr : forall o, trace (snd (o : outcome, stop_services np w2)) =
                          trace w ++ evs ++ evt ++ stop_events np exited).
  { intros o. cbn [snd]. now rewrite Ht3, Ht2, Ht, <- !app_assoc. }
  destruct r as [[rs ok]|e].
  - rewrite Htr. repeat split; try assumption. cbn [fst]. eauto.
  - rewrite Htr. now repeat split.
Qed.

Lemma run_tests_named tests : forall results all_ok w rs ok w',
  run_tests tests results all_ok w = (Ok (rs, ok), w') ->
  exists new, rs = results ++ new /\
    Forall2 (fun tcfg r => exists t, read_test tcfg = Ok t /\ r_name r = t_name t)
            tests new.
Proof.
  induction tests as [|tcfg tests IH]; intros results all_ok w rs ok w' H.
  - injection H as <- <- <-. exists []. rewrite app_nil_r. split; [reflexivity|constructor].
  - cbn [run_tests] in H. apply bind_inv_ok in H as (res & w1 & Hr & H).
    apply IH in H as (new & -> & HF).
    apply run_one_test_inv in Hr as (t & evs & Hread & Hname & _).
    exists (res :: new). rewrite <- app_assoc. split; [reflexivity|].
    constructor; [now exists t|exact HF].
Qed.

(** X7. A failing test does not stop the run.  In a run that ends with a
    report in which every service is healthy, the results hold one entry
    for every declared test, in the declared order and under the declared
    name, whatever the return codes of the tests before it. *)
Theorem every_declared_test_is_reported (cfg : value) (a : args) (w : world)
    (code : Z) (rep : report) (w' : world) :
  main cfg a w = (Exited code rep, w') ->
  Forall (fun m => m_healthy m = true) (rep_services rep) ->
  exists d tests,
    cfg = VDict d /\ declared_tests d = Ok tests /\
    Forall2 (fun tcfg r => exists t, read_test tcfg = Ok t /\ r_name r = t_name t)
            tests (rep_results rep).
Proof.
  intros Hmain Hhealthy.
  destruct (start_services cfg (a_max_service_wait a) w) as [[[[meta procs] ok]|e] w1] eqn:Es.
  - pose proof Es as Es0.
    apply start_services_inv in Es as (d & svcs & -> & Hit & Hloop).
    apply start_loop_inv in Hloop
      as (nm & np & evs & w0 & -> & -> & _ & _ & _ & _ & _ & _ & Hok).
    cbn [app] in *. destruct ok.
    + destruct Hok as (-> & _ & _). rewrite (main_healthy _ _ _ _ _ _ Es0) in Hmain.
      destruct (run_all (VDict d) w0) as [[[rs okt]|e] w2] eqn:Er; [|discriminate].
      injection Hmain as _ <- _. cbn [rep_results].
      unfold run_all in Er.
      apply bind_inv_ok in Er as (tv & wa & Htv & Er). injection Htv as <- <-.
      apply bind_inv_ok in Er as (tests & wa & Ht & Er). injection Ht as Ht <-.
      apply run_tests_named in Er as (new & -> & HF).
      exists d, tests. now repeat split.
    + destruct Hok as (-> & init & me & -> & Hun & _).
      rewrite (main_unhealthy _ _ _ _ _ _ Es0) in Hmain.
      injection Hmain as _ <- _. cbn [rep_services] in Hhealthy.
      apply List.Forall_app in Hhealthy as [_ Hh].
      apply List.Forall_cons_iff in Hh as [Hh _]. congruence.
  - destruct cfg as [| | | | |d].
    1-5: unfold main, main_body, bind, lift, py_get in Hmain; discriminate.
    now rewrite (main_start_error _ _ _ _ _ Es) in Hmain.
Qed.

(** X8. A service that declares no healthcheck URL is taken to be healthy.
    It is started, given a grace period of one second, and recorded as
    healthy with a duration of at least that second; no request is made. *)
Theorem service_without_healthcheck (mw : Z) (svc : value) (s : service_decl)
    (p : pid) (w : world) :
  read_service mw svc = Ok s ->
  truthy (s_url s) = false ->
  popen_raises (trace w ++ [ETime; EPopen p (s_cmd s)]) = None ->
  exists me w',
    start_one mw svc p w = (Ok ((s_name s, p), me), w') /\
    m_name me = s_name s /\ m_healthy me = true /\
    (1000 <= m_duration_ms me)%Z /\
    trace w' = trace w ++ [ETime; EPopen p (s_cmd s); ESleep 1000; ETime].
Proof.
  intros Hs Hurl Hp. unfold start_one.
  rewrite (bind_lift_ok _ _ _ _ Hs). unfold bind at 1. unfold time_time at 1.
  unfold bind at 1. unfold popen.
  assert (trace (tick (EPopen p (s_cmd s)) (tick ETime w))
          = trace w ++ [ETime; EPopen p (s_cmd s)]) as Htr
    by (now rewrite !trace_tick, <- app_assoc).
  cbv zeta. rewrite Htr, Hp, Hurl.
  unfold bind, sleep, time_time, ret. cbv zeta.
  eexists. eexists. split; [reflexivity|]. cbn [m_name m_healthy m_duration_ms].
  split; [reflexivity|]. split; [reflexivity|]. split.
  - set (w2 := tick (EPopen p (s_cmd s)) (tick ETime w)).
    pose proof (now_tick (EPopen p (s_cmd s)) (tick ETime w)) as H1. fold w2 in H1.
    pose proof (now_tick (ESleep 1000) w2) as H2.
    set (w3 := {| trace := trace (tick (ESleep 1000) w2);
                  now := now (tick (ESleep 1000) w2) + 1000 |}).
    pose proof (now_tick ETime w3) as H3. cbn [now] in H3 |- *.
    subst w3. cbn [now] in H3. lia.
  - rewrite !trace_tick. cbn [trace]. rewrite ?trace_tick, <- ?app_assoc. reflexivity.
Qed.

End Orchestrator.

(** * Names of projects and stacks (generate_content.py, app.py)

    The generator derives the directory of a project from its topic
    ([slugify]), the API derives it from the name the user gave
    ([_slugify]), and a generated stack is saved under a name derived from
    the name asked for or from the topic.  A character is an [ascii]; which
    characters [str.strip] takes for white space and what [str.lower] does
    are left to the runtime. *)

(** ** Text operations *)

Definition is_dash (c : ascii) : bool := Ascii.eqb c "-"%char.

Definition is_underscore (c : ascii) : bool := Ascii.eqb c "_"%char.

(** The class [[a-z0-9]]. *)
Definition is_lower_alnum (c : ascii) : bool :=
  let n := nat_of_ascii c in
  (Nat.leb 97 n && Nat.leb n 122) || (Nat.leb 48 n && Nat.leb n 57).

(** [s.replace("+", " plus ")] *)
Fixpoint replace_plus (s : string) : string :=
  match s with
  | EmptyString => EmptyString
  | String c r =>
      if Ascii.eqb c "+"%char then " plus " +:+ replace_plus r
      else String c (replace_plus r)
  end.

(** [re.sub(r"[C]+", "-", s)] for a character class [C]: every maximal run
    of characters of the class becomes one dash.  [in_run] tells whether
    the character before was of the class. *)
Fixpoint sub_runs (cls : ascii -> bool) (in_run : bool) (s : string) : string :=
  match s with
  | EmptyString => EmptyString
  | String c r =>
      if cls c then
        if in_run then sub_runs cls true r else String "-"%char (sub_runs cls true r)
      else String c (sub_runs cls false r)
  end.

Definition re_sub_dash (cls : ascii -> bool) (s : string) : string := sub_runs cls false s.

(** [s.lstrip(chars)], [s.rstrip(chars)] and [s.strip(chars)] *)
Fixpoint lstrip (drop : ascii -> bool) (s : string) : string :=
  match s with
  | EmptyString => EmptyString
  | String c r => if drop c then lstrip drop r else s
  end.

Fixpoint rstrip (drop : ascii -> bool) (s : string) : string :=
  match s with
  | EmptyString => EmptyString
  | String c r =>
      match rstrip drop r with
      | EmptyString => if drop c then EmptyString else String c EmptyString
      | r' => String c r'
      end
  end.

Definition strip (drop : ascii -> bool) (s : string) : string := rstrip drop (lstrip drop s).

(** ** Shapes of names *)

Fixpoint all_chars (p : ascii -> bool) (s : string) : bool :=
  match s with
  | EmptyString => true
  | String c r => p c && all_chars p r
  end.

Definition starts_with (p : ascii -> bool) (s : string) : bool :=
  match s with
  | EmptyString => false
  | String c _ => p c
  end.

Fixpoint ends_with (p : ascii -> bool) (s : string) : bool :=
  match s with
  | EmptyString => false
  | String c EmptyString => p c
  | String _ r => ends_with p r
  end.

(** The characters of a slug of the generator, and of a slug of the API. *)
Definition slug_char (c : ascii) : bool := is_lower_alnum c || is_dash c.

Definition api_slug_char (c : ascii) : bool :=
  is_lower_alnum c || is_underscore c || is_dash c.

(** A directory name that is safe to join to a path: it is not empty, has
    only the characters allowed, and has a dash neither at an end nor
    twice in a row. *)
Definition well_formed_slug (allowed : ascii -> bool) (s : string) : Prop :=
  s <> EmptyString /\
  all_chars allowed s = true /\
  starts_with is_dash s = false /\
  ends_with is_dash s = false /\
  is_substring "--" s = false.

Section Names.

(** [str.isspace] on a character, and [str.lower]. *)
Variable py_isspace : ascii -> bool.
Variable py_lower : string -> string.

(** [s.strip()] *)
Definition py_strip (s : string) : string := strip py_isspace s.

(** ** slugify (generate_content.py, 49-53) *)

Definition slugify (s : string) : string :=
  let s := replace_plus (py_lower (py_strip s)) in
  let s := re_sub_dash (fun c => negb (is_lower_alnum c)) s in
  let s := strip is_dash (re_sub_dash is_dash s) in
  if String.eqb s "" then "project" else s.

(** ** _slugify (app.py, 77-83) *)

Definition _slugify (s : string) : string :=
  let s := replace_plus (py_lower (py_strip s)) in
  let s := re_sub_dash
             (fun c => negb (is_lower_alnum c || is_dash c || is_underscore c)) s in
  let s := strip is_dash (re_sub_dash is_dash s) in
  if String.eqb s "" then "project" else s.

(** ** The name of a generated stack (generate_content.py, 311-313, 335-344) *)

Definition role_from_topic (topic : string) : string :=
  let t := py_lower topic in
  if is_substring "flask" t then "flask"
  else if is_substring "fastapi" t then "fastapi"
  else if is_substring "spring" t then "spring"
  else if is_substring "express" t then "express"
  else if is_substring "react" t then "react"
  else if is_substring "vue" t then "vue"
  else if is_substring "svelte" t then "svelte"
  else "generic".

(** [x or y] on strings *)
Definition str_or (x y : string) : string := if String.eqb x "" then y else x.

(** [base_name] of [load_or_autogen_template]. *)
Definition stack_name (kind topic : string) (name : option string) : string :=
  let auto := kind +:+ "-auto" in
  let given := match name with Some n => n | None => EmptyString end in
  let base_name := py_lower (str_or given (str_or (role_from_topic topic) auto)) in
  str_or (strip is_dash
            (re_sub_dash (fun c => negb (is_lower_alnum c || is_dash c)) base_name))
         auto.

(** ** Lemmas on the text operations *)

Lemma is_dash_eq c : is_dash c = true -> c = "-"%char.
Proof. apply Ascii.eqb_eq. Qed.

Lemma starts_with_lstrip drop s : starts_with drop (lstrip drop s) = false.
Proof.
  induction s as [|c r IH]; [reflexivity|]. cbn [lstrip].
  destruct (drop c) eqn:E; [exact IH|exact E].
Qed.

Lemma starts_with_rstrip drop s :
  starts_with drop s = false -> starts_with drop (rstrip drop s) = false.
Proof.
  destruct s as [|c r]; [reflexivity|]. cbn [starts_with rstrip]. intros H.
  destruct (rstrip drop r); [now rewrite H|exact H].
Qed.

Lemma ends_with_rstrip drop s : ends_with drop (rstrip drop s) = false.
Proof.
  induction s as [|c r IH]; [reflexivity|]. cbn [rstrip].
  destruct (rstrip drop r) as [|c' r'] eqn:Er.
  - destruct (drop c) eqn:E; [reflexivity|exact E].
  - exact IH.
Qed.

Lemma all_chars_lstrip p drop s : all_chars p s = true -> all_chars p (lstrip drop s) = true.
Proof.
  induction s as [|c r IH]; [reflexivity|]. cbn [lstrip]. intros H.
  destruct (drop c); [|exact H]. cbn [all_chars] in H.
  apply andb_true_iff in H as [_ H]. now apply IH.
Qed.

Lemma all_chars_rstrip p drop s : all_chars p s = true -> all_chars p (rstrip drop s) = true.
Proof.
  induction s as [|c r IH]; [reflexivity|]. cbn [all_chars rstrip]. intros H.
  apply andb_true_iff in H as [Hc Hr]. specialize (IH Hr).
  destruct (rstrip drop r) as [|c' r'].
  - destruct (drop c); [reflexivity|]. cbn. now rewrite Hc.
  - cbn [all_chars] in *. now rewrite Hc, IH.
Qed.

Lemma lstrip_fixed drop s : starts_with drop s = false -> lstrip drop s = s.
Proof. destruct s as [|c r]; [reflexivity|]. cbn. now intros ->. Qed.

Lemma rstrip_fixed drop s : ends_with drop s = false -> rstrip drop s = s.
Proof.
  induction s as [|c r IH]; [reflexivity|]. intros H. cbn [rstrip].
  destruct r as [|c' r'].
  - cbn in *. now rewrite H.
  - rewrite IH by exact H. reflexivity.
Qed.

Lemma strip_fixed drop s :
  starts_with drop s = false -> ends_with drop s = false -> strip drop s = s.
Proof. intros H1 H2. unfold strip. now rewrite lstrip_fixed, rstrip_fixed. Qed.

Lemma starts_with_chars (p drop : ascii -> bool) s :
  (forall c, p c = true -> drop c = false) ->
  all_chars p s = true -> starts_with drop s = false.
Proof.
  intros Hp. destruct s as [|c r]; [reflexivity|]. cbn. intros H.
  apply andb_true_iff in H as [Hc _]. now apply Hp.
Qed.

Lemma ends_with_chars (p drop : ascii -> bool) s :
  (forall c, p c = true -> drop c = false) ->
  all_chars p s = true -> ends_with drop s = false.
Proof.
  intros Hp. induction s as [|c r IH]; [reflexivity|]. cbn [all_chars]. intros H.
  apply andb_true_iff in H as [Hc Hr]. destruct r as [|c' r'].
  - cbn. now apply Hp.
  - now apply IH.
Qed.

Lemma replace_plus_fixed p s :
  p "+"%char = false -> all_chars p s = true -> replace_plus s = s.
Proof.
  intros Hp. induction s as [|c r IH]; [reflexivity|]. cbn [all_chars replace_plus].
  intros H. apply andb_true_iff in H as [Hc Hr].
  destruct (Ascii.eqb c "+") eqn:E.
  - apply Ascii.eqb_eq in E. congruence.
  - now rewrite IH.
Qed.

Lemma sub_runs_chars (cls allowed : ascii -> bool) :
  (forall c, cls c = false -> allowed c = true) -> allowed "-"%char = true ->
  forall s b, all_chars allowed (sub_runs cls b s) = true.
Proof.
  intros Hkeep Hdash. induction s as [|c r IH]; intros b; [reflexivity|].
  cbn [sub_runs]. destruct (cls c) eqn:Ec.
  - destruct b; [apply IH|]. cbn [all_chars]. now rewrite Hdash, IH.
  - cbn [all_chars]. now rewrite (Hkeep _ Ec), IH.
Qed.

(** A run of characters of the class alone leaves at most one dash. *)
Lemma sub_runs_all_class cls : forall s b,
  all_chars cls s = true ->
  sub_runs cls b s = EmptyString \/ sub_runs cls b s = "-".
Proof.
  induction s as [|c r IH]; intros b H; [now left|]. cbn [all_chars] in H.
  apply andb_true_iff in H as [Hc Hr]. cbn [sub_runs]. rewrite Hc.
  destruct b; [now apply IH|]. right.
  assert (Hin : forall t, all_chars cls t = true -> sub_runs cls true t = EmptyString).
  { clear. induction t as [|c t IHt]; [reflexivity|]. cbn [all_chars sub_runs].
    intros H. apply andb_true_iff in H as [-> H]. now apply IHt. }
  now rewrite Hin.
Qed.

(** Text over words and dashes in which no dash follows a dash; [prev]
    tells whether the character before was a dash. *)
Fixpoint dashed (word : ascii -> bool) (prev : bool) (s : string) : bool :=
  match s with
  | EmptyString => true
  | String c r =>
      if word c then dashed word false r
      else is_dash c && negb prev && dashed word true r
  end.

Section Words.

Variable word : ascii -> bool.
Hypothesis word_not_dash : forall c, word c = true -> is_dash c = false.

Lemma collapse_dashed : forall s b,
  all_chars (fun c => word c || is_dash c) s = true ->
  dashed word b (sub_runs is_dash b s) = true.
Proof.
  induction s as [|c r IH]; intros b H; [reflexivity|].
  cbn [all_chars] in H. apply andb_true_iff in H as [Hc Hr].
  cbn [sub_runs]. destruct (is_dash c) eqn:Ed.
  - destruct b; [now apply IH|]. cbn [dashed].
    destruct (word "-"%char) eqn:Ew; [now apply word_not_dash in Ew|].
    cbn. now apply IH.
  - rewrite orb_false_r in Hc. cbn [dashed]. rewrite Hc. now apply IH.
Qed.

Lemma dashed_weaken b s : dashed word b s = true -> dashed word false s = true.
Proof.
  destruct s as [|c r]; [reflexivity|]. cbn [dashed].
  destruct (word c); [auto|]. intros H.
  apply andb_true_iff in H as [H Hr]. apply andb_true_iff in H as [-> _]. exact Hr.
Qed.

Lemma lstrip_dashed : forall s,
  dashed word false s = true -> dashed word false (lstrip is_dash s) = true.
Proof.
  induction s as [|c r IH]; intros H; [reflexivity|]. cbn [lstrip].
  destruct (is_dash c) eqn:Ed; [|exact H].
  cbn [dashed] in H. destruct (word c) eqn:Ew; [apply word_not_dash in Ew; congruence|].
  rewrite Ed in H. cbn in H. apply IH. now apply dashed_weaken in H.
Qed.

Lemma rstrip_dashed : forall s b,
  dashed word b s = true -> dashed word b (rstrip is_dash s) = true.
Proof.
  induction s as [|c r IH]; intros b H; [reflexivity|]. cbn [dashed] in H. cbn [rstrip].
  destruct (word c) eqn:Ew.
  - specialize (IH _ H). destruct (rstrip is_dash r) as [|c' r'].
    + rewrite (word_not_dash _ Ew). cbn. now rewrite Ew.
    + cbn [dashed] in *. now rewrite Ew.
  - apply andb_true_iff in H as [H Hr]. apply andb_true_iff in H as [Hd Hb].
    specialize (IH _ Hr). destruct (rstrip is_dash r) as [|c' r'].
    + now rewrite Hd.
    + cbn [dashed] in *. now rewrite Ew, Hd, Hb.
Qed.

Lemma dashed_chars : forall s b,
  dashed word b s = true -> all_chars (fun c => word c || is_dash c) s = true.
Proof.
  induction s as [|c r IH]; intros b H; [reflexivity|]. cbn [dashed all_chars] in *.
  destruct (word c); [cbn; now apply IH in H|].
  apply andb_true_iff in H as [H Hr]. apply andb_true_iff in H as [-> _].
  cbn. now apply IH in Hr.
Qed.

Lemma dashed_no_double : forall s b,
  dashed word b s = true -> is_substring "--" s = false.
Proof.
  induction s as [|c r IH]; intros b H; [reflexivity|].
  cbn [is_substring]. cbn [dashed] in H. rewrite prefix_cons.
  destruct (word c) eqn:Ew.
  - rewrite (IH _ H), orb_false_r.
    apply word_not_dash in Ew. unfold is_dash in Ew.
    rewrite Ascii.eqb_sym in Ew. now rewrite Ew.
  - apply andb_true_iff in H as [H Hr]. rewrite (IH _ Hr), orb_false_r.
    destruct r as [|c' r']; [now rewrite prefix_nil_r, andb_false_r|].
    rewrite prefix_cons, prefix_nil, andb_true_r. cbn [dashed] in Hr.
    destruct (word c') eqn:Ew'.
    + apply word_not_dash in Ew'. unfold is_dash in Ew'.
      rewrite Ascii.eqb_sym in Ew'. now rewrite Ew', andb_false_r.
    + now rewrite andb_false_r in Hr.
Qed.

(** Text without two dashes in a row is left alone by both substitutions,
    for a class that holds the dash and no word character. *)
Lemma sub_runs_dashed cls :
  (forall c, word c = true -> cls c = false) -> cls "-"%char = true ->
  forall s b, dashed word b s = true -> sub_runs cls b s = s.
Proof.
  intros Hw Hd. induction s as [|c r IH]; intros b H; [reflexivity|].
  cbn [dashed] in H. cbn [sub_runs]. destruct (word c) eqn:Ew.
  - rewrite (Hw _ Ew). now rewrite (IH _ H).
  - apply andb_true_iff in H as [H Hr]. apply andb_true_iff in H as [Hdash Hb].
    apply is_dash_eq in Hdash. subst c. rewrite Hd.
    destruct b; [discriminate|]. now rewrite (IH _ Hr).
Qed.

(** What the two substitutions and the final [strip] of the slug functions
    leave, for a first class that keeps word characters and dashes only. *)
Lemma slug_pipeline cls s :
  (forall c, cls c = false -> word c || is_dash c = true) ->
  let t := strip is_dash (re_sub_dash is_dash (re_sub_dash cls s)) in
  dashed word false t = true /\
  starts_with is_dash t = false /\ ends_with is_dash t = false.
Proof.
  intros Hkeep t. subst t. unfold strip, re_sub_dash.
  assert (H1 : all_chars (fun c => word c || is_dash c) (sub_runs cls false s) = true).
  { apply sub_runs_chars; [exact Hkeep|]. apply orb_true_r. }
  apply (collapse_dashed _ false) in H1. apply lstrip_dashed in H1.
  split; [now apply rstrip_dashed|].
  split; [apply starts_with_rstrip, starts_with_lstrip|apply ends_with_rstrip].
Qed.

Lemma dashed_well_formed t :
  t <> EmptyString -> dashed word false t = true ->
  starts_with is_dash t = false -> ends_with is_dash t = false ->
  well_formed_slug (fun c => word c || is_dash c) t.
Proof.
  intros Hne Hd Hs He. split; [exact Hne|].
  split; [now apply dashed_chars in Hd|]. split; [exact Hs|]. split; [exact He|].
  now apply dashed_no_double in Hd.
Qed.

End Words.

Lemma alnum_not_dash c : is_lower_alnum c = true -> is_dash c = false.
Proof.
  intros H. destruct (is_dash c) eqn:E; [|reflexivity].
  apply is_dash_eq in E. now subst c.
Qed.

Definition api_word (c : ascii) : bool := is_lower_alnum c || is_underscore c.

Lemma api_word_not_dash c : api_word c = true -> is_dash c = false.
Proof.
  intros H. destruct (is_dash c) eqn:E; [|reflexivity].
  apply is_dash_eq in E. now subst c.
Qed.

Lemma eqb_empty_false s : s <> EmptyString -> String.eqb s "" = false.
Proof. intros H. destruct s; [congruence|reflexivity]. Qed.

Lemma eqb_empty_true s : String.eqb s "" = true -> s = EmptyString.
Proof. now destruct s. Qed.

(** What [slugify] hands back, in the terms of the lemmas above. *)
Lemma slugify_dashed s :
  slugify s <> EmptyString /\ dashed is_lower_alnum false (slugify s) = true /\
  starts_with is_dash (slugify s) = false /\ ends_with is_dash (slugify s) = false.
Proof.
  unfold slugify.
  destruct (slug_pipeline is_lower_alnum alnum_not_dash
              (fun c => negb (is_lower_alnum c))
              (replace_plus (py_lower (py_strip s)))) as (Hd & Hs & He).
  { intros c Hc. apply negb_false_iff in Hc. now rewrite Hc. }
  cbv zeta in *.
  destruct (String.eqb _ "") eqn:E.
  - now repeat split.
  - split; [|now repeat split]. intros Hnil. rewrite Hnil in E. discriminate.
Qed.

(** X9. The directory of a project is a safe name.  Whatever the topic,
    [slugify] gives a name that is not empty, is made of lower-case ASCII
    letters, digits and dashes only (so that it holds no path separator and
    no dot), and has no dash at either end nor two in a row. *)
Theorem slugify_well_formed (s : string) : well_formed_slug slug_char (slugify s).
Proof.
  destruct (slugify_dashed s) as (Hne & Hd & Hs & He).
  exact (dashed_well_formed is_lower_alnum alnum_not_dash _ Hne Hd Hs He).
Qed.

(** X10. [slugify] is a normal form.  With a [str.lower] that leaves text of
    lower-case letters, digits and dashes as it is, and none of these
    characters taken for white space, a slug is its own slug. *)
Theorem slugify_idempotent (s : string) :
  (forall t, all_chars slug_char t = true -> py_lower t = t) ->
  (forall c, slug_char c = true -> py_isspace c = false) ->
  slugify (slugify s) = slugify s.
Proof.
  intros Hlow Hsp. destruct (slugify_dashed s) as (Hne & Hd & Hs & He).
  set (t := slugify s) in *.
  pose proof (dashed_chars is_lower_alnum _ _ Hd) as Hc. fold slug_char in Hc.
  unfold slugify at 1. unfold py_strip.
  rewrite (strip_fixed py_isspace t)
    by (first [now apply (starts_with_chars slug_char) | now apply (ends_with_chars slug_char)]).
  rewrite (Hlow _ Hc), (replace_plus_fixed slug_char) by (first [reflexivity|exact Hc]).
  unfold re_sub_dash.
  rewrite (sub_runs_dashed is_lower_alnum (fun c => negb (is_lower_alnum c)))
    by (first [now intros c ->|reflexivity|exact Hd]).
  rewrite (sub_runs_dashed is_lower_alnum is_dash)
    by (first [exact alnum_not_dash|reflexivity|exact Hd]).
  rewrite strip_fixed by assumption. now rewrite eqb_empty_false.
Qed.

(** X11. The default name.  A topic that is left without a lower-case
    letter, a digit or a plus sign once stripped and lowered (the empty
    topic, or punctuation alone) gets the name [project]. *)
Theorem slugify_default (s : string) :
  all_chars (fun c => negb (is_lower_alnum c) && negb (Ascii.eqb c "+"))
            (py_lower (py_strip s)) = true ->
  slugify s = "project".
Proof.
  intros H. unfold slugify.
  rewrite (replace_plus_fixed _ _ eq_refl H).
  assert (Hcls : all_chars (fun c => negb (is_lower_alnum c)) (py_lower (py_strip s)) = true).
  { revert H. generalize (py_lower (py_strip s)). induction s0 as [|c r IH]; [reflexivity|].
    cbn [all_chars]. intros H. apply andb_true_iff in H as [Hc Hr].
    apply andb_true_iff in Hc as [-> _]. now apply IH. }
  unfold re_sub_dash.
  destruct (sub_runs_all_class _ _ false Hcls) as [-> | ->]; reflexivity.
Qed.

(** X12. The project name of the API is a safe name.  Whatever name the
    user gives, [_slugify] gives one that is not empty, is made of
    lower-case ASCII letters, digits, underscores and dashes only, and has
    no dash at either end nor two in a row. *)
Theorem api_slugify_well_formed (s : string) : well_formed_slug api_slug_char (_slugify s).
Proof.
  unfold _slugify.
  destruct (slug_pipeline api_word api_word_not_dash
              (fun c => negb (is_lower_alnum c || is_dash c || is_underscore c))
              (replace_plus (py_lower (py_strip s)))) as (Hd & Hs & He).
  { intros c Hc. apply negb_false_iff in Hc. unfold api_word.
    destruct (is_lower_alnum c), (is_underscore c), (is_dash c); auto. }
  cbv zeta in *.
  destruct (String.eqb _ "") eqn:E.
  - repeat split; try reflexivity. discriminate.
  - apply (dashed_well_formed api_word api_word_not_dash); try assumption.
    intros Hnil. rewrite Hnil in E. discriminate.
Qed.

(** X13. A generated stack is saved under a safe name.  The name derived
    from the name asked for, or else from the topic, is the fallback
    [<kind>-auto] or a non-empty name of lower-case ASCII letters, digits
    and dashes with no dash at either end: a name asked for that holds
    path separators or dots cannot take the stack out of the templates
    directory. *)
Theorem stack_name_safe (kind topic : string) (name : option string) :
  stack_name kind topic name = kind +:+ "-auto" \/
  (stack_name kind topic name <> EmptyString /\
   all_chars slug_char (stack_name kind topic name) = true /\
   starts_with is_dash (stack_name kind topic name) = false /\
   ends_with is_dash (stack_name kind topic name) = false).
Proof.
  unfold stack_name. cbv zeta.
  set (b := py_lower _).
  set (t := strip is_dash _).
  unfold str_or.
  destruct (String.eqb t "") eqn:E; [now left|]. right.
  split; [intros Hnil; rewrite Hnil in E; discriminate|].
  subst t. unfold strip, re_sub_dash.
  split; [|split; [apply starts_with_rstrip, starts_with_lstrip|apply ends_with_rstrip]].
  apply all_chars_rstrip, all_chars_lstrip, sub_runs_chars; [|reflexivity].
  intros c Hc. apply negb_false_iff in Hc. exact Hc.
Qed.

End Names.

(** * Files of a template (generate_content.py, 88-115 and 453-464)

    The files of a stack template are written under the directory of the
    project, each at a path that [_normalize_relpath] derives from the key
    it is listed under. *)

Section Paths.

Variable py_isspace : ascii -> bool.
(** [repr], for the [str] of a content that is not text. *)
Variable py_repr : value -> string.

(** [kind_hint == "lit"] *)
Definition hint_is (kind_hint : option string) (lit : string) : bool :=
  match kind_hint with
  | Some k => String.eqb k lit
  | None => false
  end.

(** The text of [rel] once stripped, with slashes for backslashes and
    without leading [./]. *)
Definition relpath_text (r : string) : string :=
  strip_dot_slash (replace_backslash (py_strip py_isspace r)).

Definition _normalize_relpath (rel : value) (kind_hint : option string) : option string :=
  match rel with
  | VStr r =>
      if String.eqb (py_strip py_isspace r) "" then None
      else
        let s := relpath_text r in
        if String.prefix "/" s then None
        else if String.prefix "backend/" s || String.prefix "frontend/" s then Some s
        else if hint_is kind_hint "backend" then
          let candidate := "backend/" +:+ s in
          if is_safe_relpath candidate then Some candidate else None
        else if hint_is kind_hint "frontend" then
          let candidate := "frontend/" +:+ s in
          if is_safe_relpath candidate then Some candidate else None
        else None
  | _ => None
  end.

(** [tpl.get("files", {}) or {}] and its [items()] *)
Definition files_of (tpl : value) : result dict :=
  let? files := py_get tpl "files" (VDict []) in
  if truthy files then
    match files with VDict d => Ok d | _ => Err AttributeError end
  else Ok [].

(** What [write_files] does: the files written, as paths below the
    directory of the project with their text, in the order of the writes,
    and the two counters.  Writing a file is taken to succeed. *)
Record written : Type := {
  writes : list (string * string);
  wrote : nat;
  skipped : nat
}.

Definition write_one (kind_hint : string) (acc : written) (kv : string * value) : written :=
  let (rel, content) := kv in
  match _normalize_relpath (VStr rel) (Some kind_hint) with
  | Some norm =>
      if negb (String.eqb norm "") && is_safe_relpath norm then
        {| writes := writes acc ++ [(norm, py_str py_repr content)];
           wrote := S (wrote acc);
           skipped := skipped acc |}
      else {| writes := writes acc; wrote := wrote acc; skipped := S (skipped acc) |}
  | None => {| writes := writes acc; wrote := wrote acc; skipped := S (skipped acc) |}
  end.

Definition write_files (tpl : value) (kind_hint : string) : result written :=
  let? files := files_of tpl in
  Ok (fold_left (write_one kind_hint) files {| writes := []; wrote := 0; skipped := 0 |}).

(** ** Lemmas *)

Lemma safe_under_backend s : is_safe_relpath ("backend/" +:+ s) = true.
Proof. unfold is_safe_relpath. cbn [String.append]. now rewrite !prefix_cons, ?prefix_nil. Qed.

Lemma safe_under_frontend s : is_safe_relpath ("frontend/" +:+ s) = true.
Proof. unfold is_safe_relpath. cbn [String.append]. now rewrite !prefix_cons, ?prefix_nil. Qed.

Lemma prefix_append p s : String.prefix p s = true -> exists r, s = p +:+ r.
Proof.
  revert s. induction p as [|a p IH]; intros s H; [now exists s|].
  destruct s as [|b s]; [now rewrite prefix_nil_r in H|].
  rewrite prefix_cons in H. apply andb_true_iff in H as [Hab Hp].
  apply Ascii.eqb_eq in Hab. subst b. apply IH in Hp as (r & ->). now exists r.
Qed.

Lemma safe_of_rooted s :
  String.prefix "backend/" s || String.prefix "frontend/" s = true ->
  is_safe_relpath s = true.
Proof.
  intros H. apply orb_true_iff in H as [H|H]; apply prefix_append in H as (r & ->).
  - apply safe_under_backend.
  - apply safe_under_frontend.
Qed.

Fixpoint no_backslash (s : string) : bool :=
  match s with
  | EmptyString => true
  | String c r => negb (Ascii.eqb c (ascii_of_nat 92)) && no_backslash r
  end.

Lemma no_backslash_replace s : no_backslash (replace_backslash s) = true.
Proof.
  induction s as [|c r IH]; [reflexivity|]. cbn [replace_backslash no_backslash].
  rewrite IH, andb_true_r. destruct (Ascii.eqb c (ascii_of_nat 92)) eqn:E; [reflexivity|].
  now rewrite E.
Qed.

Lemma strip_dot_slash_cases s :
  (exists r, s = String "." (String "/" r) /\ strip_dot_slash s = strip_dot_slash r) \/
  (String.prefix "./" s = false /\ strip_dot_slash s = s).
Proof.
  destruct s as [|c s']; [right; split; reflexivity|].
  destruct (Ascii.eqb c ".") eqn:Ec.
  - apply Ascii.eqb_eq in Ec. subst c. destruct s' as [|c' r]; [right; split; reflexivity|].
    destruct (Ascii.eqb c' "/") eqn:Ec'.
    + apply Ascii.eqb_eq in Ec'. subst c'. left. exists r. split; reflexivity.
    + right. split.
      * rewrite !prefix_cons, (Ascii.eqb_sym "/" c'), Ec'. reflexivity.
      * destruct c' as [[] [] [] [] [] [] [] []]; try reflexivity. discriminate Ec'.
  - right. split; [now rewrite prefix_cons, Ascii.eqb_sym, Ec|].
    destruct c as [[] [] [] [] [] [] [] []]; try reflexivity. discriminate Ec.
Qed.

(** [strip_dot_slash] drops a prefix of [./] pairs, all there are. *)
Lemma strip_dot_slash_suffix : forall n s,
  String.length s <= n ->
  exists pre, s = pre +:+ strip_dot_slash s /\
    String.prefix "./" (strip_dot_slash s) = false.
Proof.
  induction n as [|n IH]; intros s Hn.
  - destruct s; [now exists EmptyString|cbn in Hn; lia].
  - destruct (strip_dot_slash_cases s) as [(r & -> & ->)|[Hp ->]].
    + destruct (IH r) as (pre & Hr & Hp); [cbn in Hn; lia|].
      exists (String "." (String "/" pre)). cbn [String.append]. now rewrite <- Hr.
    + now exists EmptyString.
Qed.

Lemma no_backslash_suffix a b : no_backslash (a +:+ b) = true -> no_backslash b = true.
Proof.
  induction a as [|c a IH]; [auto|]. cbn [String.append no_backslash]. intros H.
  apply andb_true_iff in H as [_ H]. now apply IH.
Qed.

Lemma no_backslash_strip_dot_slash s :
  no_backslash s = true -> no_backslash (strip_dot_slash s) = true.
Proof.
  destruct (strip_dot_slash_suffix _ s (Nat.le_refl _)) as (pre & Hs & _).
  intros H. rewrite Hs in H. now apply no_backslash_suffix in H.
Qed.

Lemma no_backslash_app a b :
  no_backslash a = true -> no_backslash b = true -> no_backslash (a +:+ b) = true.
Proof.
  induction a as [|c a IH]; intros Ha Hb; [exact Hb|]. cbn [String.append no_backslash] in *.
  apply andb_true_iff in Ha as [-> Ha]. now apply IH.
Qed.

Lemma no_backslash_relpath_text r : no_backslash (relpath_text r) = true.
Proof.
  unfold relpath_text.
  apply no_backslash_strip_dot_slash, no_backslash_replace.
Qed.


(** X14. A path that is accepted is under one of the two sides.  Whatever
    the key and the hint, the path [_normalize_relpath] gives passes
    [is_safe_relpath] (so it starts with [backend/] or [frontend/]) and
    holds no backslash. *)
Theorem normalize_relpath_safe (rel : value) (kind_hint : option string) (p : string) :
  _normalize_relpath rel kind_hint = Some p ->
  is_safe_relpath p = true /\
  (String.prefix "backend/" p || String.prefix "frontend/" p = true) /\
  no_backslash p = true.
Proof.
  unfold _normalize_relpath. destruct rel as [| | |r| |]; try discriminate. cbv zeta.
  destruct (String.eqb (py_strip py_isspace r) ""); [discriminate|].
  destruct (String.prefix "/" (relpath_text r)); [discriminate|].
  pose proof (no_backslash_relpath_text r) as Hnb.
  destruct (String.prefix "backend/" (relpath_text r) || String.prefix "frontend/" (relpath_text r))
    eqn:Eroot.
  - intros [= <-]. split; [now apply safe_of_rooted|]. now split.
  - destruct (hint_is kind_hint "backend").
    + rewrite safe_under_backend. intros [= <-].
      split; [apply safe_under_backend|]. split.
      * cbn [String.append]. now rewrite !prefix_cons, ?prefix_nil.
      * now apply (no_backslash_app "backend/" (relpath_text r)).
    + destruct (hint_is kind_hint "frontend"); [|discriminate].
      rewrite safe_under_frontend. intros [= <-].
      split; [apply safe_under_frontend|]. split.
      * cbn [String.append]. rewrite !prefix_cons, ?prefix_nil. apply orb_true_r.
      * now apply (no_backslash_app "frontend/" (relpath_text r)).
Qed.


Lemma write_one_counts hint acc kv :
  wrote acc = length (writes acc) ->
  let acc' := write_one hint acc kv in
  wrote acc' = length (writes acc') /\
  wrote acc' + skipped acc' = S (wrote acc + skipped acc) /\
  exists new, writes acc' = writes acc ++ new /\
    Forall (fun wr => is_safe_relpath (fst wr) = true /\ no_backslash (fst wr) = true) new.
Proof.
  intros Hw. destruct kv as [rel content]. cbn [write_one].
  destruct (_normalize_relpath (VStr rel) (Some hint)) as [norm|] eqn:En.
  - apply normalize_relpath_safe in En as (Hsafe & _ & Hnb).
    destruct (negb (String.eqb norm "") && is_safe_relpath norm); cbn.
    + rewrite length_app. cbn. split; [lia|]. split; [lia|].
      exists [(norm, py_str py_repr content)]. split; [reflexivity|].
      constructor; [now split|constructor].
    + split; [exact Hw|]. split; [lia|]. exists []. rewrite app_nil_r.
      split; [reflexivity|constructor].
  - cbn. split; [exact Hw|]. split; [lia|]. exists []. rewrite app_nil_r.
    split; [reflexivity|constructor].
Qed.

Lemma write_loop_counts hint files : forall acc,
  wrote acc = length (writes acc) ->
  let acc' := fold_left (write_one hint) files acc in
  wrote acc' = length (writes acc') /\
  wrote acc' + skipped acc' = length files + (wrote acc + skipped acc) /\
  exists new, writes acc' = writes acc ++ new /\
    Forall (fun wr => is_safe_relpath (fst wr) = true /\ no_backslash (fst wr) = true) new.
Proof.
  induction files as [|kv files IH]; intros acc Hw; cbn [fold_left length].
  - split; [exact Hw|]. split; [reflexivity|]. exists []. rewrite app_nil_r.
    split; [reflexivity|constructor].
  - destruct (write_one_counts hint acc kv Hw) as (Hw1 & Hc1 & new1 & Hn1 & HF1).
    destruct (IH _ Hw1) as (Hw2 & Hc2 & new2 & Hn2 & HF2).
    split; [exact Hw2|]. split; [lia|].
    exists (new1 ++ new2). rewrite Hn2, Hn1, <- app_assoc. split; [reflexivity|].
    now apply List.Forall_app.
Qed.

(** X16. Every file of a template is written under a side of the project or
    counted as skipped.  When [write_files] returns, the two counters add
    up to the number of files the template lists, [wrote] is the number of
    files written, and each of them is written at a path that passes
    [is_safe_relpath] and holds no backslash. *)
Theorem write_files_accounted (tpl : value) (kind_hint : string) (out : written) :
  write_files tpl kind_hint = Ok out ->
  exists files,
    files_of tpl = Ok files /\
    wrote out + skipped out = length files /\
    wrote out = length (writes out) /\
    Forall (fun wr => is_safe_relpath (fst wr) = true /\ no_backslash (fst wr) = true)
           (writes out).
Proof.
  unfold write_files. destruct (files_of tpl) as [files|e]; [|discriminate].
  cbn [rbind]. intros [= <-]. exists files. split; [reflexivity|].
  destruct (write_loop_counts kind_hint files {| writes := []; wrote := 0; skipped := 0 |} eq_refl)
    as (Hw & Hc & new & Hn & HF).
  cbn [writes wrote skipped app] in *. split; [lia|]. split; [exact Hw|].
  now rewrite Hn.
Qed.

End Paths.

(** * Validation of a stack template (generate_content.py, 117-120, 220-236
      and 266-284) *)

Section Validate.

Variable py_repr : value -> string.
(** [yaml.safe_load] of a text, and the text of an exception in a message. *)
Variable yaml_load : string -> result value.
Variable exn_text : exn -> string.
(** The reply of the model to the prompt for a stack of a role on a topic. *)
Variable gen_openai : string -> string -> string.

Definition is_str (v : value) : bool :=
  match v with VStr _ => true | _ => false end.

(** [isinstance(x, list) and all(isinstance(s, str) for s in x)] *)
Definition is_str_list (x : value) : bool :=
  match x with
  | VList xs => forallb is_str xs
  | _ => false
  end.

Definition norm_cmd_list (x : value) : result value :=
  if is_str_list x then Ok x else Err (ValueError "command must be a list[str]").

(** [all(k in e for k in keys)]: the first key that is missing ends it. *)
Fixpoint has_all_keys (keys : list string) (e : value) : result bool :=
  match keys with
  | [] => Ok true
  | k :: rest =>
      let? has := py_contains k e in
      if has then has_all_keys rest e else Ok false
  end.

(** [e["key"]]: only a dict can be subscripted with text. *)
Definition py_subscript (e : value) (key : string) : result value :=
  match e with
  | VDict d =>
      match dict_get d key with
      | Some v => Ok v
      | None => Err KeyError
      end
  | _ => Err TypeError
  end.

(** The body of the two loops over the entries. *)
Definition check_entry (kind what : string) (keys : list string) (cmd_key : string)
    (e : value) : result unit :=
  let? ok := has_all_keys keys e in
  if ok then
    let? c := py_subscript e cmd_key in
    let? _ := norm_cmd_list c in
    Ok tt
  else Err (ValueError (kind +:+ " " +:+ what +:+ " missing fields: " +:+ py_str py_repr e)).

(** [if key not in tpl or not isinstance(tpl[key], list): raise] *)
Definition check_list (kind : string) (d : dict) (key : string) : result unit :=
  match dict_get d key with
  | Some (VList _) => Ok tt
  | _ => Err (ValueError (kind +:+ " template missing/invalid '" +:+ key +:+ "' list"))
  end.

Definition service_keys : list string := ["name"; "cwd"; "start"].
Definition test_keys : list string := ["name"; "type"; "cwd"; "cmd"].

Definition validate_template (kind : string) (tpl : value) : result unit :=
  match tpl with
  | VDict d =>
      let? _ := check_list kind d "services" in
      let? _ := check_list kind d "tests" in
      let? svcs := py_iter (match dict_get d "services" with Some v => v | None => VList [] end) in
      let? _ := rmap (check_entry kind "service" service_keys "start") svcs in
      let? tests := py_iter (match dict_get d "tests" with Some v => v | None => VList [] end) in
      let? _ := rmap (check_entry kind "test" test_keys "cmd") tests in
      Ok tt
  | _ => Err (ValueError (kind +:+ " template must be a dict"))
  end.


Definition newline : string := String (ascii_of_nat 10) EmptyString.


(** ** What a valid template is *)

(** An entry that passes: a dict with the keys asked for, whose command is
    a list of text. *)
Definition entry_valid (keys : list string) (cmd_key : string) (e : value) : Prop :=
  exists d c,
    e = VDict d /\
    Forall (fun k => dict_has d k = true) keys /\
    dict_get d cmd_key = Some c /\ is_str_list c = true.

Definition template_valid (tpl : value) : Prop :=
  exists d svcs tests,
    tpl = VDict d /\
    dict_get d "services" = Some (VList svcs) /\
    dict_get d "tests" = Some (VList tests) /\
    Forall (entry_valid service_keys "start") svcs /\
    Forall (entry_valid test_keys "cmd") tests.

Lemma has_all_keys_dict keys d :
  has_all_keys keys (VDict d) = Ok (forallb (dict_has d) keys).
Proof.
  induction keys as [|k keys IH]; [reflexivity|]. cbn [has_all_keys py_contains rbind forallb].
  destruct (dict_has d k); [exact IH|reflexivity].
Qed.

Lemma check_entry_ok kind what keys cmd_key e :
  In cmd_key keys ->
  (check_entry kind what keys cmd_key e = Ok tt <-> entry_valid keys cmd_key e).
Proof.
  intros Hin. unfold check_entry, entry_valid. split.
  - intros H. destruct (has_all_keys keys e) as [[|]|] eqn:Ek; try discriminate.
    cbn [rbind] in H.
    destruct e as [| | | | |d]; try discriminate.
    rewrite has_all_keys_dict in Ek. injection Ek as Ek.
    cbn [py_subscript] in H. destruct (dict_get d cmd_key) as [c|] eqn:Ec; [|discriminate].
    cbn [rbind] in H. unfold norm_cmd_list in H.
    destruct (is_str_list c) eqn:Es; [|discriminate].
    exists d, c. split; [reflexivity|]. split; [|now split].
    apply List.Forall_forall. intros k Hk.
    rewrite forallb_forall in Ek. now apply Ek.
  - intros (d & c & -> & HF & Hc & Hs). rewrite has_all_keys_dict.
    assert (forallb (dict_has d) keys = true) as ->.
    { apply forallb_forall. intros k Hk. rewrite List.Forall_forall in HF. now apply HF. }
    cbn [rbind py_subscript]. rewrite Hc. cbn [rbind]. unfold norm_cmd_list.
    now rewrite Hs.
Qed.

Lemma rmap_check_ok f (P : value -> Prop) :
  (forall e, f e = Ok tt <-> P e) ->
  forall xs, (exists us, rmap f xs = Ok us) <-> Forall P xs.
Proof.
  intros Hf. induction xs as [|x xs IH]; cbn [rmap].
  - split; [constructor|now exists []].
  - split.
    + intros (us & H). destruct (f x) as [[]|] eqn:Ex; [|discriminate].
      cbn [rbind] in H. destruct (rmap f xs) as [vs|] eqn:Er; [|discriminate].
      constructor; [now apply Hf|]. apply IH. now exists vs.
    + intros H. apply List.Forall_cons_iff in H as [Hx Hxs].
      apply Hf in Hx. apply IH in Hxs as (vs & ->). rewrite Hx. cbn [rbind]. eauto.
Qed.

(** X17. What [validate_template] accepts.  A template passes exactly when
    it is a dict whose [services] and [tests] are lists, every service is
    a dict with [name], [cwd] and a [start] that is a list of text, and
    every test is a dict with [name], [type], [cwd] and a [cmd] that is a
    list of text.  An entry that is not a dict never passes, and the
    values of [cwd] and of a healthcheck are not looked at. *)
Theorem validate_template_accepts (kind : string) (tpl : value) :
  validate_template kind tpl = Ok tt <-> template_valid tpl.
Proof.
  unfold validate_template, template_valid. split.
  - intros H. destruct tpl as [| | | | |d]; try discriminate.
    unfold check_list in H.
    destruct (dict_get d "services") as [[| | | |svcs|]|] eqn:Es; try discriminate.
    destruct (dict_get d "tests") as [[| | | |tests|]|] eqn:Et; try discriminate.
    cbn [rbind py_iter] in H.
    destruct (rmap _ svcs) as [us|] eqn:E1; [|discriminate]. cbn [rbind] in H.
    destruct (rmap _ tests) as [vs|] eqn:E2; [|discriminate].
    exists d, svcs, tests. repeat split; try reflexivity; try assumption.
    + apply (rmap_check_ok _ _ (fun e => check_entry_ok kind "service" service_keys "start" e
                                           ltac:(cbn; auto))). eauto.
    + apply (rmap_check_ok _ _ (fun e => check_entry_ok kind "test" test_keys "cmd" e
                                           ltac:(cbn; auto))). eauto.
  - intros (d & svcs & tests & -> & Hs & Ht & HFs & HFt).
    unfold check_list. rewrite Hs, Ht. cbn [rbind py_iter].
    apply (rmap_check_ok _ _ (fun e => check_entry_ok kind "service" service_keys "start" e
                                         ltac:(cbn; auto))) in HFs as (us & ->).
    apply (rmap_check_ok _ _ (fun e => check_entry_ok kind "test" test_keys "cmd" e
                                         ltac:(cbn; auto))) in HFt as (vs & ->).
    reflexivity.
Qed.

Lemma is_str_list_cmd c : is_str_list c = true -> exists cmd, to_cmd_list c = Ok cmd.
Proof.
  destruct c as [| | | |xs|]; try discriminate. cbn [is_str_list to_cmd_list].
  induction xs as [|x xs IH]; [now exists []|]. cbn [forallb]. intros H.
  apply andb_true_iff in H as [Hx Hxs]. destruct x; try discriminate.
  destruct (IH Hxs) as (cmd & Hc). cbn [mapM] in *.
  destruct (mapM _ xs) as [l|]; [|discriminate]. cbn. eauto.
Qed.


End Validate.

(** * Composition of the test plan of a project
      (generate_content.py, 412-448)

    [load_and_compose_test_config] reads the config of a project, merges
    the stack configs it extends, applies the overrides of the project,
    resolves the variables and expands the paths.  The files are read
    through [load_yaml]: the value a path parses to, or the exception of
    the reading or of the parsing. *)

Section Compose.

Variable py_repr : value -> string.
Variable environ : string -> option string.
Variable load_yaml : string -> result value.

(** [proj_cfg.get("extends", [])], a single path wrapped in a list, and
    the iteration over it. *)
Definition extends_of (proj_cfg : value) : result (list value) :=
  let? base_files := py_get proj_cfg "extends" (VList []) in
  match base_files with
  | VStr _ => Ok [base_files]
  | _ => py_iter base_files
  end.

(** The body of the loop over the stacks: [Path(bf)] needs text. *)
Definition merge_base (merged : value) (bf : value) : result value :=
  match bf with
  | VStr path => let? base := load_yaml path in Ok (deep_merge merged base)
  | _ => Err TypeError
  end.

Fixpoint merge_bases (merged : value) (base_files : list value) : result value :=
  match base_files with
  | [] => Ok merged
  | bf :: rest => let? merged' := merge_base merged bf in merge_bases merged' rest
  end.

(** [v or {}] *)
Definition or_empty_dict (v : value) : value := if truthy v then v else VDict [].

(** [d.update(other)] *)
Definition dict_update (d other : dict) : dict :=
  fold_left (fun acc kv => dict_set (fst kv) (snd kv) acc) other d.

(** [{**base_vars, **proj_vars, "__PROJECT__": slug, "SLUG": slug}]: only a
    mapping can be unpacked. *)
Definition combine_vars (base_vars proj_vars : value) (slug : string) : result dict :=
  match base_vars, proj_vars with
  | VDict b, VDict p =>
      Ok (dict_set "SLUG" (VStr slug)
            (dict_set "__PROJECT__" (VStr slug) (dict_update (dict_update [] b) p)))
  | _, _ => Err TypeError
  end.

(** The keys of the overrides that are merged as they are. *)
Definition plain_override (kv : string * value) : bool :=
  negb (String.eqb (fst kv) "services" || String.eqb (fst kv) "tests"
        || String.eqb (fst kv) "add_tests").

(** [d.setdefault(k, v)] *)
Definition setdefault (k : string) (v : value) (d : dict) : dict :=
  if dict_has d k then d else dict_set k v d.

Definition get_or (d : dict) (k : string) (default : value) : value :=
  match dict_get d k with Some v => v | None => default end.

Definition load_and_compose_test_config (project_yaml_path slug : string) : result value :=
  let? proj_cfg := load_yaml project_yaml_path in
  let? base_files := extends_of proj_cfg in
  let? project := py_get proj_cfg "project" (VStr slug) in
  let? merged := merge_bases (VDict [("version", VInt 1); ("project", project)]) base_files in
  let? base_vars := py_get merged "vars" (VDict []) in
  let? proj_vars := py_get proj_cfg "vars" (VDict []) in
  let? vars_combined := combine_vars (or_empty_dict base_vars) (or_empty_dict proj_vars) slug in
  let? ov0 := py_get proj_cfg "overrides" (VDict []) in
  let? ov := match or_empty_dict ov0 with
             | VDict d => Ok d
             | _ => Err AttributeError
             end in
  match deep_merge merged (VDict (List.filter plain_override ov)) with
  | VDict m =>
      let? services := merge_named_list (get_or m "services" (VList []))
                         (get_or_none ov "services") VNull in
      let m := dict_set "services" (VList services) m in
      let? tests := merge_named_list (get_or m "tests" (VList []))
                      (get_or_none ov "tests") (get_or_none ov "add_tests") in
      let m := dict_set "tests" (VList tests) m in
      let? expanded :=
        _expand_project_paths py_repr (resolve_vars py_repr environ (VDict m) vars_combined)
          slug in
      match expanded with
      | VDict m =>
          Ok (VDict (setdefault "artifacts_dir" (VStr ("artifacts/" +:+ slug))
                       (setdefault "report"
                          (VStr ("artifacts/" +:+ slug +:+ "/test_report.json")) m)))
      | _ => Err AttributeError
      end
  | _ => Err AttributeError
  end.

(** ** The variables *)

Lemma dict_update_get other : forall d k,
  distinct (map fst other) = true ->
  dict_get (dict_update d other) k =
  match dict_get other k with Some v => Some v | None => dict_get d k end.
Proof.
  unfold dict_update. induction other as [|[k0 v0] other IH]; intros d k Hd; [reflexivity|].
  cbn [map fst distinct] in Hd. apply andb_true_iff in Hd as [Hk0 Hd].
  cbn [fold_left fst snd dict_get]. rewrite IH by exact Hd.
  destruct (String.eqb_spec k k0) as [->|Hne].
  - assert (dict_get other k0 = None) as ->.
    { apply negb_true_iff in Hk0. clear -Hk0.
      induction other as [|[k1 v1] other IH]; [reflexivity|].
      cbn [map fst existsb] in Hk0. apply orb_false_iff in Hk0 as [H1 H2].
      cbn [dict_get]. rewrite H1. now apply IH. }
    apply dict_get_set_eq.
  - destruct (dict_get other k); [reflexivity|]. now apply dict_get_set_ne.
Qed.

(** X19. Which value a variable gets.  In the variables a plan is resolved
    with, [SLUG] and [__PROJECT__] are the slug whatever the configs say;
    any other variable has the value the project gives it, or else the one
    the stacks give it.  A reference then takes the value of the variable
    from there, or else from the environment, or else stays as it is. *)
Theorem combined_vars_precedence (b p : dict) (slug : string) (vars_combined : dict) :
  distinct (map fst b) = true -> distinct (map fst p) = true ->
  combine_vars (VDict b) (VDict p) slug = Ok vars_combined ->
  forall k,
    dict_get vars_combined k =
      (if String.eqb k "SLUG" || String.eqb k "__PROJECT__" then Some (VStr slug)
       else match dict_get p k with
            | Some v => Some v
            | None => dict_get b k
            end) /\
    repl py_repr environ vars_combined k =
      match dict_get vars_combined k with
      | Some v => py_str py_repr v
      | None => match environ k with
                | Some e => e
                | None => "${" +:+ k +:+ "}"
                end
      end.
Proof.
  intros Hb Hp [= <-] k. split; [|reflexivity].
  destruct (String.eqb_spec k "SLUG") as [->|H1]; [apply dict_get_set_eq|].
  rewrite dict_get_set_ne by congruence.
  destruct (String.eqb_spec k "__PROJECT__") as [->|H2]; [apply dict_get_set_eq|].
  rewrite dict_get_set_ne by congruence. cbn [orb].
  rewrite !dict_update_get by assumption.
  now destruct (dict_get p k), (dict_get b k).
Qed.

(** ** The entries of the composed plan *)

Lemma rmap_forall2 {A B} (f : A -> result B) : forall xs ys,
  rmap f xs = Ok ys -> Forall2 (fun x y => f x = Ok y) xs ys.
Proof.
  induction xs as [|x xs IH]; intros ys H; cbn [rmap] in H.
  - injection H as <-. constructor.
  - destruct (f x) as [y|] eqn:Ex; [|discriminate]. cbn [rbind] in H.
    destruct (rmap f xs) as [ys'|] eqn:Er; [|discriminate]. injection H as <-.
    constructor; [exact Ex|now apply IH].
Qed.

Lemma dict_get_map (f : value -> value) d k :
  dict_get (map (fun kv => (fst kv, f (snd kv))) d) k = option_map f (dict_get d k).
Proof.
  induction d as [|[k0 v0] d IH]; [reflexivity|]. cbn [map dict_get fst snd].
  destruct (String.eqb k k0); [reflexivity|exact IH].
Qed.

Lemma resolve_vars_falsy vars_map v :
  truthy v = false -> truthy (resolve_vars py_repr environ v vars_map) = false.
Proof.
  destruct v as [|b|n|s|xs|kvs]; cbn [truthy resolve_vars]; try (intros H; exact H).
  - intros H. apply negb_false_iff, eqb_empty_true in H. subst s.
    now rewrite sub_vars_nil.
  - now destruct xs.
  - now destruct kvs.
Qed.

Lemma merge_named_list_enabled b o a out :
  merge_named_list b o a = Ok out -> Forall (fun x => disabled x = Ok false) out.
Proof.
  unfold merge_named_list. intros H.
  destruct (items_or_empty b) as [base|]; [|discriminate]. cbn [rbind] in H.
  destruct (build_idx base 0 []) as [idx|]; [|discriminate]. cbn [rbind] in H.
  destruct (overrides_or_empty o) as [ov|]; [|discriminate]. cbn [rbind] in H.
  destruct (items_or_empty a) as [adds|]; [|discriminate]. cbn [rbind] in H.
  now apply drop_disabled_filter in H as [_ H].
Qed.

Lemma disabled_resolve vars_map x :
  disabled x = Ok false -> disabled (resolve_vars py_repr environ x vars_map) = Ok false.
Proof.
  destruct x as [| | | | |d]; try discriminate. cbn [disabled resolve_vars]. intros [= H].
  f_equal. unfold get_or_none in *.
  rewrite (dict_get_map (fun v => resolve_vars py_repr environ v vars_map)).
  destruct (dict_get d "disabled") as [v|]; [|reflexivity]. now apply resolve_vars_falsy.
Qed.

(** An entry of the composed plan: a dict that is not disabled, whose
    [cwd], when it has one, lies under [backend] or [frontend] of the
    project. *)
Definition plan_entry (slug : string) (e : value) : Prop :=
  exists d,
    e = VDict d /\ disabled e = Ok false /\
    (dict_has d "cwd" = true ->
     exists c, rooted c = true /\ dict_get d "cwd" = Some (VStr (project_path slug c))).

Lemma expand_entry_cwd_plan slug e e' :
  disabled e = Ok false -> expand_entry_cwd slug e = Ok e' ->
  plan_entry slug e' /\
  exists d d', e = VDict d /\ e' = VDict d' /\
    forall k, k <> "cwd" -> dict_get d' k = dict_get d k.
Proof.
  intros Hd H. destruct e as [| | | | |d]; try discriminate.
  unfold expand_entry_cwd in H. cbn [py_contains rbind] in H.
  destruct (dict_has d "cwd") eqn:Eh.
  - destruct (expand_cwd slug (get_or_none d "cwd")) as [c|] eqn:Ec; [|discriminate].
    injection H as <-. apply expand_cwd_accepts in Ec as (s & Hroot & ->).
    assert (Hframe : forall k, k <> "cwd" ->
              dict_get (dict_set "cwd" (VStr (project_path slug (normalized s))) d) k
              = dict_get d k)
      by (intros k Hk; now rewrite dict_get_set_ne by congruence).
    split; [|now exists d, (dict_set "cwd" (VStr (project_path slug (normalized s))) d)].
    eexists. split; [reflexivity|]. split.
    + cbn [disabled] in *. unfold get_or_none in *. now rewrite Hframe by discriminate.
    + intros _. exists (normalized s). split; [exact Hroot|apply dict_get_set_eq].
  - injection H as <-. split; [|now exists d, d].
    exists d. split; [reflexivity|]. split; [exact Hd|]. congruence.
Qed.

Lemma expand_test_plan slug t t' :
  disabled t = Ok false -> expand_test py_repr slug t = Ok t' ->
  plan_entry slug t' /\
  exists d', t' = VDict d' /\ cmd_done py_repr (dict_get d' "cmd") /\
    install_done py_repr (dict_get d' "install").
Proof.
  intros Hd H. unfold expand_test in H.
  destruct (expand_entry_cwd slug t) as [t1|] eqn:E1; [|discriminate]. cbn [rbind] in H.
  destruct (expand_entry_cwd_plan _ _ _ Hd E1) as ((d1 & -> & Hd1 & Hcwd) & _).
  destruct (expand_junit slug d1) as [d2|] eqn:E2; [|discriminate]. cbn [rbind] in H.
  destruct (expand_install py_repr d2) as [d3|] eqn:E3; [|discriminate]. cbn [rbind] in H.
  destruct (expand_cmd py_repr d3) as [d4|] eqn:E4; [|discriminate]. cbn [rbind] in H.
  injection H as <-.
  apply expand_junit_result in E2 as [_ Hframe2].
  apply expand_install_result in E3 as [Hi Hframe3].
  apply expand_cmd_result in E4 as [Hc Hframe4].
  assert (Hget : forall k, k <> "junit_xml" -> k <> "install" -> k <> "cmd" ->
                   dict_get d4 k = dict_get d1 k).
  { intros k H1 H2 H3. now rewrite Hframe4, Hframe3, Hframe2. }
  split.
  - exists d4. split; [reflexivity|]. split.
    + cbn [disabled] in *. unfold get_or_none in *. now rewrite Hget by discriminate.
    + unfold dict_has. rewrite !Hget by discriminate. exact Hcwd.
  - exists d4. split; [reflexivity|]. split; [exact Hc|].
    now rewrite (Hframe4 "install") by discriminate.
Qed.

Lemma Forall2_Forall_r {A B} (R : A -> B -> Prop) (P : A -> Prop) (Q : B -> Prop) xs ys :
  (forall x y, P x -> R x y -> Q y) -> Forall P xs -> Forall2 R xs ys -> Forall Q ys.
Proof.
  intros H HP HR. revert HP. induction HR as [|x y xs ys Hxy _ IH]; intros HP; [constructor|].
  apply List.Forall_cons_iff in HP as [Hx Hxs]. constructor; [now apply (H x)|now apply IH].
Qed.

(** A test of the composed plan can be run: its command and its install
    commands are lists of text. *)
Definition runnable_test (t : value) : Prop :=
  (exists c cmd, py_get t "cmd" (VList []) = Ok c /\ to_cmd_list c = Ok cmd) /\
  (forall cmds, py_get t "install" (VList []) = Ok (VList cmds) ->
     Forall (fun icmd => exists cmd, to_cmd_list icmd = Ok cmd) cmds).

Lemma str_list_cmd c : str_list py_repr c = Ok c -> exists cmd, to_cmd_list c = Ok cmd.
Proof.
  unfold str_list. destruct (py_iter c) as [xs|] eqn:Ei; [|discriminate]. cbn [rbind].
  intros [= <-]. cbn [to_cmd_list].
  assert (Hm : forall l,
            mapM (fun i => match i with VStr s => Some s | _ => None end)
                 (map (fun x => VStr (py_str py_repr x)) l)
            = Some (map (py_str py_repr) l)).
  { induction l as [|x l IH]; [reflexivity|]. cbn. rewrite IH. reflexivity. }
  rewrite Hm. eauto.
Qed.

Lemma rmap_fixed {A} (f : A -> result A) : forall xs,
  rmap f xs = Ok xs -> Forall (fun x => f x = Ok x) xs.
Proof.
  induction xs as [|x xs IH]; intros H; [constructor|]. cbn [rmap] in H.
  destruct (f x) as [y|] eqn:Ex; [|discriminate]. cbn [rbind] in H.
  destruct (rmap f xs) as [ys|] eqn:Er; [|discriminate]. injection H as -> ->.
  constructor; [exact Ex|now apply IH].
Qed.

Lemma expand_test_runnable d' :
  cmd_done py_repr (dict_get d' "cmd") -> install_done py_repr (dict_get d' "install") ->
  runnable_test (VDict d').
Proof.
  intros Hc Hi. split.
  - cbn [py_get]. destruct (dict_get d' "cmd") as [c|].
    + destruct (str_list_cmd _ Hc) as (cmd & Hcmd). eauto.
    + now exists (VList []), [].
  - cbn [py_get]. intros cmds H. destruct (dict_get d' "install") as [v|].
    + injection H as ->. cbn [install_done] in Hi. apply rmap_fixed in Hi.
      eapply List.Forall_impl; [|exact Hi]. intros icmd. apply str_list_cmd.
    + injection H as <-. constructor.
Qed.

Lemma setdefault_has k v d : dict_has (setdefault k v d) k = true.
Proof.
  unfold setdefault. destruct (dict_has d k) eqn:E; [exact E|apply dict_has_set_eq].
Qed.

Lemma setdefault_other k k' v d :
  k <> k' -> dict_get (setdefault k v d) k' = dict_get d k'.
Proof.
  intros H. unfold setdefault. destruct (dict_has d k); [reflexivity|].
  now apply dict_get_set_ne.
Qed.

Lemma setdefault_keep k v d x : dict_get d k = Some x -> setdefault k v d = d.
Proof. intros H. unfold setdefault, dict_has. now rewrite H. Qed.

Lemma setdefault_new k v d : dict_get d k = None -> dict_get (setdefault k v d) k = Some v.
Proof. intros H. unfold setdefault, dict_has. rewrite H. apply dict_get_set_eq. Qed.

(** What [for_each] leaves of a list. *)
Lemma for_each_list f xs v' :
  for_each f (VList xs) = Ok v' ->
  exists xs', v' = VList xs' /\ Forall2 (fun x y => f x = Ok y) xs xs'.
Proof.
  cbn [for_each]. destruct (rmap f xs) as [xs'|] eqn:Er; [|discriminate].
  intros [= <-]. exists xs'. split; [reflexivity|now apply rmap_forall2].
Qed.

(** X20. The shape of a composed plan.  Whenever the composition of the
    plan of a project returns, the plan is a dict with a [report] and an
    [artifacts_dir]; its [services] and [tests] are lists of dicts none of
    which is disabled; a [cwd] they carry is
    [content/code/<slug>/] followed by a path under [backend] or
    [frontend]; and every test can be run by the orchestrator as it is:
    its command and each of its listed install commands is a list of
    text. *)
Theorem composed_plan_shape (project_yaml_path slug : string) (out : value) :
  load_and_compose_test_config project_yaml_path slug = Ok out ->
  exists m svcs tests,
    out = VDict m /\
    dict_has m "report" = true /\ dict_has m "artifacts_dir" = true /\
    dict_get m "services" = Some (VList svcs) /\
    dict_get m "tests" = Some (VList tests) /\
    Forall (plan_entry slug) svcs /\
    Forall (fun t => plan_entry slug t /\ runnable_test t) tests.
Proof.
  unfold load_and_compose_test_config. intros H.
  destruct (load_yaml project_yaml_path) as [proj_cfg|]; [|discriminate]. cbn [rbind] in H.
  destruct (extends_of proj_cfg) as [base_files|]; [|discriminate]. cbn [rbind] in H.
  destruct (py_get proj_cfg "project" (VStr slug)) as [project|]; [|discriminate].
  cbn [rbind] in H.
  destruct (merge_bases _ base_files) as [merged|]; [|discriminate]. cbn [rbind] in H.
  destruct (py_get merged "vars" (VDict [])) as [bv|]; [|discriminate]. cbn [rbind] in H.
  destruct (py_get proj_cfg "vars" (VDict [])) as [pv|]; [|discriminate]. cbn [rbind] in H.
  destruct (combine_vars _ _ slug) as [vc|]; [|discriminate]. cbn [rbind] in H.
  destruct (py_get proj_cfg "overrides" (VDict [])) as [ov0|]; [|discriminate].
  cbn [rbind] in H.
  destruct (match or_empty_dict ov0 with VDict d => Ok d | _ => Err AttributeError end)
    as [ov|]; [|discriminate]. cbn [rbind] in H.
  destruct (deep_merge merged _) as [| | | | |m0]; try discriminate.
  destruct (merge_named_list _ (get_or_none ov "services") VNull) as [services|] eqn:Es;
    [|discriminate]. cbn [rbind] in H.
  destruct (merge_named_list _ (get_or_none ov "tests") _) as [tests|] eqn:Et;
    [|discriminate]. cbn [rbind] in H.
  apply merge_named_list_enabled in Es, Et.
  set (m2 := dict_set "tests" (VList tests) (dict_set "services" (VList services) m0)) in H.
  set (rv := fun v => resolve_vars py_repr environ v vc).
  assert (Hsv : dict_get (map (fun kv => (fst kv, rv (snd kv))) m2) "services"
                = Some (VList (map rv services))).
  { rewrite dict_get_map. subst m2.
    rewrite dict_get_set_ne, dict_get_set_eq by discriminate. reflexivity. }
  assert (Hts : dict_get (map (fun kv => (fst kv, rv (snd kv))) m2) "tests"
                = Some (VList (map rv tests))).
  { rewrite dict_get_map. subst m2. rewrite dict_get_set_eq. reflexivity. }
  change (resolve_vars py_repr environ (VDict m2) vc)
    with (VDict (map (fun kv => (fst kv, rv (snd kv))) m2)) in H.
  set (m3 := map _ m2) in *.
  unfold _expand_project_paths in H.
  destruct (expand_key "services" (expand_entry_cwd slug) m3) as [m4|] eqn:E4;
    [|discriminate]. cbn [rbind] in H.
  destruct (expand_key "tests" (expand_test py_repr slug) m4) as [m5|] eqn:E5;
    [|discriminate]. cbn [rbind] in H.
  injection H as <-.
  apply expand_key_result in E4 as [Hframe4 H4]. rewrite Hsv in H4.
  destruct H4 as (v4 & Hf4 & Hg4).
  apply for_each_list in Hf4 as (svcs' & -> & HF4).
  apply expand_key_result in E5 as [Hframe5 H5].
  rewrite (Hframe4 "tests"), Hts in H5 by discriminate.
  destruct H5 as (v5 & Hf5 & Hg5).
  apply for_each_list in Hf5 as (tests' & -> & HF5).
  eexists. exists svcs', tests'. split; [reflexivity|].
  split; [unfold dict_has; rewrite setdefault_other by discriminate;
          apply (setdefault_has "report")|].
  split; [apply setdefault_has|].
  split; [now rewrite !setdefault_other, Hframe5 by discriminate|].
  split; [now rewrite !setdefault_other by discriminate|].
  split.
  - refine (Forall2_Forall_r _ (fun x => disabled x = Ok false) _ _ _ _ _ HF4).
    + intros x y Hx Hxy. exact (proj1 (expand_entry_cwd_plan slug x y Hx Hxy)).
    + apply List.Forall_map. eapply List.Forall_impl; [|exact Es].
      intros x Hx. now apply disabled_resolve.
  - refine (Forall2_Forall_r _ (fun x => disabled x = Ok false) _ _ _ _ _ HF5).
    + intros x y Hx Hxy. destruct (expand_test_plan slug x y Hx Hxy) as (Hp & d' & -> & Hc & Hi).
      split; [exact Hp|now apply expand_test_runnable].
    + apply List.Forall_map. eapply List.Forall_impl; [|exact Et].
      intros x Hx. now apply disabled_resolve.
Qed.

End Compose.

(** * The environment of the child processes and the raw summary
      (run_all_tests.py, 42-47, 53-54, 236-244 and 353-359) *)

Section Env.

(** [os.environ] as the dict it is copied to. *)
Variable os_environ : dict.

(** [merge_env]: a copy of the environment of the process, updated with
    [base] and then, when it is not empty, with [extra]. *)
Definition merge_env (base : dict) (extra : option dict) : dict :=
  let env := dict_update os_environ base in
  match extra with
  | Some e => if truthy (VDict e) then dict_update env e else env
  | None => env
  end.

(** [kv.split("=", 1)] when ["=" in kv]: the text before the first equals
    sign and the text after it. *)
Fixpoint split_eq (kv : string) : option (string * string) :=
  match kv with
  | EmptyString => None
  | String c r =>
      if Ascii.eqb c "="%char then Some (EmptyString, r)
      else match split_eq r with
           | Some (k, v) => Some (String c k, v)
           | None => None
           end
  end.

(** The loop of [main] over the [--env] arguments. *)
Definition env_step (extra_env : dict) (kv : string) : dict :=
  match split_eq kv with
  | Some (k, v) => dict_set k (VStr v) extra_env
  | None => extra_env
  end.

Definition parse_env_args (args_env : list string) : dict :=
  fold_left env_step args_env [].

(** [base_env] of [main]. *)
Definition base_env (cfg_env : dict) (args_env : list string) : dict :=
  merge_env cfg_env (Some (parse_env_args args_env)).

(** ** Lemmas *)

Lemma existsb_keys_set k0 k v d :
  existsb (String.eqb k0) (map fst (dict_set k v d)) =
  String.eqb k0 k || existsb (String.eqb k0) (map fst d).
Proof.
  induction d as [|[k1 v1] d IH]; cbn [dict_set map fst existsb].
  - now rewrite orb_false_r.
  - destruct (String.eqb_spec k k1) as [->|Hne]; cbn [map fst existsb].
    + now destruct (String.eqb k0 k1).
    + rewrite IH. destruct (String.eqb k0 k1), (String.eqb k0 k); reflexivity.
Qed.

Lemma distinct_dict_set k v d :
  distinct (map fst d) = true -> distinct (map fst (dict_set k v d)) = true.
Proof.
  induction d as [|[k1 v1] d IH]; cbn [dict_set map fst distinct]; [reflexivity|].
  intros H. apply andb_true_iff in H as [H1 H2].
  destruct (String.eqb_spec k k1) as [->|Hne]; cbn [map fst distinct].
  - now rewrite H1, H2.
  - rewrite existsb_keys_set, (IH H2), andb_true_r.
    apply negb_true_iff in H1. rewrite H1, orb_false_r.
    apply negb_true_iff. apply String.eqb_neq. congruence.
Qed.

Lemma distinct_dict_update other : forall d,
  distinct (map fst d) = true -> distinct (map fst (dict_update d other)) = true.
Proof.
  unfold dict_update. induction other as [|[k v] other IH]; intros d H; [exact H|].
  cbn [fold_left]. apply IH. now apply distinct_dict_set.
Qed.

(** X21. Who wins in the environment of a child process.  A variable has
    the value [extra] gives it, or else the one [base] gives it, or else
    the one of the environment of the orchestrator; and merging the result
    once more, as is done for every process started, changes no variable. *)
Theorem merge_env_precedence (base extra : dict) :
  distinct (map fst os_environ) = true ->
  distinct (map fst base) = true -> distinct (map fst extra) = true ->
  forall k,
    dict_get (merge_env base (Some extra)) k =
      match dict_get extra k with
      | Some v => Some v
      | None => match dict_get base k with
                | Some v => Some v
                | None => dict_get os_environ k
                end
      end /\
    dict_get (merge_env (merge_env base (Some extra)) None) k =
      dict_get (merge_env base (Some extra)) k.
Proof.
  intros Ho Hb He k.
  assert (Hfirst : dict_get (merge_env base (Some extra)) k =
                   match dict_get extra k with
                   | Some v => Some v
                   | None => match dict_get base k with
                             | Some v => Some v
                             | None => dict_get os_environ k
                             end
                   end).
  { unfold merge_env. cbv zeta. destruct extra as [|kv extra'].
    - cbn [truthy dict_get]. now apply dict_update_get.
    - cbn [truthy]. rewrite dict_update_get by exact He.
      destruct (dict_get (kv :: extra') k); [reflexivity|]. now apply dict_update_get. }
  split; [exact Hfirst|].
  assert (Hd : distinct (map fst (merge_env base (Some extra))) = true).
  { unfold merge_env. cbv zeta.
    destruct (truthy (VDict extra)); repeat apply distinct_dict_update; exact Ho. }
  unfold merge_env at 1. cbv zeta. rewrite dict_update_get by exact Hd.
  rewrite Hfirst.
  destruct (dict_get extra k); [reflexivity|].
  destruct (dict_get base k); [reflexivity|]. now destruct (dict_get os_environ k).
Qed.

Fixpoint has_eq (s : string) : bool :=
  match s with
  | EmptyString => false
  | String c r => Ascii.eqb c "="%char || has_eq r
  end.

Lemma split_eq_none kv : has_eq kv = false -> split_eq kv = None.
Proof.
  induction kv as [|c r IH]; [reflexivity|]. cbn [has_eq split_eq]. intros H.
  apply orb_false_iff in H as [-> H]. now rewrite IH.
Qed.

Lemma split_eq_pair k v : has_eq k = false -> split_eq (k +:+ "=" +:+ v) = Some (k, v).
Proof.
  induction k as [|c k IH]; [reflexivity|]. cbn [has_eq]. intros H.
  apply orb_false_iff in H as [Hc H].
  change (String c k +:+ "=" +:+ v) with (String c (k +:+ "=" +:+ v)).
  cbn [split_eq]. now rewrite Hc, IH.
Qed.

Lemma parse_env_args_app a b :
  parse_env_args (a ++ b) = fold_left env_step b (parse_env_args a).
Proof. unfold parse_env_args. now rewrite fold_left_app. Qed.

(** X22. The [--env] arguments.  An argument [KEY=VALUE] is split at its
    first equals sign, so the value may hold further ones; the last
    argument for a key gives its value; and an argument without an equals
    sign is ignored. *)
Theorem env_args_parsed (before after : list string) (k v junk : string) :
  has_eq k = false -> has_eq junk = false ->
  Forall (fun kv => forall v', split_eq kv <> Some (k, v')) after ->
  dict_get (parse_env_args (before ++ [k +:+ "=" +:+ v] ++ after)) k = Some (VStr v) /\
  parse_env_args (before ++ [junk] ++ after) = parse_env_args (before ++ after).
Proof.
  intros Hk Hj Hafter. split.
  - rewrite !parse_env_args_app. cbn [fold_left app]. unfold env_step at 2.
    rewrite (split_eq_pair _ _ Hk).
    generalize (parse_env_args before). intros d0.
    assert (Hstart : dict_get (dict_set k (VStr v) d0) k = Some (VStr v))
      by apply dict_get_set_eq.
    revert Hstart. generalize (dict_set k (VStr v) d0). clear d0.
    induction Hafter as [|kv after Hkv _ IH]; intros d Hd; [exact Hd|].
    cbn [fold_left]. apply IH. unfold env_step.
    destruct (split_eq kv) as [[k1 v1]|] eqn:Es; [|exact Hd].
    rewrite dict_get_set_ne; [exact Hd|]. intros ->. now apply (Hkv v1).
  - rewrite !parse_env_args_app. cbn [fold_left app]. unfold env_step at 2.
    now rewrite (split_eq_none _ Hj).
Qed.

End Env.

(** ** The raw summary *)

Lemma substring_all : forall s n, String.length s <= n -> String.substring 0 n s = s.
Proof.
  induction s as [|c s IH]; intros n H.
  - now destruct n.
  - destruct n as [|n]; [cbn in H; lia|]. cbn [String.substring]. rewrite IH; [reflexivity|].
    cbn in H. lia.
Qed.

Lemma substring_suffix : forall k s n,
  String.length s = k + n ->
  exists pre, s = pre +:+ String.substring k n s /\
    String.length pre = k /\ String.length (String.substring k n s) = n.
Proof.
  induction k as [|k IH]; intros s n H.
  - exists EmptyString. rewrite substring_all by lia. now repeat split.
  - destruct s as [|c s]; [discriminate|]. cbn [String.length] in H.
    destruct (IH s n) as (pre & Hs & Hl & Hn); [lia|].
    exists (String c pre). cbn [String.substring String.append String.length].
    destruct n; rewrite <- Hs; repeat split; try (cbn; lia); try exact Hn.
Qed.

(** X23. What the raw adapter keeps.  The summary of a test without a known
    report format holds the last 800 characters of the standard output and
    of the standard error of the command, or the whole of a stream that is
    not longer. *)
Theorem parse_raw_keeps_tails (stdout stderr : string) :
  exists out_tail err_tail out_head err_head,
    parse_raw stdout stderr =
      ("raw", None, Some [("stdout_tail", VStr out_tail); ("stderr_tail", VStr err_tail)]) /\
    stdout = out_head +:+ out_tail /\ stderr = err_head +:+ err_tail /\
    String.length out_tail = Nat.min 800 (String.length stdout) /\
    String.length err_tail = Nat.min 800 (String.length stderr).
Proof.
  assert (Htail : forall s, exists hd, s = hd +:+ tail s 800 /\
            String.length (tail s 800) = Nat.min 800 (String.length s)).
  { intros s. unfold tail. destruct (Nat.ltb 800 (String.length s)) eqn:E.
    - apply Nat.ltb_lt in E.
      destruct (substring_suffix (String.length s - 800) s 800) as (pre & Hs & _ & Hn); [lia|].
      exists pre. split; [exact Hs|]. rewrite Hn. lia.
    - apply Nat.ltb_ge in E. exists EmptyString. split; [reflexivity|lia]. }
  destruct (Htail stdout) as (oh & Ho & Hol). destruct (Htail stderr) as (eh & He & Hel).
  exists (tail stdout 800), (tail stderr 800), oh, eh. now repeat split.
Qed.

(** * merge_named_list, entry by entry (generate_content.py, 357-367) *)

(** The name an entry can be patched under: a dict with a [name] that is
    text. *)
Definition entry_name (b : value) : option string :=
  match b with
  | VDict d =>
      match dict_get d "name" with
      | Some (VStr n) => Some n
      | _ => None
      end
  | _ => None
  end.

Definition named (n : string) (b : value) : bool :=
  match entry_name b with
  | Some m => String.eqb n m
  | None => false
  end.

(** The position of the last entry of a name. *)
Fixpoint last_named (items : list value) (n : string) : option nat :=
  match items with
  | [] => None
  | b :: rest =>
      match last_named rest n with
      | Some j => Some (S j)
      | None => if named n b then Some 0 else None
      end
  end.

(** What becomes of the entry at position [i]: the patch of its name is
    merged into it when it is the last entry of that name. *)
Definition patch_entry (ov : dict) (items : list value) (i : nat) (b : value) : value :=
  match entry_name b with
  | Some n =>
      match last_named items n, dict_get ov n with
      | Some j, Some patch => if Nat.eqb i j then deep_merge b patch else b
      | _, _ => b
      end
  | None => b
  end.

Lemma build_idx_get items : forall i0 idx0 idx n,
  build_idx items i0 idx0 = Ok idx ->
  idx_get idx n =
  match last_named items n with
  | Some j => Some (i0 + j)
  | None => idx_get idx0 n
  end.
Proof.
  induction items as [|b rest IH]; intros i0 idx0 idx n H; cbn [build_idx last_named] in *.
  - now injection H as <-.
  - assert (Hskip : build_idx rest (S i0) idx0 = Ok idx -> named n b = false ->
              idx_get idx n = match match last_named rest n with
                                    | Some j => Some (S j)
                                    | None => if named n b then Some 0 else None
                                    end with
                              | Some j => Some (i0 + j)
                              | None => idx_get idx0 n
                              end).
    { intros H0 Hn. rewrite (IH _ _ _ n H0), Hn.
      destruct (last_named rest n); [f_equal; lia|reflexivity]. }
    unfold named, entry_name in *.
    destruct b as [| | | | |d]; try (now apply Hskip).
    destruct (dict_get d "name") as [v|]; [|now apply Hskip].
    destruct v as [| | |m| |]; cbn in H; try (now apply Hskip); try discriminate.
    rewrite (IH _ _ _ n H). destruct (last_named rest n); [f_equal; lia|].
    cbn [idx_get]. destruct (String.eqb n m); [f_equal; lia|reflexivity].
Qed.

Lemma last_named_lookup items : forall n i,
  last_named items n = Some i ->
  exists b, items !! i = Some b /\ named n b = true.
Proof.
  induction items as [|b rest IH]; intros n i H; [discriminate|]. cbn [last_named] in H.
  destruct (last_named rest n) as [j|] eqn:E.
  - injection H as <-. destruct (IH _ _ E) as (b' & Hb & Hn). now exists b'.
  - destruct (named n b) eqn:En; [|discriminate]. injection H as <-. now exists b.
Qed.

Lemma named_eq n b : named n b = true -> entry_name b = Some n.
Proof.
  unfold named. destruct (entry_name b) as [m|]; [|discriminate].
  intros H. apply String.eqb_eq in H. now subst.
Qed.

Lemma dict_get_app_fresh l n p k :
  dict_get l n = None ->
  dict_get (l ++ [(n, p)]) k = if String.eqb k n then Some p else dict_get l k.
Proof.
  induction l as [|[k0 v0] l IH]; cbn [app dict_get]; [reflexivity|].
  intros H. destruct (String.eqb_spec n k0) as [->|Hne]; [discriminate|].
  destruct (String.eqb_spec k k0) as [->|Hk].
  - destruct (String.eqb_spec k0 n); [congruence|reflexivity].
  - now apply IH.
Qed.

(** The loop over the override map, patch by patch. *)
Lemma fold_patch_exact idx items :
  build_idx items 0 [] = Ok idx ->
  forall rest done,
    distinct (map fst (done ++ rest)) = true ->
    fold_left (apply_patch idx) rest (imap (patch_entry done items) items) =
    imap (patch_entry (done ++ rest) items) items.
Proof.
  intros Hidx. induction rest as [|[n p] rest IH]; intros done Hd.
  - now rewrite app_nil_r.
  - cbn [fold_left].
    assert (Hfresh : dict_get done n = None).
    { clear -Hd. induction done as [|[k v] done IHd]; [reflexivity|].
      cbn [app map fst distinct] in Hd. apply andb_true_iff in Hd as [Hk Hd].
      cbn [dict_get]. destruct (String.eqb_spec n k) as [->|Hne]; [|now apply IHd].
      apply negb_true_iff in Hk. rewrite map_app, existsb_app in Hk.
      apply orb_false_iff in Hk as [_ Hk]. cbn in Hk. now rewrite String.eqb_refl in Hk. }
    replace (done ++ (n, p) :: rest) with ((done ++ [(n, p)]) ++ rest)
      by (now rewrite <- app_assoc).
    rewrite <- IH by (now rewrite <- app_assoc). f_equal.
    unfold apply_patch. cbn [fst snd].
    rewrite (build_idx_get _ _ _ _ n Hidx). cbn [idx_get Nat.add].
    apply list_eq. intros j.
    destruct (last_named items n) as [i|] eqn:El.
    + destruct (last_named_lookup _ _ _ El) as (b & Hb & Hn).
      apply named_eq in Hn.
      rewrite list_lookup_imap, Hb. cbn [fmap option_fmap option_map].
      assert (Hcur : patch_entry done items i b = b).
      { unfold patch_entry. now rewrite Hn, El, Hfresh. }
      rewrite Hcur.
      destruct (decide (i = j)) as [<-|Hne].
      * rewrite list_lookup_insert_eq
          by (rewrite length_imap; eapply lookup_lt_Some; eauto).
        rewrite list_lookup_imap, Hb. cbn. f_equal.
        unfold patch_entry. rewrite Hn, El, (dict_get_app_fresh _ _ _ _ Hfresh).
        now rewrite String.eqb_refl, Nat.eqb_refl.
      * rewrite list_lookup_insert_ne by exact Hne.
        rewrite !list_lookup_imap. destruct (items !! j) as [bj|]; [|reflexivity].
        cbn. f_equal. unfold patch_entry.
        destruct (entry_name bj) as [m|]; [|reflexivity].
        rewrite (dict_get_app_fresh _ _ _ _ Hfresh).
        destruct (String.eqb_spec m n) as [->|Hm]; [|reflexivity].
        rewrite El, Hfresh.
        assert ((j =? i)%nat = false) as -> by (apply Nat.eqb_neq; congruence).
        reflexivity.
    + rewrite !list_lookup_imap. destruct (items !! j) as [bj|]; [|reflexivity].
      cbn. f_equal. unfold patch_entry.
      destruct (entry_name bj) as [m|]; [|reflexivity].
      rewrite (dict_get_app_fresh _ _ _ _ Hfresh).
      destruct (String.eqb_spec m n) as [->|Hm]; [|reflexivity].
      now rewrite El.
Qed.

Lemma patch_entry_nil items i b : patch_entry [] items i b = b.
Proof.
  unfold patch_entry. destruct (entry_name b) as [n|]; [|reflexivity].
  now destruct (last_named items n).
Qed.

(** X24. What [merge_named_list] does to each entry.  For a base list, an
    override map that holds every name once, and an add-list: when it
    returns, its output is the base entries in their order, the last entry
    of each name that the override map holds deep-merged with the patch of
    that name and every other entry as it was, followed by the added
    entries, the disabled ones left out.  A patch for a name that no base
    entry carries is ignored, and of two base entries of one name only the
    last is patched. *)
Theorem merge_named_list_exact (bs adds : list value) (ov : dict) (out : list value) :
  distinct (map fst ov) = true ->
  merge_named_list (VList bs) (VDict ov) (VList adds) = Ok out ->
  out = List.filter enabled (imap (patch_entry ov bs) bs ++ adds).
Proof.
  intros Hd H. unfold merge_named_list in H.
  assert (Hb : items_or_empty (VList bs) = Ok bs) by (now destruct bs).
  assert (Ha : items_or_empty (VList adds) = Ok adds) by (now destruct adds).
  assert (Ho : overrides_or_empty (VDict ov) = Ok ov) by (now destruct ov).
  rewrite Hb, Ha, Ho in H. cbn [rbind] in H.
  destruct (build_idx bs 0 []) as [idx|] eqn:Ei; [|discriminate]. cbn [rbind] in H.
  apply drop_disabled_filter in H as [-> _]. f_equal. f_equal.
  pose proof (fold_patch_exact idx bs Ei ov [] Hd) as Hf. cbn [app] in Hf.
  rewrite <- Hf. f_equal.
  apply list_eq. intros j. rewrite list_lookup_imap.
  destruct (bs !! j); [|reflexivity]. cbn. now rewrite patch_entry_nil.
Qed.

(** * The generator: running the tests of a project, repairing and
      verifying it (generate_content.py, 603-818)

    The generator writes files, calls the runner as a child process and
    calls a language model.  Its actions are recorded in a trace; what the
    outside answers (the files read, the output of the runner, the report
    it left, the reply of the model) is given by oracles that see the
    trace so far.  Writing a file and making a directory are taken to
    succeed, and the texts printed are left out; reading files to build
    the prompt of the model changes nothing and is left out with the
    prompt. *)

Inductive gen_event : Type :=
| GWriteMerged (path text : string)         (* write(merged_path, dump_yaml(merged)) *)
| GRunner (cmd : list string)               (* subprocess.run of the runner *)
| GLlm                                      (* gen_openai *)
| GWrite (rel : string) (content : string)  (* write(base_dir / rel, content) *)
| GCleanUi (ui_path : string)               (* the entries of ui_path are removed *)
| GCopyUi (src ui_path : string).           (* shutil.copytree *)

Definition G (A : Type) : Type := list gen_event -> result A * list gen_event.

Definition gret {A} (a : A) : G A := fun tr => (Ok a, tr).

Definition glift {A} (r : result A) : G A := fun tr => (r, tr).

Definition gbind {A B} (m : G A) (k : A -> G B) : G B :=
  fun tr =>
    match m tr with
    | (Ok a, tr1) => k a tr1
    | (Err e, tr1) => (Err e, tr1)
    end.

Notation "'let+' x ':=' m 'in' k" := (gbind m (fun x => k))
  (at level 10, x pattern, m at level 100, k at level 200).

Definition gemit (e : gen_event) : G unit := fun tr => (Ok tt, tr ++ [e]).

(** [s.find(c)] and [s.rfind(c)] for a character: the first and the last
    position of it. *)
Fixpoint find_char (c : ascii) (s : string) : option nat :=
  match s with
  | EmptyString => None
  | String a r =>
      if Ascii.eqb a c then Some 0
      else match find_char c r with
           | Some i => Some (S i)
           | None => None
           end
  end.

Fixpoint rfind_char (c : ascii) (s : string) : option nat :=
  match s with
  | EmptyString => None
  | String a r =>
      match rfind_char c r with
      | Some i => Some (S i)
      | None => if Ascii.eqb a c then Some 0 else None
      end
  end.

(** [rc != 0] for a value read from a report. *)
Definition ne_zero (v : value) : bool :=
  match v with
  | VInt n => negb (n =? 0)%Z
  | VBool b => b
  | _ => true
  end.

Section Generator.

Variable py_repr : value -> string.
Variable environ : string -> option string.
Variable py_lower : string -> string.
Variable exn_text : exn -> string.
(** [ROOT] and [sys.executable]. *)
Variable root : string.
Variable python : string.
(** The value a file parses to, as the files are after the actions so far. *)
Variable read_yaml : list gen_event -> string -> result value.
Variable dump_yaml : value -> string.
(** The standard output and the standard error of the runner. *)
Variable runner_run : list gen_event -> result (string * string).
(** The text of the report, if the file is there. *)
Variable report_read : list gen_event -> string -> option (result string).
Variable json_loads : string -> result value.
(** The reply of the model, [None] when it has no text. *)
Variable llm_reply : list gen_event -> option string.
Variable py_str : value -> string.
(** What [copytree] raises, if it does. *)
Variable copy_raises : list gen_event -> option exn.

(** [CODE / slug], for a slug that is a plain name, as [slugify] gives:
    the parts of a path are joined with a slash. *)
Definition code_dir (slug : string) : string := root +:+ "/content/code/" +:+ slug.

(** ** run_tests_with_config (658-688) *)

(** The report a run leaves: the file of the plan when it is there, else
    the standard output; what cannot be read or parsed gives a report of
    the error. *)
Definition error_report (what : string) (e : exn) (stderr : string) : value :=
  VDict [("error", VStr (what +:+ exn_text e));
         ("stderr", VStr (String.substring 0 1200 stderr))].

Definition report_data (tr : list gen_event) (report_path stdout stderr : string) : value :=
  match report_read tr report_path with
  | Some text =>
      match (let? t := text in json_loads t) with
      | Ok data => data
      | Err e => error_report "cannot read report: " e stderr
      end
  | None =>
      match json_loads (str_or stdout "{}") with
      | Ok data => data
      | Err e => error_report "no report file & stdout parse failed: " e stderr
      end
  end.

(** [Path(merged["report"])] *)
Definition report_path_of (merged : value) : result string :=
  match merged with
  | VDict m =>
      match dict_get m "report" with
      | Some (VStr p) => Ok p
      | Some _ => Err TypeError
      | None => Err KeyError
      end
  | _ => Err TypeError
  end.

Definition runner_cmd (slug : string) : list string :=
  [python; root +:+ "/tools/run_all_tests.py"; "--config";
   code_dir slug +:+ "/merged.test.yaml"].

Definition run_tests_with_config (slug : string) : G (bool * value) :=
  let+ merged := (fun tr =>
                    (load_and_compose_test_config py_repr environ (read_yaml tr)
                       (code_dir slug +:+ "/" +:+ slug +:+ ".test.yaml") slug, tr)) in
  let+ _ := gemit (GWriteMerged (code_dir slug +:+ "/merged.test.yaml") (dump_yaml merged)) in
  let+ _ := gemit (GRunner (runner_cmd slug)) in
  let+ out := (fun tr => (runner_run tr, tr)) in
  let+ report_path := glift (report_path_of merged) in
  let+ data := (fun tr => (Ok (report_data tr report_path (fst out) (snd out)), tr)) in
  let+ passed := glift (py_get data "overall_passed" VNull) in
  gret (truthy passed, data).

(** ** infer_failure_target (690-703) *)

(** [(v or "").lower()] and the like: the text of an entry, lowered. *)
Definition lower_text (v : value) : result string :=
  match v with
  | VStr s => Ok (py_lower s)
  | _ => Err AttributeError
  end.

(** What the loop reads from an entry of the results: whether it failed
    and which sides it points at. *)
Definition blame (r : value) : result (bool * bool) :=
  let? ty := py_get r "type" VNull in
  let? tool := py_get r "tool" VNull in
  let? t := lower_text (if truthy ty then ty else if truthy tool then tool else VStr "") in
  let? rc := py_get r "returncode" (VInt 1) in
  let? name := py_get r "name" (VStr "") in
  let? nm := lower_text name in
  if ne_zero rc then
    Ok (is_substring "junit" t || is_substring "pytest" t || is_substring "backend" nm,
        is_substring "playwright" t || is_substring "ui" nm || is_substring "frontend" nm)
  else Ok (false, false).

Definition infer_failure_target (report : value) : result string :=
  let? results := py_get report "results" (VList []) in
  let? rs := py_iter results in
  let? blames := rmap blame rs in
  let backend := existsb fst blames in
  let frontend := existsb snd blames in
  Ok (if backend && negb frontend then "backend"
      else if frontend && negb backend then "frontend"
      else "both").

(** ** llm_repair_once and llm_customize_in_place (603-655, 711-758) *)

(** The JSON object in a reply: from its first opening brace to its last
    closing brace, if that is a stretch and it parses; a reply without
    text has none. *)
Definition reply_object (raw : option string) : option value :=
  match raw with
  | None => None
  | Some raw =>
      match find_char "{" raw, rfind_char "}" raw with
      | Some i, Some j =>
          if Nat.leb j i then None
          else match json_loads (String.substring i (j + 1 - i) raw) with
               | Ok data => Some data
               | Err _ => None
               end
      | _, _ => None
      end
  end.

(** The loop over the files of the reply: a file that is not allowed is
    skipped; a content that is not text leaves the file empty and raises. *)
Fixpoint write_allowed (allowed : list string) (files : dict) (changed : nat) : G nat :=
  match files with
  | [] => gret changed
  | (rel, content) :: rest =>
      if existsb (String.eqb rel) allowed then
        match content with
        | VStr text =>
            let+ _ := gemit (GWrite rel text) in
            write_allowed allowed rest (S changed)
        | _ =>
            let+ _ := gemit (GWrite rel EmptyString) in
            glift (Err TypeError)
        end
      else write_allowed allowed rest changed
  end.

(** What both functions do with the reply of the model. *)
Definition apply_reply (allowed : list string) : G bool :=
  let+ _ := gemit GLlm in
  let+ raw := (fun tr => (Ok (llm_reply tr), tr)) in
  match reply_object raw with
  | None => gret false
  | Some data =>
      let+ files := glift (match data with VDict d => Ok d | _ => Err AttributeError end) in
      let+ changed := write_allowed allowed files 0 in
      gret (Nat.ltb 0 changed)
  end.


Definition repair_subset (allowed_rel : list string) (target : string) : list string :=
  if String.eqb target "backend" then List.filter (String.prefix "backend/") allowed_rel
  else if String.eqb target "frontend" then List.filter (String.prefix "frontend/") allowed_rel
  else allowed_rel.

Definition llm_repair_once (slug topic : string) (allowed_rel : list string)
    (target : string) : G bool :=
  apply_reply (repair_subset allowed_rel target).

(** ** brief_fail (705-709) *)

Definition brief_line (r : value) : result string :=
  let? name := py_get r "name" VNull in
  let? ty := py_get r "type" VNull in
  let? rc := py_get r "returncode" VNull in
  let? summary := py_get r "summary" VNull in
  let? err := py_get r "error" VNull in
  Ok ("- " +:+ py_str name +:+ " type=" +:+ py_str ty +:+ " rc=" +:+ py_str rc
      +:+ " summary=" +:+ py_str summary +:+ " err=" +:+ py_str err).

Definition brief_fail (report : value) : result string :=
  let? passed := py_get report "overall_passed" VNull in
  let? results := py_get report "results" (VList []) in
  let? rs := py_iter results in
  let? lines := rmap brief_line rs in
  Ok (String.concat newline (("overall_passed=" +:+ py_str passed) :: lines)).

(** ** repair_loop_if_needed (760-778) *)

Definition MAX_REPAIR_TRIES : nat := 2.

(** The end of the loop with failing tests: the report is put in words
    for the message, and [ok] is handed back. *)
Definition still_failing (report : value) : G bool :=
  let+ _ := glift (brief_fail report) in
  gret false.

(** The [while] loop, entered with failing tests and [tries_left] tries
    to go. *)
Fixpoint repair_rounds (tries_left : nat) (slug topic : string) (allowed_rel : list string)
    (report : value) : G bool :=
  match tries_left with
  | O => still_failing report
  | S n =>
      let+ target := glift (infer_failure_target report) in
      let+ changed := llm_repair_once slug topic allowed_rel target in
      if changed then
        let+ run := run_tests_with_config slug in
        if fst run then gret true
        else repair_rounds n slug topic allowed_rel (snd run)
      else still_failing report
  end.

Definition repair_loop_if_needed (slug topic : string) (allowed_rel : list string) : G bool :=
  let+ run := run_tests_with_config slug in
  if fst run then gret true
  else repair_rounds MAX_REPAIR_TRIES slug topic allowed_rel (snd run).

(** ** run_verify_and_maybe_copy (805-818) *)

Definition run_verify_and_maybe_copy (ui_path slug : string) : G bool :=
  let+ run := run_tests_with_config slug in
  if fst run then
    let+ _ := gemit (GCleanUi ui_path) in
    let+ _ := gemit (GCopyUi (code_dir slug +:+ "/frontend") ui_path) in
    let+ _ := (fun tr => (match copy_raises tr with Some e => Err e | None => Ok tt end, tr)) in
    gret true
  else gret false.

#[local] Set Default Proof Using "Type".

(** ** What the actions of a stretch of the trace are *)

Definition is_runner (e : gen_event) : bool :=
  match e with GRunner _ => true | _ => false end.

Definition is_llm (e : gen_event) : bool :=
  match e with GLlm => true | _ => false end.

Definition is_ui (e : gen_event) : bool :=
  match e with GCleanUi _ | GCopyUi _ _ => true | _ => false end.

Definition runner_calls (evs : list gen_event) : nat := length (List.filter is_runner evs).

Definition llm_calls (evs : list gen_event) : nat := length (List.filter is_llm evs).

(** The files a stretch of the trace writes in the project. *)
Fixpoint files_written (evs : list gen_event) : list string :=
  match evs with
  | [] => []
  | GWrite rel _ :: rest => rel :: files_written rest
  | _ :: rest => files_written rest
  end.

Lemma runner_calls_app (a b : list gen_event) :
  runner_calls (a ++ b) = runner_calls a + runner_calls b.
Proof. unfold runner_calls. now rewrite List.filter_app, length_app. Qed.

Lemma llm_calls_app (a b : list gen_event) :
  llm_calls (a ++ b) = llm_calls a + llm_calls b.
Proof. unfold llm_calls. now rewrite List.filter_app, length_app. Qed.

Lemma files_written_app (a b : list gen_event) :
  files_written (a ++ b) = files_written a ++ files_written b.
Proof.
  induction a as [|e a IH]; [reflexivity|].
  destruct e; cbn [app files_written]; now rewrite IH.
Qed.

Lemma existsb_ui_app (a b : list gen_event) :
  existsb is_ui (a ++ b) = existsb is_ui a || existsb is_ui b.
Proof. apply existsb_app. Qed.

(** ** Inversion of the monad *)

Lemma gbind_inv {A B} (m : G A) (k : A -> G B) tr r tr' :
  gbind m k tr = (r, tr') ->
  (exists a tr1, m tr = (Ok a, tr1) /\ k a tr1 = (r, tr')) \/
  (exists e, m tr = (Err e, tr') /\ r = Err e).
Proof.
  unfold gbind. destruct (m tr) as [[a|e] tr1]; intros H.
  - left. now exists a, tr1.
  - right. exists e. now inversion H.
Qed.

Lemma gemit_inv (ev : gen_event) tr (r : result unit) tr' :
  gemit ev tr = (r, tr') -> r = Ok tt /\ tr' = tr ++ [ev].
Proof. unfold gemit. intros H. now inversion H. Qed.

Lemma glift_inv {A} (x : result A) tr r tr' :
  glift x tr = (r, tr') -> r = x /\ tr' = tr.
Proof. unfold glift. intros H. now inversion H. Qed.

Lemma gret_inv {A} (a : A) tr r tr' :
  gret a tr = (r, tr') -> r = Ok a /\ tr' = tr.
Proof. unfold gret. intros H. now inversion H. Qed.

(** ** run_tests_with_config *)

Definition run_events (slug : string) (merged : value) : list gen_event :=
  [GWriteMerged (code_dir slug +:+ "/merged.test.yaml") (dump_yaml merged);
   GRunner (runner_cmd slug)].

Definition compose_of (slug : string) (tr : list gen_event) : result value :=
  load_and_compose_test_config py_repr environ (read_yaml tr)
    (code_dir slug +:+ "/" +:+ slug +:+ ".test.yaml") slug.

(** What a run does, by the outcome of composing the plan. *)
Lemma run_tests_with_config_inv (slug : string) tr r tr' :
  run_tests_with_config slug tr = (r, tr') ->
  (exists e, compose_of slug tr = Err e /\ r = Err e /\ tr' = tr) \/
  (exists merged,
     compose_of slug tr = Ok merged /\ tr' = tr ++ run_events slug merged /\
     forall ok data, r = Ok (ok, data) ->
       exists report_path out,
         report_path_of merged = Ok report_path /\
         runner_run tr' = Ok out /\
         data = report_data tr' report_path (fst out) (snd out) /\
         exists d, data = VDict d /\
           ok = truthy (match dict_get d "overall_passed" with Some v => v | None => VNull end)).
Proof.
  unfold run_tests_with_config, compose_of. intros H.
  apply gbind_inv in H. destruct H as [(merged & tr1 & Hc & H) | (e & Hc & ->)].
  2:{ left. exists e. pose proof (f_equal fst Hc) as Hm. pose proof (f_equal snd Hc) as Ht.
      cbn [fst snd] in Hm, Ht. now repeat split. }
  pose proof (f_equal fst Hc) as Hm. pose proof (f_equal snd Hc) as Ht.
  cbn [fst snd] in Hm, Ht. subst tr1. clear Hc. right. exists merged. split; [exact Hm|].
  apply gbind_inv in H. destruct H as [(u1 & tr1 & He & H) | (e & He & ->)].
  2:{ apply gemit_inv in He. now destruct He. }
  apply gemit_inv in He. destruct He as [_ ->].
  apply gbind_inv in H. destruct H as [(u2 & tr2 & He & H) | (e & He & ->)].
  2:{ apply gemit_inv in He. now destruct He. }
  apply gemit_inv in He. destruct He as [_ ->].
  rewrite <- app_assoc in H. cbn [app] in H. fold (run_events slug merged) in H.
  apply gbind_inv in H. destruct H as [(out & tr3 & Ho & H) | (e & Ho & ->)].
  2:{ inversion Ho. split; [reflexivity|]. intros; discriminate. }
  inversion Ho as [[Hout Ht3]]. subst tr3.
  apply gbind_inv in H. destruct H as [(rp & tr3 & Hp & H) | (e & Hp & ->)].
  2:{ apply glift_inv in Hp. destruct Hp as [_ ->]. split; [reflexivity|]. intros; discriminate. }
  apply glift_inv in Hp. destruct Hp as [Hp ->].
  apply gbind_inv in H. destruct H as [(data & tr3 & Hd & H) | (e & Hd & ->)].
  2:{ inversion Hd. }
  inversion Hd as [[Hdata Ht3]]. subst tr3.
  apply gbind_inv in H. destruct H as [(passed & tr3 & Hv & H) | (e & Hv & ->)].
  2:{ apply glift_inv in Hv. destruct Hv as [_ ->]. split; [reflexivity|]. intros; discriminate. }
  apply glift_inv in Hv. destruct Hv as [Hv ->].
  apply gret_inv in H. destruct H as [-> ->]. split; [reflexivity|].
  intros ok data' Hr. inversion Hr. subst ok data'.
  exists rp, out. repeat split; try (now symmetry).
  unfold py_get in Hv. destruct data as [| | | | |d]; try discriminate.
  exists d. split; [reflexivity|]. now inversion Hv.
Qed.

(** X25. A run of the tests that returns has composed the plan, written it
    and started the runner once, in this order.  It says that the tests
    passed only when a report was parsed, from the file of the plan or,
    without one, from the output of the runner, and the report is a
    mapping whose [overall_passed] is truthy: a report that could not be
    read or parsed never counts as passed. *)
Theorem passed_run_has_parsed_report (slug : string) (tr : list gen_event)
    (ok : bool) (data : value) (tr' : list gen_event) :
  run_tests_with_config slug tr = (Ok (ok, data), tr') ->
  exists merged report_path out,
    compose_of slug tr = Ok merged /\
    tr' = tr ++ run_events slug merged /\
    report_path_of merged = Ok report_path /\
    runner_run tr' = Ok out /\
    (ok = true ->
     exists text d v,
       (report_read tr' report_path = Some (Ok text) \/
        (report_read tr' report_path = None /\ text = str_or (fst out) "{}")) /\
       json_loads text = Ok data /\
       data = VDict d /\ dict_get d "overall_passed" = Some v /\ truthy v = true).
Proof.
  intros H. apply run_tests_with_config_inv in H.
  destruct H as [(e & _ & He & _) | (merged & Hc & Ht & Hr)]; [discriminate|].
  destruct (Hr ok data eq_refl) as (rp & out & Hp & Ho & Hd & d & Hdd & Hok).
  exists merged, rp, out. repeat split; try assumption.
  intros ->.
  destruct (dict_get d "overall_passed") as [v|] eqn:Ev; [|discriminate].
  unfold report_data in Hd.
  destruct (report_read tr' rp) as [[text|e]|] eqn:Er; cbn [rbind] in Hd.
  - destruct (json_loads text) as [x|e] eqn:Ej.
    + exists text, d, v. subst x. repeat split; auto.
    + rewrite Hd in Hdd. inversion Hdd. subst d. discriminate.
  - rewrite Hd in Hdd. inversion Hdd. subst d. discriminate.
  - destruct (json_loads (str_or (fst out) "{}")) as [x|e] eqn:Ej.
    + exists (str_or (fst out) "{}"), d, v. subst x. repeat split; auto.
    + rewrite Hd in Hdd. inversion Hdd. subst d. discriminate.
Qed.

(** ** What the model can change *)

Definition write_event (w : string * string) : gen_event := GWrite (fst w) (snd w).

Lemma write_allowed_inv (allowed : list string) (files : dict) :
  forall n tr r tr',
    write_allowed allowed files n tr = (r, tr') ->
    exists ws,
      tr' = tr ++ map write_event ws /\
      Forall (fun w => In (fst w) allowed /\ In (fst w) (map fst files)) ws /\
      forall m, r = Ok m -> m = n + length ws.
Proof.
  induction files as [|[rel content] rest IH]; intros n tr r tr' H; cbn [write_allowed] in H.
  - apply gret_inv in H. destruct H as [-> ->]. exists []. cbn [map length].
    rewrite app_nil_r. repeat split; [constructor|]. intros m Hm. inversion Hm. lia.
  - assert (Hrest : forall ws : list (string * string),
              Forall (fun w => In (fst w) allowed /\ In (fst w) (map fst rest)) ws ->
              Forall (fun w => In (fst w) allowed /\ In (fst w) (map fst ((rel, content) :: rest))) ws).
    { intros ws. apply List.Forall_impl. intros w [Ha Hb]. split; [exact Ha|]. now right. }
    destruct (existsb (String.eqb rel) allowed) eqn:Ea.
    + assert (Hin : In rel allowed).
      { apply existsb_exists in Ea. destruct Ea as (x & Hx & He).
        apply String.eqb_eq in He. now subst x. }
      assert (Hone : forall text tr1 ws,
                tr1 = (tr ++ [GWrite rel text]) ++ map write_event ws ->
                tr1 = tr ++ map write_event ((rel, text) :: ws)).
      { intros text tr1 ws ->. now rewrite <- app_assoc. }
      destruct content as [| | |text| |];
        apply gbind_inv in H; destruct H as [(u & tr1 & He & H) | (e & He & _)];
        try (apply gemit_inv in He; destruct He as [He _]; discriminate He);
        apply gemit_inv in He; destruct He as [_ ->].
      all: try (apply glift_inv in H; destruct H as [-> ->];
                exists [(rel, EmptyString)]; repeat split;
                [ constructor; [split; [exact Hin | now left] | constructor]
                | intros m Hm; discriminate Hm ]).
      apply IH in H. destruct H as (ws & -> & Hf & Hm).
      exists ((rel, text) :: ws). split; [now apply Hone|]. split.
      * constructor; [split; [exact Hin | now left] | now apply Hrest].
      * intros m Hr. rewrite (Hm m Hr). cbn [length]. lia.
    + apply IH in H. destruct H as (ws & -> & Hf & Hm).
      exists ws. repeat split; [now apply Hrest | exact Hm].
Qed.

Lemma apply_reply_inv (allowed : list string) tr r tr' :
  apply_reply allowed tr = (r, tr') ->
  exists ws,
    tr' = tr ++ GLlm :: map write_event ws /\
    Forall (fun w => In (fst w) allowed) ws /\
    (r = Ok true -> ws <> []) /\ (r = Ok false -> ws = []).
Proof.
  unfold apply_reply. intros H.
  assert (Hnone : forall t, t = tr ++ [GLlm] -> t = tr ++ GLlm :: map write_event []) by auto.
  apply gbind_inv in H. destruct H as [(u & tr1 & He & H) | (e & He & _)].
  2:{ apply gemit_inv in He. now destruct He. }
  apply gemit_inv in He. destruct He as [_ ->].
  apply gbind_inv in H. destruct H as [(raw & tr1 & Hraw & H) | (e & Hraw & _)].
  2:{ inversion Hraw. }
  pose proof (f_equal fst Hraw) as Hr1. pose proof (f_equal snd Hraw) as Hr2.
  cbn [fst snd] in Hr1, Hr2. subst tr1. clear Hraw Hr1.
  destruct (reply_object raw) as [data|].
  2:{ apply gret_inv in H. destruct H as [-> ->]. exists []. repeat split; auto;
      try (intros; discriminate). }
  apply gbind_inv in H. destruct H as [(files & tr1 & Hf & H) | (e & Hf & ->)].
  2:{ apply glift_inv in Hf. destruct Hf as [_ ->]. exists []. repeat split; auto;
      try (intros; discriminate). }
  apply glift_inv in Hf. destruct Hf as [_ ->].
  apply gbind_inv in H. destruct H as [(changed & tr1 & Hw & H) | (e & Hw & ->)].
  - apply write_allowed_inv in Hw. destruct Hw as (ws & -> & Hall & Hm).
    apply gret_inv in H. destruct H as [-> ->].
    specialize (Hm changed eq_refl). exists ws. split; [now rewrite <- app_assoc|].
    split; [revert Hall; apply List.Forall_impl; intros w [Ha _]; exact Ha|].
    split; intros Hr; inversion Hr as [Hlt].
    + apply Nat.ltb_lt in Hlt. intros ->. cbn [length] in Hm. lia.
    + apply Nat.ltb_ge in Hlt. destruct ws; [reflexivity|cbn [length] in Hm; lia].
  - apply write_allowed_inv in Hw. destruct Hw as (ws & -> & Hall & Hm).
    exists ws. split; [now rewrite <- app_assoc|].
    split; [revert Hall; apply List.Forall_impl; intros w [Ha _]; exact Ha|].
    split; intros; discriminate.
Qed.

Lemma repair_subset_in (allowed : list string) (target rel : string) :
  In rel (repair_subset allowed target) ->
  In rel allowed /\
  (target = "backend" -> String.prefix "backend/" rel = true) /\
  (target = "frontend" -> String.prefix "frontend/" rel = true).
Proof.
  unfold repair_subset.
  destruct (String.eqb target "backend") eqn:Eb;
    [|destruct (String.eqb target "frontend") eqn:Ef].
  - apply String.eqb_eq in Eb. subst target. intros H. apply List.filter_In in H.
    destruct H as [Hi Hp]. repeat split; auto. intros; discriminate.
  - apply String.eqb_eq in Ef. subst target. intros H. apply List.filter_In in H.
    destruct H as [Hi Hp]. repeat split; auto. intros; discriminate.
  - apply String.eqb_neq in Eb, Ef. intros H. repeat split; auto; intros; contradiction.
Qed.



(** ** The repair loop *)

(** A stretch of the trace with at most [nr] runs of the tests and [nl]
    calls of the model, that writes only allowed files of the project and
    leaves the demo UI alone. *)
Definition within (nr nl : nat) (allowed : list string) (evs : list gen_event) : Prop :=
  runner_calls evs <= nr /\ llm_calls evs <= nl /\
  Forall (fun rel => In rel allowed) (files_written evs) /\
  existsb is_ui evs = false.

Lemma within_nil (allowed : list string) : within 0 0 allowed [].
Proof. repeat split; auto. Qed.

Lemma within_app (a b c d : nat) (allowed : list string) (e1 e2 : list gen_event) :
  within a b allowed e1 -> within c d allowed e2 -> within (a + c) (b + d) allowed (e1 ++ e2).
Proof.
  intros (H1 & H2 & H3 & H4) (K1 & K2 & K3 & K4). unfold within.
  rewrite runner_calls_app, llm_calls_app, files_written_app, existsb_ui_app, H4, K4.
  repeat split; try lia. apply Forall_app. now split.
Qed.

Lemma within_weaken (a b c d : nat) (allowed : list string) (evs : list gen_event) :
  a <= c -> b <= d -> within a b allowed evs -> within c d allowed evs.
Proof. intros Ha Hb (H1 & H2 & H3 & H4). repeat split; auto; lia. Qed.

Lemma run_within (allowed : list string) (slug : string) tr r tr' :
  run_tests_with_config slug tr = (r, tr') ->
  exists evs, tr' = tr ++ evs /\ within 1 0 allowed evs.
Proof.
  intros H. apply run_tests_with_config_inv in H.
  destruct H as [(e & _ & _ & ->) | (merged & _ & -> & _)].
  - exists []. rewrite app_nil_r. split; [reflexivity|].
    apply (within_weaken 0 0); auto. apply within_nil.
  - exists (run_events slug merged). split; [reflexivity|].
    repeat split; cbn; auto.
Qed.

Lemma writes_within (allowed : list string) (ws : list (string * string)) :
  Forall (fun w => In (fst w) allowed) ws ->
  within 0 0 allowed (map write_event ws).
Proof.
  induction 1 as [|w ws Hw _ (H1 & H2 & H3 & H4)]; [apply within_nil|].
  repeat split; cbn [map write_event]; auto. now constructor.
Qed.

Lemma repair_once_within (slug topic : string) (allowed : list string) (target : string)
    tr r tr' :
  llm_repair_once slug topic allowed target tr = (r, tr') ->
  exists evs, tr' = tr ++ evs /\ within 0 1 allowed evs.
Proof.
  unfold llm_repair_once. intros H. apply apply_reply_inv in H.
  destruct H as (ws & -> & Hall & _).
  exists ([GLlm] ++ map write_event ws). split; [reflexivity|].
  apply (within_app 0 1 0 0).
  - repeat split; cbn; auto.
  - apply writes_within. revert Hall. apply List.Forall_impl.
    intros w Hw. now apply repair_subset_in in Hw.
Qed.

Lemma still_failing_inv (report : value) tr r tr' :
  still_failing report tr = (r, tr') -> tr' = tr /\ r <> Ok true.
Proof.
  unfold still_failing. intros H.
  apply gbind_inv in H. destruct H as [(u & tr1 & Hb & H) | (e & Hb & ->)].
  - apply glift_inv in Hb. destruct Hb as [_ ->].
    apply gret_inv in H. destruct H as [-> ->]. split; [reflexivity|discriminate].
  - apply glift_inv in Hb. destruct Hb as [_ ->]. split; [reflexivity|discriminate].
Qed.

Lemma repair_rounds_within (slug topic : string) (allowed : list string) :
  forall n report tr r tr',
    repair_rounds n slug topic allowed report tr = (r, tr') ->
    exists evs, tr' = tr ++ evs /\ within n n allowed evs.
Proof.
  induction n as [|n IH]; intros report tr r tr' H; cbn [repair_rounds] in H.
  - apply still_failing_inv in H. destruct H as [-> _].
    exists []. rewrite app_nil_r. split; [reflexivity|apply within_nil].
  - assert (Hstop : forall t evs, t = tr ++ evs -> within 0 1 allowed evs ->
              exists evs', t = tr ++ evs' /\ within (S n) (S n) allowed evs').
    { intros t evs -> Hw. exists evs. split; [reflexivity|].
      apply (within_weaken 0 1); auto; lia. }
    apply gbind_inv in H. destruct H as [(target & tr1 & Hb & H) | (e & Hb & ->)].
    2:{ apply glift_inv in Hb. destruct Hb as [_ ->]. apply (Hstop _ []).
        - now rewrite app_nil_r.
        - apply (within_weaken 0 0); auto. apply within_nil. }
    apply glift_inv in Hb. destruct Hb as [_ ->].
    apply gbind_inv in H. destruct H as [(changed & tr1 & Hb & H) | (e & Hb & ->)].
    2:{ apply repair_once_within in Hb. destruct Hb as (evs & -> & Hw). now apply (Hstop _ evs). }
    apply repair_once_within in Hb. destruct Hb as (evs & -> & Hw).
    destruct changed.
    2:{ apply still_failing_inv in H. destruct H as [-> _]. now apply (Hstop _ evs). }
    apply gbind_inv in H. destruct H as [(run & tr1 & Hb & H) | (e & Hb & ->)].
    2:{ apply (run_within allowed) in Hb. destruct Hb as (evs2 & -> & Hw2).
        exists (evs ++ evs2). split; [now rewrite app_assoc|].
        apply (within_weaken (0 + 1) (1 + 0)); try lia. now apply within_app. }
    apply (run_within allowed) in Hb. destruct Hb as (evs2 & -> & Hw2).
    destruct (fst run).
    + apply gret_inv in H. destruct H as [-> ->].
      exists (evs ++ evs2). split; [now rewrite app_assoc|].
      apply (within_weaken (0 + 1) (1 + 0)); try lia. now apply within_app.
    + apply IH in H. destruct H as (evs3 & -> & Hw3).
      exists ((evs ++ evs2) ++ evs3). split; [now rewrite !app_assoc|].
      apply (within_weaken ((0 + 1) + n) ((1 + 0) + n)); try lia.
      apply within_app; [now apply within_app | exact Hw3].
Qed.

(** X28. However the tests and the model answer, the repair loop runs the
    tests at most once more than [MAX_REPAIR_TRIES] and calls the model at
    most [MAX_REPAIR_TRIES] times; in the project it writes only files of
    the allowed list, and it never touches the demo UI. *)
Theorem repair_loop_bounded (slug topic : string) (allowed_rel : list string)
    (tr : list gen_event) :
  exists evs,
    snd (repair_loop_if_needed slug topic allowed_rel tr) = tr ++ evs /\
    runner_calls evs <= MAX_REPAIR_TRIES + 1 /\
    llm_calls evs <= MAX_REPAIR_TRIES /\
    Forall (fun rel => In rel allowed_rel) (files_written evs) /\
    existsb is_ui evs = false.
Proof.
  destruct (repair_loop_if_needed slug topic allowed_rel tr) as [r tr'] eqn:H.
  cbn [snd]. unfold repair_loop_if_needed in H.
  enough (exists evs, tr' = tr ++ evs /\
            within (MAX_REPAIR_TRIES + 1) MAX_REPAIR_TRIES allowed_rel evs) as (evs & Ht & Hw)
    by (exists evs; split; [exact Ht | exact Hw]).
  apply gbind_inv in H. destruct H as [(run & tr1 & Hb & H) | (e & Hb & ->)].
  2:{ apply (run_within allowed_rel) in Hb. destruct Hb as (evs & -> & Hw).
      exists evs. split; [reflexivity|]. apply (within_weaken 1 0); auto; unfold MAX_REPAIR_TRIES; lia. }
  apply (run_within allowed_rel) in Hb. destruct Hb as (evs & -> & Hw).
  destruct (fst run).
  - apply gret_inv in H. destruct H as [-> ->].
    exists evs. split; [reflexivity|]. apply (within_weaken 1 0); auto; unfold MAX_REPAIR_TRIES; lia.
  - apply repair_rounds_within in H. destruct H as (evs2 & -> & Hw2).
    exists (evs ++ evs2). split; [now rewrite app_assoc|].
    apply (within_weaken (1 + MAX_REPAIR_TRIES) (0 + MAX_REPAIR_TRIES)); try (unfold MAX_REPAIR_TRIES; lia).
    now apply within_app.
Qed.

Lemma repair_rounds_true (slug topic : string) (allowed : list string) :
  forall n report tr tr',
    repair_rounds n slug topic allowed report tr = (Ok true, tr') ->
    exists evs data,
      run_tests_with_config slug (tr ++ evs) = (Ok (true, data), tr').
Proof.
  induction n as [|n IH]; intros report tr tr' H; cbn [repair_rounds] in H.
  - apply still_failing_inv in H. now destruct H.
  - apply gbind_inv in H. destruct H as [(target & tr1 & Hb & H) | (e & _ & He)];
      [|discriminate].
    apply glift_inv in Hb. destruct Hb as [_ ->].
    apply gbind_inv in H. destruct H as [(changed & tr1 & Hb & H) | (e & _ & He)];
      [|discriminate].
    apply repair_once_within in Hb. destruct Hb as (evs & -> & _).
    destruct changed.
    2:{ apply still_failing_inv in H. now destruct H. }
    apply gbind_inv in H. destruct H as [([ok data] & tr1 & Hb & H) | (e & _ & He)];
      [|discriminate].
    cbn [fst snd] in H. destruct ok.
    + apply gret_inv in H. destruct H as [_ ->]. now exists evs, data.
    + pose proof (run_within allowed _ _ _ _ Hb) as (evs2 & -> & _).
      apply IH in H. destruct H as (evs3 & data' & H).
      exists ((evs ++ evs2) ++ evs3), data'. now rewrite !app_assoc in *.
Qed.

(** X29. The repair loop says that the project is good only when the last
    thing it did was a run of the tests that passed. *)
Theorem repair_loop_passes_after_passing_run (slug topic : string)
    (allowed_rel : list string) (tr tr' : list gen_event) :
  repair_loop_if_needed slug topic allowed_rel tr = (Ok true, tr') ->
  exists evs data,
    run_tests_with_config slug (tr ++ evs) = (Ok (true, data), tr').
Proof.
  unfold repair_loop_if_needed. intros H.
  apply gbind_inv in H. destruct H as [([ok data] & tr1 & Hb & H) | (e & _ & He)];
    [|discriminate].
  cbn [fst snd] in H. destruct ok.
  - apply gret_inv in H. destruct H as [_ ->]. exists [], data. now rewrite app_nil_r.
  - pose proof (run_within allowed_rel _ _ _ _ Hb) as (evs & -> & _).
    apply repair_rounds_true in H. destruct H as (evs2 & data' & H).
    exists (evs ++ evs2), data'. now rewrite app_assoc.
Qed.

(** ** Verifying a project *)


End Generator.

(** * Concrete plans and runs

    The theorems above hold for every runtime and every environment.  Here
    they are applied to concrete plans, with a runtime and an environment
    fixed as follows. *)

(** [str.lower] on ASCII text. *)
Definition lower_char (c : ascii) : ascii :=
  let n := nat_of_ascii c in
  if Nat.leb 65 n && Nat.leb n 90 then ascii_of_nat (n + 32) else c.

Fixpoint lower (s : string) : string :=
  match s with
  | EmptyString => EmptyString
  | String c r => String (lower_char c) (lower r)
  end.

(** A [repr] that is never needed below, and an environment that defines
    [HOME] alone. *)
Definition repr_unused (v : value) : string := "".

Definition env_home (k : string) : option string :=
  if String.eqb k "HOME" then Some "/root" else None.

(** ** deep_merge *)

Definition base_stack : value :=
  VDict [("vars", VDict [("BE_PORT", VInt 5000); ("API", VStr "/api")]);
         ("services", VList [VDict [("name", VStr "backend")]])].

Definition front_stack : value :=
  VDict [("vars", VDict [("FE_PORT", VInt 5173); ("API", VStr "/v2")]);
         ("services", VList [VDict [("name", VStr "frontend")]])].

Lemma deep_merge_spec_witness :
  wf_value base_stack = true /\ wf_value front_stack = true /\
  deep_merge base_stack base_stack = base_stack.
Proof.
  split; [reflexivity|]. split; [reflexivity|].
  exact (proj2 (deep_merge_spec base_stack front_stack eq_refl eq_refl)).
Defined.

Example deep_merge_stacks :
  deep_merge base_stack front_stack =
  VDict [("vars", VDict [("BE_PORT", VInt 5000); ("API", VStr "/v2"); ("FE_PORT", VInt 5173)]);
         ("services", VList [VDict [("name", VStr "frontend")]])].
Proof. reflexivity. Qed.

(** ** merge_named_list *)

Definition base_tests : value :=
  VList [VDict [("name", VStr "unit"); ("cmd", VList [VStr "pytest"])];
         VDict [("name", VStr "e2e"); ("cmd", VList [VStr "playwright"])]].

Definition test_overrides : value :=
  VDict [("e2e", VDict [("retries", VInt 2)]); ("unit", VDict [("disabled", VBool true)])].

Definition added_tests : value :=
  VList [VDict [("name", VStr "smoke")];
         VDict [("name", VStr "slow"); ("disabled", VBool true)]].

Example merge_named_list_tests :
  merge_named_list base_tests test_overrides added_tests =
  Ok [VDict [("name", VStr "e2e"); ("cmd", VList [VStr "playwright"]); ("retries", VInt 2)];
      VDict [("name", VStr "smoke")]].
Proof. reflexivity. Qed.

(** The add-list entry [slow] is disabled: it is not appended. *)
Lemma merge_named_list_drops_disabled_add :
  ~ (forall out adds,
       merge_named_list base_tests test_overrides added_tests = Ok out ->
       items_or_empty added_tests = Ok adds ->
       exists pre, out = pre ++ adds).
Proof.
  intros H. destruct (H _ _ eq_refl eq_refl) as [pre Hpre].
  apply (f_equal (fun l => last l)) in Hpre.
  rewrite last_app in Hpre. discriminate Hpre.
Qed.

Lemma merge_named_list_order_witness :
  is_ok (merge_named_list base_tests test_overrides added_tests) = true.
Proof.
  exact (proj2 (merge_named_list_order base_tests test_overrides added_tests)
           eq_refl eq_refl eq_refl).
Defined.

(** ** resolve_vars *)

(** A scan for a token, to decide [has_token] on concrete text. *)
Fixpoint scan_token (s : string) : bool :=
  match s with
  | EmptyString => false
  | String c r =>
      match match_token s with
      | Some _ => true
      | None => scan_token r
      end
  end.

Lemma scan_token_complete s : has_token s -> scan_token s = true.
Proof.
  intros (pre & name & post & -> & Hn).
  induction pre as [|c p IH].
  - change ("" +:+ token name +:+ post) with (token name +:+ post).
    pose proof (match_token_token name post Hn) as Hm.
    destruct (token name +:+ post) as [|c r]; [discriminate Hm|].
    cbn [scan_token]. now rewrite Hm.
  - cbn [String.append scan_token]. now destruct (match_token _).
Qed.

Lemma scan_token_false s : scan_token s = false -> ~ has_token s.
Proof. intros H Ht. apply scan_token_complete in Ht. congruence. Qed.

Definition demo_vars : dict :=
  [("BE_PORT", VInt 5000); ("SLUG", VStr "demo")].

Example resolve_vars_url :
  resolve_vars repr_unused env_home
    (VDict [("url", VStr "http://localhost:${BE_PORT}/api/${SLUG}");
            ("home", VList [VStr "${HOME}/x"; VStr "${UNSET} ${lower}"; VInt 3])])
    demo_vars =
  VDict [("url", VStr "http://localhost:5000/api/demo");
         ("home", VList [VStr "/root/x"; VStr "${UNSET} ${lower}"; VInt 3])].
Proof. reflexivity. Qed.

Lemma resolve_vars_spec_witness :
  ~ has_token "http://localhost:" /\ var_name "BE_PORT" /\
  resolve_vars repr_unused env_home (VStr "http://localhost:${BE_PORT}/api") demo_vars =
  VStr "http://localhost:5000/api".
Proof.
  assert (H1 : ~ has_token "http://localhost:") by (apply scan_token_false; reflexivity).
  assert (H2 : var_name "BE_PORT") by (split; [discriminate|reflexivity]).
  split; [exact H1|]. split; [exact H2|].
  exact (proj1 (resolve_vars_spec repr_unused env_home demo_vars)
           "http://localhost:" "BE_PORT" "/api" H1 H2).
Defined.

(** ** _expand_project_paths *)

Definition demo_plan : value :=
  VDict [("project", VStr "demo");
         ("services",
          VList [VDict [("name", VStr "backend"); ("cwd", VStr "./backend");
                        ("start", VList [VStr "flask"; VStr "run"])]]);
         ("tests",
          VList [VDict [("name", VStr "unit"); ("type", VStr "junit");
                        ("cwd", VStr "backend/tests");
                        ("cmd", VList [VStr "pytest"; VInt 3]);
                        ("junit_xml", VStr "backend\report.xml")]])].

Definition demo_plan_expanded : value :=
  VDict [("project", VStr "demo");
         ("services",
          VList [VDict [("name", VStr "backend"); ("cwd", VStr "content/code/demo/backend");
                        ("start", VList [VStr "flask"; VStr "run"])]]);
         ("tests",
          VList [VDict [("name", VStr "unit"); ("type", VStr "junit");
                        ("cwd", VStr "content/code/demo/backend/tests");
                        ("cmd", VList [VStr "pytest"; VStr "3"]);
                        ("junit_xml", VStr "content/code/demo/backend/report.xml")]])].

Example expand_demo_plan :
  _expand_project_paths repr_unused demo_plan "demo" = Ok demo_plan_expanded.
Proof. reflexivity. Qed.

(** The plan is accepted, and its expansion is not: a second application
    does not give the same output. *)
Lemma expand_twice_raises :
  ~ (forall out,
       _expand_project_paths repr_unused demo_plan "demo" = Ok out ->
       _expand_project_paths repr_unused out "demo" = Ok out).
Proof. intros H. specialize (H _ eq_refl). discriminate H. Qed.

(** A plan whose test escapes the project is refused. *)
Definition escaping_tests : list value :=
  [VDict [("name", VStr "unit"); ("cwd", VStr "./../backend")]].

Lemma expand_project_paths_spec_witness :
  raises (_expand_project_paths repr_unused (VDict [("tests", VList escaping_tests)]) "demo") /\
  raises (_expand_project_paths repr_unused demo_plan_expanded "demo").
Proof.
  split.
  - refine (proj1 (expand_project_paths_spec repr_unused
                     (VDict [("tests", VList escaping_tests)]) "demo")
              [("tests", VList escaping_tests)] "tests" escaping_tests
              [("name", VStr "unit"); ("cwd", VStr "./../backend")] (VStr "./../backend")
              eq_refl (or_intror eq_refl) eq_refl _ eq_refl eq_refl).
    left. reflexivity.
  - exact (proj2 (expand_project_paths_spec repr_unused demo_plan "demo")
             demo_plan_expanded eq_refl).
Defined.

(** ** Template resolution *)

Definition demo_registry : list (string * dict) :=
  [("flask", [("name", VStr "flask"); ("detect", VList [VStr "Flask"; VStr "python"])]);
   ("fastapi", [("name", VStr "fastapi"); ("detect", VList [VStr "FastAPI"; VStr "Python"])]);
   ("spring", [("name", VStr "spring"); ("detect", VList [VStr "spring"; VStr "java"])])].

Example scores_of_registry :
  template_scores lower demo_registry (lower "Build a Python chatbot with FastAPI") =
  Ok [("flask", 1%nat); ("fastapi", 2%nat); ("spring", 0%nat)].
Proof. reflexivity. Qed.

Example tie_goes_to_first :
  load_or_autogen_template lower demo_registry "A python service" None =
  Ok (UseExisting "flask").
Proof. reflexivity. Qed.



(** ** Runs of the orchestrator *)

(** An environment in which every action takes 5 ms, every process starts
    and keeps running until it is killed, install commands succeed and the
    test command fails; the healthcheck URL answers [pong], or refuses the
    connection. *)
Definition no_int (s : string) : option Z := None.
Definition lat5 (tr : list event) : N := 5%N.
Definition popen_fine (tr : list event) : option exn := None.
Definition pong (tr : list event) : http_reply := HttpBody "pong".
Definition refused (tr : list event) : http_reply := HttpURLError.
Definition still_running (tr : list event) : bool := false.
Definition install_fine (tr : list event) : run_reply := RunExit 0 "" "".
Definition test_fails (tr : list event) : test_reply := TestExit 1 "1 failed" "".
Definition no_junit (tr : list event) (p : string) : dict + string := inr "no such file".
Definition no_playwright (s : string) : dict + string := inr "not JSON".

Definition w0 : world := {| trace := []; now := 0 |}.

Definition run_with (http : list event -> http_reply) (cfg : value) (a : args)
  : outcome * world :=
  main lower no_int lat5 popen_fine http still_running install_fine test_fails
       no_junit no_playwright cfg a w0.

Definition no_override : args := {| a_human := false; a_max_service_wait := 0 |}.
Definition wait_5s : args := {| a_human := false; a_max_service_wait := 5 |}.

Definition ping_url : value := VStr "http://127.0.0.1:5000/api/ping".

Definition db : value :=
  VDict [("name", VStr "db"); ("start", VList [VStr "redis-server"])].

Definition backend (timeout_sec : Z) : value :=
  VDict [("name", VStr "backend"); ("start", VList [VStr "flask"; VStr "run"]);
         ("healthcheck",
          VDict [("url", ping_url); ("expect", VStr "pong");
                 ("timeout_sec", VInt timeout_sec)])].

(** A service whose start command is a string, not a list of strings. *)
Definition frontend_broken : value :=
  VDict [("name", VStr "frontend"); ("start", VStr "npm run dev")].

Definition plan (services : list value) : value :=
  VDict [("project", VStr "demo"); ("services", VList services)].

Definition db_up : world :=
  {| trace := [ETime; EPopen 0 ["redis-server"]; ESleep 1000; ETime]; now := 1020 |}.

Definition db_meta : svc_meta :=
  {| m_name := VStr "db"; m_healthy := true; m_duration_ms := 1015 |}.

(** The second service cannot be started: the run ends with the
    exception, and the trace has no event that stops the first. *)
Lemma startup_exception_skips_teardown_witness :
  run_with pong (plan [db; frontend_broken]) no_override =
  (Uncaught (ValueError "Command must be a list[str]."), db_up).
Proof.
  destruct (startup_exception_skips_teardown
              lower no_int lat5 popen_fine pong still_running install_fine test_fails
              no_junit no_playwright
              (plan [db; frontend_broken]) no_override w0
              (VList [db; frontend_broken]) [db] frontend_broken []
              [db_meta] [(VStr "db", 0%nat)] db_up
              (ValueError "Command must be a list[str].") db_up
              eq_refl eq_refl eq_refl eq_refl)
    as (evs1 & evs2 & Hmain & _).
  exact Hmain.
Defined.

(** The backend never answers within its second: three requests, then
    both processes are stopped, the backend first. *)
Definition backend_down : world :=
  {| trace :=
       [ETime; EPopen 0 ["redis-server"]; ESleep 1000; ETime;
        ETime; EPopen 1 ["flask"; "run"]; ETime;
        ETime; EHttpGet ping_url; ESleep 400;
        ETime; EHttpGet ping_url; ESleep 400;
        ETime; EHttpGet ping_url; ESleep 400;
        ETime; ETime;
        ETerminate 1; ETerminate 0; ESleep 700;
        EPoll 1; EKill 1; EPoll 0; EKill 0];
     now := 3025 |}.

Definition backend_meta : svc_meta :=
  {| m_name := VStr "backend"; m_healthy := false; m_duration_ms := 1265 |}.



Example unhealthy_run :
  run_with refused (plan [db; backend 1]) no_override =
  (Exited 1 {| rep_project := VStr "demo"; rep_overall_passed := false;
               rep_services := [db_meta; backend_meta]; rep_results := [] |},
   {| trace := trace backend_down ++
                 [ETerminate 1; ETerminate 0; ESleep 700;
                  EPoll 1; EKill 1; EPoll 0; EKill 0];
      now := 3760 |}).
Proof. reflexivity. Qed.

(** A declared timeout of zero, and no [--max-service-wait]. *)
Lemma zero_timeout_healthcheck_witness :
  wait_http lat5 refused ping_url (VStr "pong") 0 w0 =
    (Ok false, tick lat5 ETime (tick lat5 ETime w0)) /\
  exists rep w',
    run_with pong (plan [db; backend 0]) no_override = (Exited 1 rep, w') /\
    rep_results rep = [].
Proof.
  split.
  - exact (proj1 (zero_timeout_healthcheck
                    lower no_int lat5 popen_fine refused still_running install_fine
                    test_fails no_junit no_playwright)
             ping_url (VStr "pong") 0%Z w0 (Z.le_refl 0)).
  - destruct (proj2 (proj2 (zero_timeout_healthcheck
                    lower no_int lat5 popen_fine pong still_running install_fine
                    test_fails no_junit no_playwright))
               (plan [db; backend 0]) no_override w0
               (VList [db; backend 0]) [db] (backend 0) []
               {| s_name := VStr "backend"; s_cmd := ["flask"; "run"]; s_url := ping_url;
                  s_expect := VStr "pong"; s_timeout_sec := 0 |}
               [db_meta] [(VStr "db", 0%nat)] db_up
               eq_refl eq_refl eq_refl eq_refl eq_refl (Z.le_refl 0) eq_refl)
      as (project & dur & ex1 & ex2 & w' & Hmain & _).
    eexists _, w'. split; [exact Hmain|reflexivity].
Defined.

(** The same plan with [--max-service-wait 5]: the declared timeout is
    still zero, yet a request is made and the backend is recorded healthy. *)
Lemma max_service_wait_overrides_zero_timeout :
  (exists s, read_service no_int 0 (backend 0) = Ok s /\ s_timeout_sec s = 0%Z) /\
  run_with pong (plan [db; backend 0]) wait_5s =
  (Exited 0
     {| rep_project := VStr "demo"; rep_overall_passed := true;
        rep_services :=
          [db_meta;
           {| m_name := VStr "backend"; m_healthy := true; m_duration_ms := 25 |}];
        rep_results := [] |},
   {| trace :=
        [ETime; EPopen 0 ["redis-server"]; ESleep 1000; ETime;
         ETime; EPopen 1 ["flask"; "run"]; ETime;
         ETime; EHttpGet ping_url; ETime;
         ETerminate 1; ETerminate 0; ESleep 700;
         EPoll 1; EKill 1; EPoll 0; EKill 0];
      now := 1785 |}).
Proof. split; [eexists; split; reflexivity|reflexivity]. Qed.

(** A failing test with two retries and one install command. *)
Definition unit_test : dict :=
  [("name", VStr "unit"); ("type", VStr "JUnit"); ("cmd", VList [VStr "pytest"]);
   ("install", VList [VList [VStr "pip"; VStr "install"; VStr "-r"; VStr "requirements.txt"]]);
   ("retries", VInt 2); ("timeout_sec", VInt 60)].

Example retried_run :
  run_one_test lower no_int lat5 install_fine test_fails no_junit no_playwright
    (VDict unit_test) w0 =
  (Ok {| r_name := VStr "unit"; r_type := "raw"; r_returncode := 1; r_error := None;
         r_summary := [("stdout_tail", VStr "1 failed"); ("stderr_tail", VStr "");
                       ("duration_sec", VInt 10)] |},
   {| trace :=
        [EInstall ["pip"; "install"; "-r"; "requirements.txt"];
         ETime; ETest ["pytest"] 60; ETime; ESleep 600;
         ETime; ETest ["pytest"] 60; ETime; ESleep 600;
         ETime; ETest ["pytest"] 60; ETime];
      now := 1260 |}).
Proof. reflexivity. Qed.

Lemma retried_test_reports_final_attempt_witness :
  exists res w',
    run_one_test lower no_int lat5 install_fine test_fails no_junit no_playwright
      (VDict unit_test) w0 = (Ok res, w') /\
    r_returncode res <> 0%Z.
Proof.
  destruct (proj1 (retried_test_reports_final_attempt
              lower no_int lat5 install_fine test_fails no_junit no_playwright
              unit_test
              {| t_name := VStr "unit"; t_type := "junit"; t_cmd := ["pytest"];
                 t_install := VList [VList [VStr "pip"; VStr "install"; VStr "-r";
                                            VStr "requirements.txt"]];
                 t_timeout_sec := 60; t_retries := 2 |}
              [VList [VStr "pip"; VStr "install"; VStr "-r"; VStr "requirements.txt"]]
              [["pip"; "install"; "-r"; "requirements.txt"]] VNull
              eq_refl eq_refl eq_refl
              ltac:(constructor; [reflexivity|constructor])
              eq_refl eq_refl
              (fun tr => ex_intro _ "" (ex_intro _ "" eq_refl))
              ltac:(intros tr; discriminate)) w0)
    as (w3 & res & w' & Hrun & _ & _ & _ & Hrc).
  exists res, w'. split; [exact Hrun|exact Hrc].
Defined.

(** * More concrete runs

    The properties of the healthcheck, of a single test and of a whole run,
    and those of the composer, on concrete plans. *)

(** ** The healthcheck *)

Example polling_stays_in_bound :
  trace (snd (wait_http lat5 refused ping_url (VStr "pong") 1 w0)) =
  [ETime; ETime; EHttpGet ping_url; ESleep 400; ETime; EHttpGet ping_url; ESleep 400;
   ETime; EHttpGet ping_url; ESleep 400; ETime].
Proof. reflexivity. Qed.

Lemma wait_http_true_on_expected_reply_witness :
  wait_http lat5 pong ping_url (VStr "pong") 5 w0 =
    (Ok true, {| trace := [ETime; ETime; EHttpGet ping_url]; now := 15 |}) /\
  exists evs body,
    [ETime; ETime; EHttpGet ping_url] = [] ++ evs ++ [EHttpGet ping_url] /\
    forallb is_wait_event evs = true /\
    pong [ETime; ETime; EHttpGet ping_url] = HttpBody body /\
    expect_met (VStr "pong") body = Ok true.
Proof.
  split; [reflexivity|].
  exact (wait_http_true_on_expected_reply lat5 pong ping_url (VStr "pong") 5 w0
           {| trace := [ETime; ETime; EHttpGet ping_url]; now := 15 |} eq_refl).
Defined.

Definition refused_for_1s : world :=
  {| trace := [ETime; ETime; EHttpGet ping_url; ESleep 400; ETime; EHttpGet ping_url;
               ESleep 400; ETime; EHttpGet ping_url; ESleep 400; ETime];
     now := 1255 |}.

Lemma wait_http_false_after_timeout_witness :
  wait_http lat5 refused ping_url (VStr "pong") 1 w0 = (Ok false, refused_for_1s) /\
  exists evs,
    trace refused_for_1s = trace w0 ++ [ETime] ++ evs ++ [ETime] /\
    (1 * 1000 <= now refused_for_1s - now (tick lat5 ETime w0))%Z.
Proof.
  split; [reflexivity|].
  exact (wait_http_false_after_timeout lat5 refused ping_url (VStr "pong") 1 w0
           refused_for_1s eq_refl).
Defined.

(** ** One test *)

(** An install command that fails, for a test that would be retried. *)
Definition install_broken (tr : list event) : run_reply :=
  RunExit 2 "" "no matching distribution".

Definition dep_test : value :=
  VDict [("name", VStr "unit"); ("cmd", VList [VStr "pytest"]);
         ("install", VList [VList [VStr "pip"; VStr "install"; VStr "flask"]]);
         ("retries", VInt 3)].

Definition dep_result : test_result :=
  {| r_name := VStr "unit"; r_type := "raw"; r_returncode := 2;
     r_error := Some "install-failed";
     r_summary := [("install_cmd", VList [VStr "pip"; VStr "install"; VStr "flask"])] |}.

Definition dep_world : world :=
  {| trace := [EInstall ["pip"; "install"; "flask"]]; now := 5 |}.

Lemma install_failure_skips_test_witness :
  run_one_test lower no_int lat5 install_broken test_fails no_junit no_playwright
    dep_test w0 = (Ok dep_result, dep_world) /\
  exists evs n,
    trace dep_world = trace w0 ++ evs /\
    test_runs evs = 0%nat /\
    install_codes install_broken (trace w0) evs
      = repeat (Some 0%Z) n ++ [Some (r_returncode dep_result)] /\
    r_returncode dep_result <> 0%Z.
Proof.
  split; [reflexivity|].
  exact (install_failure_skips_test lower no_int lat5 install_broken test_fails
           no_junit no_playwright dep_test w0 dep_result dep_world eq_refl eq_refl).
Defined.

Definition unit_decl : test_decl :=
  {| t_name := VStr "unit"; t_type := "junit"; t_cmd := ["pytest"];
     t_install := VList [VList [VStr "pip"; VStr "install"; VStr "-r";
                                VStr "requirements.txt"]];
     t_timeout_sec := 60; t_retries := 2 |}.

Definition unit_result : test_result :=
  {| r_name := VStr "unit"; r_type := "raw"; r_returncode := 1; r_error := None;
     r_summary := [("stdout_tail", VStr "1 failed"); ("stderr_tail", VStr "");
                   ("duration_sec", VInt 10)] |}.

Definition unit_world : world :=
  {| trace :=
       [EInstall ["pip"; "install"; "-r"; "requirements.txt"];
        ETime; ETest ["pytest"] 60; ETime; ESleep 600;
        ETime; ETest ["pytest"] 60; ETime; ESleep 600;
        ETime; ETest ["pytest"] 60; ETime];
     now := 1260 |}.

Lemma test_attempts_bounded_witness :
  read_test lower no_int (VDict unit_test) = Ok unit_decl /\
  exists evs failed,
    trace unit_world = trace w0 ++ evs /\
    Forall (fun c => c = Some 0%Z) (install_codes install_fine (trace w0) evs) /\
    attempt_codes test_fails (trace w0) evs = failed ++ [r_returncode unit_result] /\
    Forall (fun rc => rc <> 0%Z) failed /\
    (length failed <= Z.to_nat (t_retries unit_decl))%nat /\
    (r_returncode unit_result <> 0%Z -> length failed = Z.to_nat (t_retries unit_decl)).
Proof.
  split; [reflexivity|].
  exact (test_attempts_bounded lower no_int lat5 install_fine test_fails
           no_junit no_playwright (VDict unit_test) unit_decl w0 unit_result unit_world
           eq_refl eq_refl ltac:(discriminate)).
Defined.

(** ** A whole run *)

Definition lint_test : value := VDict [("name", VStr "lint"); ("cmd", VList [VStr "ruff"])].

Definition test_plan : value :=
  VDict [("project", VStr "demo"); ("services", VList [db]);
         ("tests", VList [VDict unit_test; lint_test])].

Definition lint_result : test_result :=
  {| r_name := VStr "lint"; r_type := "raw"; r_returncode := 1; r_error := None;
     r_summary := [("stdout_tail", VStr "1 failed"); ("stderr_tail", VStr "");
                   ("duration_sec", VInt 10)] |}.

Definition failed_report : report :=
  {| rep_project := VStr "demo"; rep_overall_passed := false;
     rep_services := [db_meta]; rep_results := [unit_result; lint_result] |}.

Definition failed_run : world :=
  {| trace :=
       [ETime; EPopen 0 ["redis-server"]; ESleep 1000; ETime;
        EInstall ["pip"; "install"; "-r"; "requirements.txt"]; ETime;
        ETest ["pytest"] 60; ETime; ESleep 600; ETime;
        ETest ["pytest"] 60; ETime; ESleep 600; ETime;
        ETest ["pytest"] 60; ETime; ETime; ETest ["ruff"] 0; ETime;
        ETerminate 0; ESleep 700; EPoll 0; EKill 0];
     now := 3015 |}.

Example failing_tests_run :
  run_with pong test_plan no_override = (Exited 1 failed_report, failed_run).
Proof. reflexivity. Qed.

Lemma tests_always_followed_by_teardown_witness :
  start_services no_int lat5 popen_fine pong still_running test_plan 0 w0
    = (Ok ([db_meta], [(VStr "db", 0%nat)], true), db_up) /\
  exists evs_test exited,
    trace failed_run =
      trace db_up ++ evs_test ++ stop_events [(VStr "db", 0%nat)] exited /\
    forallb is_test_event evs_test = true /\ length exited = 1%nat.
Proof.
  split; [reflexivity|].
  destruct (tests_always_followed_by_teardown
              lower no_int lat5 popen_fine pong still_running install_fine test_fails
              no_junit no_playwright test_plan no_override w0
              [db_meta] [(VStr "db", 0%nat)] db_up eq_refl)
    as (evs_start & evs_test & exited & Hs & Ht & _ & Hev & Hlen & _).
  exists evs_test, exited. split; [|now split].
  change (trace (snd (run_with pong test_plan no_override)) =
          trace w0 ++ evs_start ++ evs_test ++ stop_events [(VStr "db", 0%nat)] exited) in Ht.
  rewrite failing_tests_run in Ht. cbn [snd] in Ht. now rewrite Ht, Hs, <- app_assoc.
Defined.

Lemma every_declared_test_is_reported_witness :
  run_with pong test_plan no_override = (Exited 1 failed_report, failed_run) /\
  exists d tests,
    test_plan = VDict d /\ declared_tests d = Ok tests /\
    Forall2 (fun tcfg r => exists t, read_test lower no_int tcfg = Ok t /\ r_name r = t_name t)
            tests (rep_results failed_report).
Proof.
  split; [reflexivity|].
  exact (every_declared_test_is_reported
           lower no_int lat5 popen_fine pong still_running install_fine test_fails
           no_junit no_playwright test_plan no_override w0 1 failed_report failed_run
           eq_refl ltac:(repeat constructor)).
Defined.

Lemma service_without_healthcheck_witness :
  exists me w',
    start_one no_int lat5 popen_fine pong 0 db 0%nat w0 = (Ok ((VStr "db", 0%nat), me), w') /\
    m_healthy me = true /\ (1000 <= m_duration_ms me)%Z /\
    trace w' = [ETime; EPopen 0 ["redis-server"]; ESleep 1000; ETime].
Proof.
  destruct (service_without_healthcheck no_int lat5 popen_fine pong 0 db
              {| s_name := VStr "db"; s_cmd := ["redis-server"]; s_url := VNull;
                 s_expect := VNull; s_timeout_sec := 20 |}
              0%nat w0 eq_refl eq_refl eq_refl)
    as (me & w' & Hrun & _ & Hh & Hd & Ht).
  exists me, w'. now repeat split.
Defined.

(** ** Names *)

(** White space of ASCII text. *)
Definition ascii_space (c : ascii) : bool :=
  let n := nat_of_ascii c in
  (Nat.leb 9 n && Nat.leb n 13) || Nat.eqb n 32.

Example slugify_topic :
  slugify ascii_space lower "  Build AI Chatbot with Flask & React " =
  "build-ai-chatbot-with-flask-react".
Proof. reflexivity. Qed.

Example slugify_plus : slugify ascii_space lower "C++ / Vue" = "c-plus-plus-vue".
Proof. reflexivity. Qed.

Example api_slugify_keeps_underscore :
  _slugify ascii_space lower "My_Demo -- v2" = "my_demo-v2".
Proof. reflexivity. Qed.

Example stack_name_of_path :
  stack_name lower "backend" "a flask api" (Some "../../Etc/Cron.d") = "etc-cron-d".
Proof. reflexivity. Qed.

Lemma lower_char_slug c : slug_char c = true -> lower_char c = c.
Proof.
  destruct c as [[] [] [] [] [] [] [] []]; intros H; try reflexivity; discriminate H.
Qed.

Lemma lower_slug t : all_chars slug_char t = true -> lower t = t.
Proof.
  induction t as [|c t IH]; [reflexivity|]. cbn [all_chars lower]. intros H.
  apply andb_true_iff in H as [Hc Ht]. now rewrite (lower_char_slug _ Hc), IH.
Qed.

Lemma slug_char_no_space c : slug_char c = true -> ascii_space c = false.
Proof.
  destruct c as [[] [] [] [] [] [] [] []]; intros H; try reflexivity; discriminate H.
Qed.

Lemma slugify_idempotent_witness :
  slugify ascii_space lower (slugify ascii_space lower "Flask + React!") =
  slugify ascii_space lower "Flask + React!".
Proof.
  exact (slugify_idempotent ascii_space lower "Flask + React!" lower_slug slug_char_no_space).
Defined.

Lemma slugify_default_witness : slugify ascii_space lower " ?!... " = "project".
Proof. exact (slugify_default ascii_space lower " ?!... " eq_refl). Defined.

(** ** Files of a template *)

Example normalize_windows_path :
  _normalize_relpath ascii_space (VStr " .\src\main.py ") (Some "backend") =
  Some "backend/src/main.py".
Proof. reflexivity. Qed.

Example normalize_keeps_parent_segments :
  _normalize_relpath ascii_space (VStr "../../secrets.env") (Some "backend") =
  Some "backend/../../secrets.env".
Proof. reflexivity. Qed.

Lemma normalize_relpath_safe_witness :
  is_safe_relpath "backend/src/main.py" = true /\
  (String.prefix "backend/" "backend/src/main.py"
   || String.prefix "frontend/" "backend/src/main.py" = true) /\
  no_backslash "backend/src/main.py" = true.
Proof.
  exact (normalize_relpath_safe ascii_space (VStr " .\src\main.py ") (Some "backend")
           "backend/src/main.py" eq_refl).
Defined.


Definition flask_files : value :=
  VDict [("files", VDict [("app.py", VStr "print(1)"); ("/etc/passwd", VStr "x");
                          ("frontend/index.html", VStr "<html>"); ("  ", VInt 0)])].

Definition flask_written : written :=
  {| writes := [("backend/app.py", "print(1)"); ("frontend/index.html", "<html>")];
     wrote := 2; skipped := 2 |}.

Lemma write_files_accounted_witness :
  write_files ascii_space repr_unused flask_files "backend" = Ok flask_written /\
  exists files,
    files_of flask_files = Ok files /\
    wrote flask_written + skipped flask_written = length files /\
    wrote flask_written = length (writes flask_written) /\
    Forall (fun wr => is_safe_relpath (fst wr) = true /\ no_backslash (fst wr) = true)
           (writes flask_written).
Proof.
  split; [reflexivity|].
  exact (write_files_accounted ascii_space repr_unused flask_files "backend" flask_written
           eq_refl).
Defined.

(** ** Templates *)

Definition flask_stack : value :=
  VDict [("name", VStr "flask");
         ("vars", VDict [("BE_PORT", VInt 5000)]);
         ("services",
          VList [VDict [("name", VStr "backend"); ("cwd", VStr "backend");
                        ("start", VList [VStr "flask"; VStr "run"; VStr "--port";
                                         VStr "${BE_PORT}"]);
                        ("healthcheck",
                         VDict [("url", VStr "http://localhost:${BE_PORT}/api/ping");
                                ("expect", VStr "pong"); ("timeout_sec", VInt 20)])]]);
         ("tests",
          VList [VDict [("name", VStr "backend-unit"); ("type", VStr "junit");
                        ("cwd", VStr "./backend");
                        ("cmd", VList [VStr "pytest"; VStr "-q"]);
                        ("junit_xml", VStr "backend/pytest_report.xml");
                        ("install", VList [VList [VStr "pip"; VStr "install"; VStr "-r";
                                                  VStr "requirements.txt"]])];
                 VDict [("name", VStr "backend-slow"); ("type", VStr "raw");
                        ("cwd", VStr "backend"); ("cmd", VList [VStr "pytest"; VStr "-m";
                                                                VStr "slow"])]])].

Lemma validate_template_accepts_witness : template_valid flask_stack.
Proof.
  exact (proj1 (validate_template_accepts repr_unused "backend" flask_stack) eq_refl).
Defined.

(** A service given as a list of its fields is refused, though every
    field name is in it. *)
Example validate_template_refuses_list_entry :
  validate_template repr_unused "backend"
    (VDict [("services", VList [VList [VStr "name"; VStr "cwd"; VStr "start"]]);
            ("tests", VList [])]) = Err TypeError.
Proof. reflexivity. Qed.

(** ** The composed plan *)

Definition demo_project : value :=
  VDict [("project", VStr "demo");
         ("extends", VList [VStr "tools/templates/backend/flask/stack.test.yaml"]);
         ("vars", VDict [("BE_PORT", VInt 5050); ("SLUG", VStr "other")]);
         ("overrides",
          VDict [("tests", VDict [("backend-slow", VDict [("disabled", VBool true)])]);
                 ("report", VStr "artifacts/${SLUG}/report.json")])].

Definition demo_files (path : string) : result value :=
  if String.eqb path "content/code/demo/demo.test.yaml" then Ok demo_project
  else if String.eqb path "tools/templates/backend/flask/stack.test.yaml" then Ok flask_stack
  else Err FileNotFoundError.

Definition demo_composed : value :=
  VDict [("version", VInt 1); ("project", VStr "demo"); ("name", VStr "flask");
         ("vars", VDict [("BE_PORT", VInt 5000)]);
         ("services",
          VList [VDict [("name", VStr "backend");
                        ("cwd", VStr "content/code/demo/backend");
                        ("start", VList [VStr "flask"; VStr "run"; VStr "--port"; VStr "5050"]);
                        ("healthcheck",
                         VDict [("url", VStr "http://localhost:5050/api/ping");
                                ("expect", VStr "pong"); ("timeout_sec", VInt 20)])]]);
         ("tests",
          VList [VDict [("name", VStr "backend-unit"); ("type", VStr "junit");
                        ("cwd", VStr "content/code/demo/backend");
                        ("cmd", VList [VStr "pytest"; VStr "-q"]);
                        ("junit_xml", VStr "content/code/demo/backend/pytest_report.xml");
                        ("install", VList [VList [VStr "pip"; VStr "install"; VStr "-r";
                                                  VStr "requirements.txt"]])]]);
         ("report", VStr "artifacts/demo/report.json");
         ("artifacts_dir", VStr "artifacts/demo")].

Example compose_demo :
  load_and_compose_test_config repr_unused env_home demo_files
    "content/code/demo/demo.test.yaml" "demo" = Ok demo_composed.
Proof. vm_compute. reflexivity. Qed.

Lemma composed_plan_shape_witness :
  exists m svcs tests,
    demo_composed = VDict m /\
    dict_has m "report" = true /\ dict_has m "artifacts_dir" = true /\
    dict_get m "services" = Some (VList svcs) /\
    dict_get m "tests" = Some (VList tests) /\
    Forall (plan_entry "demo") svcs /\
    Forall (fun t => plan_entry "demo" t /\ runnable_test t) tests.
Proof.
  exact (composed_plan_shape repr_unused env_home demo_files
           "content/code/demo/demo.test.yaml" "demo" demo_composed compose_demo).
Defined.

Definition stack_vars : dict := [("BE_PORT", VInt 5000); ("API", VStr "/api")].
Definition project_vars : dict := [("BE_PORT", VInt 5050); ("SLUG", VStr "other")].

Lemma combined_vars_precedence_witness :
  repl repr_unused env_home
    [("BE_PORT", VInt 5050); ("API", VStr "/api"); ("SLUG", VStr "demo");
     ("__PROJECT__", VStr "demo")] "SLUG" = "demo" /\
  dict_get [("BE_PORT", VInt 5050); ("API", VStr "/api"); ("SLUG", VStr "demo");
            ("__PROJECT__", VStr "demo")] "BE_PORT" = Some (VInt 5050).
Proof.
  pose proof (combined_vars_precedence repr_unused env_home stack_vars project_vars "demo"
                [("BE_PORT", VInt 5050); ("API", VStr "/api"); ("SLUG", VStr "demo");
                 ("__PROJECT__", VStr "demo")] eq_refl eq_refl eq_refl) as H.
  split.
  - rewrite (proj2 (H "SLUG")), (proj1 (H "SLUG")). reflexivity.
  - exact (proj1 (H "BE_PORT")).
Defined.

(** ** The environment *)

Definition host_env : dict := [("PATH", VStr "/usr/bin"); ("HOME", VStr "/root")].

Lemma merge_env_precedence_witness :
  dict_get (merge_env host_env [("PORT", VStr "5000"); ("HOME", VStr "/srv")]
              (Some [("PORT", VStr "8080")])) "PORT" = Some (VStr "8080") /\
  dict_get (merge_env host_env [("PORT", VStr "5000"); ("HOME", VStr "/srv")]
              (Some [("PORT", VStr "8080")])) "HOME" = Some (VStr "/srv") /\
  dict_get (merge_env host_env [("PORT", VStr "5000"); ("HOME", VStr "/srv")]
              (Some [("PORT", VStr "8080")])) "PATH" = Some (VStr "/usr/bin").
Proof.
  pose proof (merge_env_precedence host_env [("PORT", VStr "5000"); ("HOME", VStr "/srv")]
                [("PORT", VStr "8080")] eq_refl eq_refl eq_refl) as H.
  split; [exact (proj1 (H "PORT"))|]. split; [exact (proj1 (H "HOME"))|exact (proj1 (H "PATH"))].
Defined.

Lemma env_args_parsed_witness :
  dict_get (parse_env_args (["A=1"] ++ ["URL" +:+ "=" +:+ "http://x/?a=b"] ++ ["verbose"]))
    "URL" = Some (VStr "http://x/?a=b") /\
  parse_env_args (["A=1"] ++ ["verbose"] ++ ["B=2"]) = parse_env_args (["A=1"] ++ ["B=2"]).
Proof.
  split.
  - exact (proj1 (env_args_parsed ["A=1"] ["verbose"] "URL" "http://x/?a=b" "verbose"
                    eq_refl eq_refl ltac:(repeat constructor; discriminate))).
  - exact (proj2 (env_args_parsed ["A=1"] ["B=2"] "URL" "" "verbose"
                    eq_refl eq_refl ltac:(repeat constructor; discriminate))).
Defined.

(** ** Overrides by name *)

Definition twice_named : list value :=
  [VDict [("name", VStr "unit"); ("cmd", VList [VStr "pytest"])];
   VDict [("name", VStr "unit"); ("retries", VInt 1)];
   VDict [("name", VStr "e2e"); ("retries", VInt 0)]].

Definition named_overrides : dict :=
  [("unit", VDict [("retries", VInt 3)]); ("ghost", VDict [("retries", VInt 9)]);
   ("e2e", VDict [("disabled", VBool true)])].

Definition named_merged : list value :=
  [VDict [("name", VStr "unit"); ("cmd", VList [VStr "pytest"])];
   VDict [("name", VStr "unit"); ("retries", VInt 3)];
   VDict [("name", VStr "smoke")]].

(** Of two entries of one name only the last takes the override, and an
    override for a name that no entry has is dropped. *)
Lemma merge_named_list_exact_witness :
  merge_named_list (VList twice_named) (VDict named_overrides)
    (VList [VDict [("name", VStr "smoke")]]) = Ok named_merged /\
  named_merged =
    List.filter enabled
      (imap (patch_entry named_overrides twice_named) twice_named ++
       [VDict [("name", VStr "smoke")]]).
Proof.
  split; [reflexivity|].
  exact (merge_named_list_exact twice_named [VDict [("name", VStr "smoke")]]
           named_overrides named_merged eq_refl eq_refl).
Defined.

(** ** The generator *)

(** A repository at [/repo] with the demo project; its tests fail until a
    file of the project is rewritten. *)
Definition gen_files (tr : list gen_event) (path : string) : result value :=
  if String.eqb path "/repo/content/code/demo/demo.test.yaml" then Ok demo_project
  else demo_files path.

Definition gen_report (tr : list gen_event) (path : string) : option (result string) :=
  if String.eqb path "artifacts/demo/report.json"
  then Some (Ok (match files_written tr with [] => "FAIL" | _ => "PASS" end))
  else None.

Definition failing_report : value :=
  VDict [("overall_passed", VBool false);
         ("results", VList [VDict [("name", VStr "backend-unit"); ("type", VStr "junit");
                                   ("returncode", VInt 1)]])].

Definition passing_report : value :=
  VDict [("overall_passed", VBool true); ("results", VList [])].

Definition gen_json (text : string) : result value :=
  if String.eqb text "PASS" then Ok passing_report
  else if String.eqb text "FAIL" then Ok failing_report
  else if String.eqb text "{FIX}"
  then Ok (VDict [("backend/app.py", VStr "fixed"); ("frontend/index.html", VStr "changed");
                  ("run.sh", VStr "exit 0")])
  else Err (ValueError "not JSON").

Definition gen_reply (tr : list gen_event) : option string := Some "Here you are: {FIX} Done.".

Definition gen_allowed : list string := ["backend/app.py"; "frontend/index.html"].

Definition gen_run : G (bool * value) :=
  run_tests_with_config repr_unused env_home (fun _ => "error") "/repo" "python3"
    gen_files (fun _ => "plan") (fun _ => Ok (EmptyString, EmptyString)) gen_report gen_json
    "demo".

Definition gen_run_events : list gen_event :=
  [GWriteMerged "/repo/content/code/demo/merged.test.yaml" "plan";
   GRunner ["python3"; "/repo/tools/run_all_tests.py"; "--config";
            "/repo/content/code/demo/merged.test.yaml"]].

Definition fixed_project : list gen_event := [GWrite "backend/app.py" "fixed"].

Example run_of_fixed_project :
  gen_run fixed_project = (Ok (true, passing_report), fixed_project ++ gen_run_events).
Proof. vm_compute. reflexivity. Qed.

Lemma passed_run_has_parsed_report_witness :
  exists merged report_path out,
    compose_of repr_unused env_home "/repo" gen_files "demo" fixed_project = Ok merged /\
    fixed_project ++ gen_run_events =
      fixed_project ++ run_events "/repo" "python3" (fun _ => "plan") "demo" merged /\
    report_path_of merged = Ok report_path /\
    Ok (EmptyString, EmptyString) = Ok out /\
    (true = true ->
     exists text d v,
       (gen_report (fixed_project ++ gen_run_events) report_path = Some (Ok text) \/
        (gen_report (fixed_project ++ gen_run_events) report_path = None /\
         text = str_or (fst out) "{}")) /\
       gen_json text = Ok passing_report /\
       passing_report = VDict d /\ dict_get d "overall_passed" = Some v /\ truthy v = true).
Proof.
  exact (passed_run_has_parsed_report repr_unused env_home (fun _ => "error") "/repo" "python3"
           gen_files (fun _ => "plan") (fun _ => Ok (EmptyString, EmptyString)) gen_report
           gen_json "demo" fixed_project true passing_report
           (fixed_project ++ gen_run_events) ltac:(vm_compute; reflexivity)).
Defined.



Definition gen_repair : G bool :=
  repair_loop_if_needed repr_unused env_home (fun s => s) (fun _ => "error") "/repo" "python3"
    gen_files (fun _ => "plan") (fun _ => Ok (EmptyString, EmptyString)) gen_report gen_json
    gen_reply repr_unused "demo" "a demo" gen_allowed.

(** The first run fails on the backend; one repair rewrites the backend
    file and the second run passes. *)
Example repair_demo :
  gen_repair [] =
    (Ok true, gen_run_events ++ [GLlm; GWrite "backend/app.py" "fixed"] ++ gen_run_events).
Proof. vm_compute. reflexivity. Qed.

Lemma repair_loop_passes_after_passing_run_witness :
  exists evs data,
    gen_run ([] ++ evs) =
      (Ok (true, data),
       gen_run_events ++ [GLlm; GWrite "backend/app.py" "fixed"] ++ gen_run_events).
Proof.
  exact (repair_loop_passes_after_passing_run repr_unused env_home (fun s => s)
           (fun _ => "error") "/repo" "python3" gen_files (fun _ => "plan")
           (fun _ => Ok (EmptyString, EmptyString)) gen_report gen_json gen_reply repr_unused
           "demo" "a demo" gen_allowed []
           (gen_run_events ++ [GLlm; GWrite "backend/app.py" "fixed"] ++ gen_run_events)
           ltac:(vm_compute; reflexivity)).
Defined.

Definition gen_verify : G bool :=
  run_verify_and_maybe_copy repr_unused env_home (fun _ => "error") "/repo" "python3"
    gen_files (fun _ => "plan") (fun _ => Ok (EmptyString, EmptyString)) gen_report gen_json
    (fun _ => None) "frontend" "demo".


(** The project as generated fails its tests: the demo UI is not touched. *)
Example verify_of_failing_project :
  gen_verify [] = (Ok false, gen_run_events).
Proof. vm_compute. reflexivity. Qed.

